(** * Agentic content repurposer: formatter, scorer and refinement decision

    A shallow embedding of [src/tools.py] ([_normalize_whitespace],
    [platform_formatting_tool], [quality_and_reach_scorer]), of the fallback
    path of [run_agent] in [src/agents.py] and of [maybe_refine] in
    [src/main.py], together with the properties the specification states
    about them.

    Conventions.
    - A Python [str] is a list of Unicode code points ([N]); [len] is
      [length], slicing [s[:k]] is [firstn k s].
    - The whitespace class of [str.strip], [str.split] and the regular
      expression [\s] is the same finite set of code points; it is written
      out in [is_space].  The line boundaries of [str.splitlines] are written
      out in [is_linebreak].
    - [str.lower] and the regular-expression class [\w] are tables of the
      Unicode character database; they are parameters of the development
      ([lower], [is_word]), so every general theorem holds for the real
      tables.  [ascii_lower] and [ascii_word] are the restrictions of those
      tables to ASCII text and are used to evaluate the code on ASCII inputs.
    - A Python [float] is an IEEE 754 binary64 number ([float]); sums,
      quotients and differences round to the nearest float, ties to even.
      The short decimals of the source (0.85, 0.90) and the floats that
      [round(_, 2)] returns are written as the decimals themselves, in [Q];
      [float_lit] gives the float such a decimal denotes.  The built-in
      [sum] adds floats one after the other up to CPython 3.11 and with a
      compensated summation from 3.12 on; which of the two is a parameter
      of the development ([compensated]).
    - A raised exception is [None] in the [option] monad. *)

From Stdlib Require Import Ascii String List NArith ZArith QArith Qround Bool Lia Arith.
From Stdlib Require Import DecimalString Qabs Lqa Sorted.
From Stdlib Require Import Floats.SpecFloat.
Import ListNotations.

(** ** Python strings *)

Definition char := N.
Definition str := list char.

(** An ASCII literal of the source as a list of code points. *)
Definition lit (s : string) : str := map N_of_ascii (list_ascii_of_string s).

Definition SP : char := 0x20%N.
Definition LF : char := 0x0A%N.
Definition CR : char := 0x0D%N.
Definition HASH : char := 0x23%N.

Fixpoint str_eqb (a b : str) : bool :=
  match a, b with
  | [], [] => true
  | x :: a', y :: b' => (x =? y)%N && str_eqb a' b'
  | _, _ => false
  end.

Definition is_empty (s : str) : bool :=
  match s with [] => true | _ :: _ => false end.

(** [str.isspace] on one code point; also the class [\s] of [re] on [str]
    patterns. *)
Definition is_space (c : char) : bool :=
  ((0x09 <=? c) && (c <=? 0x0D) || (0x1C <=? c) && (c <=? 0x1F)
   || (c =? 0x20) || (c =? 0x85) || (c =? 0xA0) || (c =? 0x1680)
   || (0x2000 <=? c) && (c <=? 0x200A)
   || (c =? 0x2028) || (c =? 0x2029) || (c =? 0x202F) || (c =? 0x205F)
   || (c =? 0x3000))%N.

(** The line boundaries recognised by [str.splitlines]. *)
Definition is_linebreak (c : char) : bool :=
  ((0x0A <=? c) && (c <=? 0x0D) || (0x1C <=? c) && (c <=? 0x1E)
   || (c =? 0x85) || (c =? 0x2028) || (c =? 0x2029))%N.

Fixpoint lstrip (s : str) : str :=
  match s with
  | [] => []
  | c :: s' => if is_space c then lstrip s' else s
  end.

Definition rstrip (s : str) : str := rev (lstrip (rev s)).

(** [s.strip()] *)
Definition strip (s : str) : str := rstrip (lstrip s).

Definition cons_first (c : char) (ls : list str) : list str :=
  match ls with
  | [] => [[c]]
  | l :: r => (c :: l) :: r
  end.

(** [s.split()]: the maximal runs of non-whitespace code points. *)
Fixpoint split (s : str) : list str :=
  match s with
  | [] => []
  | c :: s' =>
      if is_space c then split s'
      else match s' with
           | [] => [[c]]
           | d :: _ => if is_space d then [c] :: split s'
                       else cons_first c (split s')
           end
  end.

(** [sep.join(ws)] *)
Fixpoint join (sep : str) (ws : list str) : str :=
  match ws with
  | [] => []
  | w :: ws' =>
      match ws' with
      | [] => w
      | _ :: _ => w ++ sep ++ join sep ws'
      end
  end.

(** [s.startswith(p)] *)
Fixpoint startswith (s p : str) : bool :=
  match p, s with
  | [], _ => true
  | _ :: _, [] => false
  | a :: p', b :: s' => (a =? b)%N && startswith s' p'
  end.

(** [p in s] for strings. *)
Fixpoint str_in (p s : str) : bool :=
  startswith s p || match s with [] => false | _ :: s' => str_in p s' end.

(** [s.splitlines()]: a carriage return followed by a line feed is one
    boundary; a final boundary opens no empty last line. *)
Fixpoint splitlines (s : str) : list str :=
  match s with
  | [] => []
  | c :: s' =>
      if is_linebreak c then
        match s' with
        | d :: s'' => if (c =? CR)%N && (d =? LF)%N then [] :: splitlines s''
                      else [] :: splitlines s'
        | [] => [[]]
        end
      else match s' with
           | [] => [[c]]
           | _ :: _ => cons_first c (splitlines s')
           end
  end.

(** [re.sub(r"\s+", " ", s)]: every maximal run of whitespace becomes one
    space. *)
Fixpoint collapse_ws (s : str) : str :=
  match s with
  | [] => []
  | c :: s' =>
      if is_space c then
        match s' with
        | d :: _ => if is_space d then collapse_ws s' else SP :: collapse_ws s'
        | [] => [SP]
        end
      else c :: collapse_ws s'
  end.

(** [str(n)] for a non-negative integer: its decimal digits. *)
Definition decimal (n : N) : str :=
  lit (NilEmpty.string_of_uint (N.to_uint n)).

(** Number of newline-delimited lines of a text: [len(s.split("\n"))]. *)
Definition newline_lines (s : str) : nat :=
  S (count_occ N.eq_dec s LF).

(** ** Dictionaries and raised exceptions *)

(** A small constant [dict] with string keys, in insertion order. *)
Definition dict (V : Type) := list (str * V).

(** [d.get(k)]; as [d[k]] the result [None] is a raised [KeyError]. *)
Fixpoint dict_get {V : Type} (d : dict V) (k : str) : option V :=
  match d with
  | [] => None
  | (k', v) :: d' => if str_eqb k k' then Some v else dict_get d' k
  end.

(** [k in d] *)
Definition dict_mem {V : Type} (d : dict V) (k : str) : bool :=
  match dict_get d k with Some _ => true | None => false end.

(** [k in seen] for a set of strings. *)
Definition set_mem (seen : list str) (k : str) : bool :=
  existsb (str_eqb k) seen.

Definition bind {A B : Type} (m : option A) (f : A -> option B) : option B :=
  match m with Some a => f a | None => None end.

Notation "x <- m ;; k" := (bind m (fun x => k))
  (at level 61, m at next level, right associativity).

(** ** Platform configuration ([tools.py], lines 7-20) *)

Definition PLATFORM_CONFIG : dict (dict N) :=
  [ (lit "linkedin",  [ (lit "min_words", 80%N); (lit "max_words", 220%N) ]);
    (lit "instagram", [ (lit "max_chars", 2200%N); (lit "max_lines", 10%N) ]);
    (lit "email",     [ (lit "min_words", 40%N); (lit "max_words", 160%N) ]) ].

(** [_normalize_whitespace] ([tools.py], lines 23-27) *)
Definition _normalize_whitespace (text : str) : str :=
  if is_empty text then [] else strip (collapse_ws text).

(** ** Results of the two tools

    [platform_formatting_tool] returns dictionaries of three shapes, one
    constructor each; [quality_and_reach_scorer] always returns the same four
    keys. *)

Inductive FormatResult :=
| Warned (platform formatted_text warning : str)
| WordLimited (platform formatted_text : str) (length_warning : option str)
| InstagramPost (platform formatted_text caption hashtag_block : str).

Definition formatted_text (r : FormatResult) : str :=
  match r with
  | Warned _ t _ | WordLimited _ t _ | InstagramPost _ t _ _ => t
  end.

Record ScoreResult := {
  platform : str;
  score : Q;
  dimensions : dict (option Q);
  summary_feedback : str
}.

(** [a < b] on floats. *)
Definition Qltb (a b : Q) : bool := negb (Qle_bool b a).

(** [max(a, b)]: the first argument unless the second is greater. *)
Definition py_max (a b : Q) : Q := if Qltb a b then b else a.

(** ** Python floats

    Binary64: 53 bits of precision, exponents below 1024.  [float_of_Z] is
    the conversion of an integer, [float_lit] the float a decimal literal
    denotes (the quotient of two integers, rounded once), [float_value] the
    rational a finite float is; the infinities and not-a-number, which the
    scorer never produces, are given the value 0 there. *)
Definition float := spec_float.
Definition prec : Z := 53.
Definition emax : Z := 1024.

Definition float_of_Z (z : Z) : float := binary_normalize prec emax z 0 false.
Definition fadd : float -> float -> float := SFadd prec emax.
Definition fsub : float -> float -> float := SFsub prec emax.
Definition fdiv : float -> float -> float := SFdiv prec emax.

(** [0.0] *)
Definition fzero : float := S754_zero false.

Definition float_lit (q : Q) : float :=
  fdiv (float_of_Z (Qnum q)) (float_of_Z (Z.pos (Qden q))).

Definition float_value (x : float) : Q :=
  match x with
  | S754_finite s m e =>
      let n := if s then Z.neg m else Z.pos m in
      match e with
      | Z0 => inject_Z n
      | Z.pos p => inject_Z (n * 2 ^ Z.pos p)
      | Z.neg p => n # (2 ^ p)
      end
  | _ => 0
  end.

Definition is_finite (x : float) : bool :=
  match x with
  | S754_zero _ | S754_finite _ _ _ => true
  | _ => false
  end.

Definition is_zero (x : float) : bool :=
  match x with S754_zero _ => true | _ => false end.

(** One step of the compensated summation of CPython 3.12 and later: the
    running sum and the running compensation, and the next item. *)
Definition compensated_step (acc : float * float) (x : float)
  : float * float :=
  let '(f_result, c) := acc in
  let t := fadd f_result x in
  let c := if SFleb (SFabs x) (SFabs f_result)
           then fadd c (fadd (fsub f_result t) x)
           else fadd c (fadd (fsub x t) f_result) in
  (t, c).

(** [sum(vs)] for a list of floats: the first item is added to the integer
    0, the others to the running float, one after the other or, if
    [compensated], with the compensation added at the end. *)
Definition py_sum (compensated : bool) (vs : list float) : float :=
  match vs with
  | [] => fzero
  | v :: vs' =>
      let first := fadd fzero v in
      if compensated then
        let '(f_result, c) := fold_left compensated_step vs' (first, fzero) in
        if negb (is_zero c) && is_finite c then fadd f_result c
        else f_result
      else fold_left fadd vs' first
  end.

(** The nearest integer, the even one of the two at a tie. *)
Definition round_half_even (x : Q) : Z :=
  let f := Qfloor x in
  match Qcompare (x - inject_Z f) (1 # 2) with
  | Lt => f
  | Gt => (f + 1)%Z
  | Eq => if Z.even f then f else (f + 1)%Z
  end.

(** [round(x, 2)]: the decimal with two places nearest to the value the
    float has, the even one at a tie; the float returned is the one that
    decimal denotes. *)
Definition round2 (x : float) : Q :=
  round_half_even (float_value x * 100) # 100.

(** The dimensions that are not [None]:
    [[v for v in dimensions.values() if v is not None]]. *)
Fixpoint numeric_values (d : dict (option Q)) : list Q :=
  match d with
  | [] => []
  | (_, Some v) :: d' => v :: numeric_values d'
  | (_, None) :: d' => numeric_values d'
  end.

(** [sum(vs) / len(vs)] on the floats that the decimals [vs] denote. *)
Definition mean (compensated : bool) (vs : list Q) : float :=
  fdiv (py_sum compensated (map float_lit vs))
       (float_of_Z (Z.of_nat (length vs))).

(** [re.split(r"(?<=[.!?])\s+", s)]: the text is cut at every run of
    whitespace that directly follows a full stop, an exclamation mark or a
    question mark.  [cur] holds the piece being read, reversed;
    [after_punct] says that the previous code point was such a mark;
    [in_sep] says that a separator is being skipped. *)
Definition is_sentence_end (c : char) : bool :=
  ((c =? 0x2E) || (c =? 0x21) || (c =? 0x3F))%N.

Fixpoint re_split_sentences (cur : str) (after_punct in_sep : bool) (s : str)
  : list str :=
  match s with
  | [] => [rev cur]
  | c :: s' =>
      if is_space c then
        if in_sep then re_split_sentences cur false true s'
        else if after_punct then rev cur :: re_split_sentences [] false true s'
        else re_split_sentences (c :: cur) false false s'
      else re_split_sentences (c :: cur) (is_sentence_end c) false s'
  end.

(** The states of the scan for [#\w+]. *)
Inductive tag_state :=
| Idle
| AfterHash
| InTag (cur : str).

Section Tools.

(** [str.lower], the class [\w], and the summation of the built-in
    [sum]. *)
Variable lower : str -> str.
Variable is_word : char -> bool.
Variable compensated : bool.

(** [re.findall(r"#\w+", s)], leftmost and greedy. *)
Fixpoint findall_hashtags (st : tag_state) (s : str) : list str :=
  match s with
  | [] => match st with InTag cur => [rev cur] | _ => [] end
  | c :: s' =>
      let restart := if (c =? HASH)%N then AfterHash else Idle in
      match st with
      | InTag cur =>
          if is_word c then findall_hashtags (InTag (c :: cur)) s'
          else rev cur :: findall_hashtags restart s'
      | AfterHash =>
          if is_word c then findall_hashtags (InTag [c; HASH]) s'
          else findall_hashtags restart s'
      | Idle => findall_hashtags restart s'
      end
  end.

(** *** The hashtag loops of the Instagram branch ([tools.py], 169-188) *)

(** Lines 171-178: trim, drop empty tags, prepend [#] where it is missing. *)
Fixpoint cleaned_tags (hashtags : list str) : list str :=
  match hashtags with
  | [] => []
  | tag :: rest =>
      let t := strip tag in
      if is_empty t then cleaned_tags rest
      else (if startswith t [HASH] then t else HASH :: t) :: cleaned_tags rest
  end.

(** Lines 181-186: keep a tag unless its lower-cased form was seen. *)
Fixpoint deduped_tags (seen : list str) (tags : list str) : list str :=
  match tags with
  | [] => []
  | t :: rest =>
      if set_mem seen (lower t) then deduped_tags seen rest
      else t :: deduped_tags (lower t :: seen) rest
  end.

(** Line 188 *)
Definition hashtag_block (hashtags : option (list str)) : str :=
  let hashtags := match hashtags with Some h => h | None => [] end in
  join [SP] (deduped_tags [] (cleaned_tags hashtags)).

(** *** [platform_formatting_tool] ([tools.py], lines 98-227)

    The defaults of lines 113-114 leave a [str] as it is; [hashtags or []]
    turns [None] into the empty list. *)

Definition platform_formatting_tool
    (platform text : str) (hashtags : option (list str)) : option FormatResult :=
  let platform := lower platform in
  let raw_text := text in
  if negb (dict_mem PLATFORM_CONFIG platform) then
    let safe := _normalize_whitespace raw_text in
    Some (Warned platform safe
            (lit "Unknown platform; no specific formatting applied."))
  else if is_empty (strip raw_text) then
    Some (Warned platform
            (lit "[EMPTY CONTENT] No text was provided to format.")
            (lit "Input text was empty."))
  else
  let formatted := strip raw_text in
  if str_eqb platform (lit "linkedin") then
    let formatted := _normalize_whitespace formatted in
    let words := split formatted in
    cfg <- dict_get PLATFORM_CONFIG (lit "linkedin") ;;
    min_w <- dict_get cfg (lit "min_words") ;;
    max_w <- dict_get cfg (lit "max_words") ;;
    let len_words := N.of_nat (length words) in
    if (max_w <? len_words)%N then
      Some (WordLimited (lit "linkedin")
              (join [SP] (firstn (N.to_nat max_w) words))
              (Some (lit "Trimmed LinkedIn post to " ++ decimal max_w
                       ++ lit " words.")))
    else if (len_words <? min_w)%N then
      Some (WordLimited (lit "linkedin") formatted
              (Some (lit "LinkedIn post is quite short (" ++ decimal len_words
                       ++ lit " words).")))
    else Some (WordLimited (lit "linkedin") formatted None)
  else if str_eqb platform (lit "instagram") then
    let caption := strip raw_text in
    cfg <- dict_get PLATFORM_CONFIG (lit "instagram") ;;
    let lines := splitlines caption in
    max_lines <- dict_get cfg (lit "max_lines") ;;
    let caption :=
      if (max_lines <? N.of_nat (length lines))%N
      then join [LF] (firstn (N.to_nat max_lines) lines) else caption in
    max_chars <- dict_get cfg (lit "max_chars") ;;
    let caption :=
      if (max_chars <? N.of_nat (length caption))%N
      then firstn (N.to_nat max_chars) caption else caption in
    let block := hashtag_block hashtags in
    let full_text :=
      if negb (is_empty block) then caption ++ [LF; LF] ++ block
      else caption in
    Some (InstagramPost (lit "instagram") full_text caption block)
  else if str_eqb platform (lit "email") then
    let formatted := _normalize_whitespace formatted in
    let words := split formatted in
    cfg <- dict_get PLATFORM_CONFIG (lit "email") ;;
    min_w <- dict_get cfg (lit "min_words") ;;
    max_w <- dict_get cfg (lit "max_words") ;;
    let len_words := N.of_nat (length words) in
    if (max_w <? len_words)%N then
      Some (WordLimited (lit "email")
              (join [SP] (firstn (N.to_nat max_w) words))
              (Some (lit "Trimmed email blurb to " ++ decimal max_w
                       ++ lit " words.")))
    else if (len_words <? min_w)%N then
      Some (WordLimited (lit "email") formatted
              (Some (lit "Email blurb is quite short (" ++ decimal len_words
                       ++ lit " words).")))
    else Some (WordLimited (lit "email") formatted None)
  else
    let safe := _normalize_whitespace raw_text in
    Some (Warned platform safe (lit "Reached fallback branch of formatter.")).

(** *** [quality_and_reach_scorer] ([tools.py], lines 232-372) *)

Definition FALLBACK_MARKER : str := lit "[FALLBACK]".

(** Lines 274-278 *)
Definition clarity (text : str) (words : list str) : Q :=
  if str_in FALLBACK_MARKER text then 0.3
  else if (length words <? 15)%nat then 0.6
  else 0.8.

(** Line 282 *)
Definition tone_match : Q := 0.8.

(** Lines 285-303 *)
Definition length_appropriateness (platform : str) (word_count : nat) : Q :=
  let wc := N.of_nat word_count in
  if str_eqb platform (lit "linkedin") || str_eqb platform (lit "email") then
    let cfg := match dict_get PLATFORM_CONFIG platform with
               | Some c => c | None => [] end in
    let min_w := match dict_get cfg (lit "min_words") with
                 | Some n => n | None => 0%N end in
    let max_w := match dict_get cfg (lit "max_words") with
                 | Some n => n | None => (10 ^ 9)%N end in
    if (wc <? min_w)%N then 0.5
    else if (max_w <? wc)%N then 0.6
    else 0.9
  else if str_eqb platform (lit "instagram") then
    if (wc <? 10)%N then 0.5
    else if (120 <? wc)%N then 0.6
    else 0.9
  else 0.8.

(** The four strings of line 312, code point by code point as the source
    file stores them. *)
Definition hook_emojis : list str :=
  [ [0xF0; 0x178; 0x201D; 0xA5]; [0xE2; 0x153; 0xA8];
    [0xF0; 0x178; 0x2019; 0xAA]; [0xF0; 0x178; 0x161; 0x20AC] ]%N.

Definition hook_openers : list str :=
  [ lit "imagine"; lit "what if"; lit "ever felt" ].

(** Lines 307-315 *)
Definition hook_strength (text : str) : Q :=
  let sentences := re_split_sentences [] false false (strip text) in
  let opening := match sentences with o :: _ => o | [] => text end in
  let hook := 0.7 in
  let hook := if str_in (lit "?") opening then 0.85 else hook in
  let hook := if existsb (fun e => str_in e opening) hook_emojis
              then py_max hook 0.8 else hook in
  let hook := if existsb (startswith (lower opening)) hook_openers
              then py_max hook 0.85 else hook in
  hook.

Definition cta_phrases : list str :=
  [ lit "share"; lit "comment"; lit "tell me"; lit "let me know";
    lit "join"; lit "reply"; lit "dm me"; lit "reach out"; lit "connect" ].

(** Lines 318-325 *)
Definition cta_quality (text : str) : Q :=
  let lower_text := lower text in
  if existsb (fun p => str_in p lower_text) cta_phrases then 0.9 else 0.6.

(** Lines 328-336 *)
Definition hashtag_richness (platform text : str) : option Q :=
  if str_eqb platform (lit "instagram") then
    let tags := findall_hashtags Idle text in
    if (length tags =? 0)%nat then Some 0.4
    else if (3 <=? length tags)%nat && (length tags <=? 15)%nat then Some 0.9
    else Some 0.7
  else None.

(** Lines 352-365 *)
Definition feedback (platform : str) (len_app hook cta : Q) (tags : option Q)
  : str :=
  let parts :=
    (if Qltb len_app 0.7
     then [lit "Adjust the length to better fit this platform."] else [])
    ++ (if Qltb hook 0.75
        then [lit "Consider a stronger opening line or hook."] else [])
    ++ (if Qltb cta 0.75 then [lit "Add a clearer call-to-action."] else [])
    ++ (if str_eqb platform (lit "instagram")
           && match tags with Some t => Qltb t 0.7 | None => false end
        then [lit "Add more relevant hashtags to increase reach."] else [])
  in
  match parts with
  | [] => lit "Overall, this content is well-structured for the platform."
  | _ :: _ => join [SP] parts
  end.

Definition quality_and_reach_scorer
    (platform text : str) (strategy : option str) : ScoreResult :=
  let platform := lower platform in
  let text := strip text in
  if is_empty text then
    {| platform := platform; score := 0; dimensions := [];
       summary_feedback := lit "No text to evaluate." |}
  else
  let normalized := _normalize_whitespace text in
  let words := split normalized in
  let word_count := length words in
  let clarity := clarity text words in
  let length_appropriateness := length_appropriateness platform word_count in
  let hook_strength := hook_strength text in
  let cta_quality := cta_quality text in
  let hashtag_richness := hashtag_richness platform text in
  let dimensions : dict (option Q) :=
    [ (lit "clarity", Some clarity);
      (lit "tone_match", Some tone_match);
      (lit "length_appropriateness", Some length_appropriateness);
      (lit "hook_strength", Some hook_strength);
      (lit "cta_quality", Some cta_quality);
      (lit "hashtag_richness", hashtag_richness) ] in
  let numeric_values := numeric_values dimensions in
  let final_score :=
    match numeric_values with
    | [] => fzero
    | _ :: _ => fdiv (py_sum compensated (map float_lit numeric_values))
                     (float_of_Z (Z.of_nat (length numeric_values)))
    end in
  {| platform := platform;
     score := round2 final_score;
     dimensions := dimensions;
     summary_feedback :=
       feedback platform length_appropriateness hook_strength cta_quality
                hashtag_richness |}.

End Tools.

(** ** The tables on ASCII text *)

Definition ascii_lower_char (c : char) : char :=
  if ((0x41 <=? c) && (c <=? 0x5A))%N then (c + 0x20)%N else c.

(** [str.lower] on text whose code points are all below 128. *)
Definition ascii_lower (s : str) : str := map ascii_lower_char s.

(** The class [\w] on code points below 128: letters, digits, underscore. *)
Definition ascii_word (c : char) : bool :=
  ((0x30 <=? c) && (c <=? 0x39) || (0x41 <=? c) && (c <=? 0x5A)
   || (0x61 <=? c) && (c <=? 0x7A) || (c =? 0x5F))%N.

(** ** The fallback of [run_agent] ([agents.py], lines 31-67)

    The model API is the only collaborator: each attempt either completes
    with some content or raises, and [str(e)] is the text of what it raised.
    Printing and sleeping between attempts leave the result unchanged. *)

Inductive api_outcome :=
| Completed (content : str)
| Raised (error : str).

Definition MAX_RETRIES : nat := 3.

(** Line 67; [last_error] is [None] only if no attempt was made. *)
Definition fallback_output (last_error : option str) : str :=
  lit "[FALLBACK OUTPUT] Unable to generate content due to: "
  ++ match last_error with Some e => e | None => lit "None" end.

(** The loop of lines 47-64, at attempt [attempt] with [remaining] attempts
    left. *)
Fixpoint run_agent_loop (call : nat -> api_outcome) (attempt remaining : nat)
    (last_error : option str) : str :=
  match remaining with
  | O => fallback_output last_error
  | S remaining' =>
      match call attempt with
      | Completed content => strip content
      | Raised e => run_agent_loop call (S attempt) remaining' (Some e)
      end
  end.

Definition run_agent (call : nat -> api_outcome) : str :=
  run_agent_loop call 1 MAX_RETRIES None.

(** ** The refinement step of the pipeline ([main.py], lines 24, 327-368) *)

Definition REFINEMENT_THRESHOLD : Q := 0.90.

(** An entry of [scores]: the scorer's result, or the dictionary with
    [score] set to [None] that the pipeline stores when scoring raised. *)
Inductive ScoreEntry :=
| Scored (r : ScoreResult)
| ScoringFailed (platform : str).

(** [scores[platform].get("score")] *)
Definition entry_score (e : ScoreEntry) : option Q :=
  match e with Scored r => Some (score r) | ScoringFailed _ => None end.

(** [scores[platform].get('summary_feedback')] *)
Definition entry_feedback (e : ScoreEntry) : str :=
  match e with
  | Scored r => summary_feedback r
  | ScoringFailed _ => lit "Scoring failed."
  end.

Record Refinement := {
  old : option Q;
  new : option Q;
  delta : float
}.

Record RefineState := {
  scores : dict ScoreEntry;
  refinements : dict Refinement;
  refinements_made : list str
}.

(** [d[k] = v] *)
Fixpoint dict_set {V : Type} (d : dict V) (k : str) (v : V) : dict V :=
  match d with
  | [] => [(k, v)]
  | (k', v') :: d' =>
      if str_eqb k k' then (k, v) :: d' else (k', v') :: dict_set d' k v
  end.

(** The refinement decision: the guard of line 331 does not return the
    original text. *)
Definition needs_refinement (base_score : option Q) : bool :=
  match base_score with
  | None => false
  | Some s => negb (Qle_bool REFINEMENT_THRESHOLD s)
  end.

Definition QUOTES3 : str := [0x22; 0x22; 0x22]%N.

(** The prompt of lines 335-351. *)
Definition improvement_prompt (platform original_text feedback : str) : str :=
  [LF] ++ lit "You are revising a " ++ platform
  ++ lit " post to improve its quality." ++ [LF; LF]
  ++ lit "Original " ++ platform ++ lit " content:" ++ [LF]
  ++ QUOTES3 ++ original_text ++ QUOTES3 ++ [LF; LF]
  ++ lit "Scoring feedback:" ++ [LF]
  ++ QUOTES3 ++ feedback ++ QUOTES3 ++ [LF; LF]
  ++ lit "Goal:" ++ [LF]
  ++ lit "- Keep the same main message" ++ [LF]
  ++ lit "- Stronger hook in the first line" ++ [LF]
  ++ lit "- Clearer call-to-action" ++ [LF]
  ++ lit "- Keep length reasonable for " ++ platform ++ [LF; LF]
  ++ lit "Rewrite the content accordingly." ++ [LF].

Section Pipeline.

Variable lower : str -> str.
Variable is_word : char -> bool.
Variable compensated : bool.

(** [run_agent(stylist, prompt)]: what the model answers to a prompt. *)
Variable ask_stylist : str -> str.
Variable strategy : option str.

(** Lines 335-368 of [maybe_refine]: ask for a rewrite, keep the original
    if the answer is empty or a fallback, otherwise score the rewrite and
    record the change. *)
Definition rewrite_and_rescore (st : RefineState) (platform original_text : str)
    (entry : ScoreEntry) : str * RefineState :=
  let base_score := entry_score entry in
  let improved :=
    ask_stylist
      (improvement_prompt platform original_text (entry_feedback entry)) in
  if is_empty improved || startswith improved (lit "[FALLBACK") then
    (original_text, st)
  else
  let new_score :=
    quality_and_reach_scorer lower is_word compensated platform improved strategy in
  let old_ := base_score in
  let new_ := Some (score new_score) in
  let delta_ := match old_, new_ with
                | Some o, Some n => fsub (float_lit n) (float_lit o)
                | _, _ => fzero
                end in
  (improved,
   {| scores := dict_set (scores st) platform (Scored new_score);
      refinements :=
        dict_set (refinements st) platform
          {| old := old_; new := new_; delta := delta_ |};
      refinements_made := refinements_made st ++ [platform] |}).

(** [maybe_refine] (lines 327-368); the state is the part of the enclosing
    scope it reads and writes, and [None] is a raised [KeyError]. *)
Definition maybe_refine (st : RefineState) (platform original_text : str)
  : option (str * RefineState) :=
  record <- dict_get (refinements st) platform ;;
  entry <- dict_get (scores st) platform ;;
  let base_score := entry_score entry in
  if match base_score with
     | None => true
     | Some s => Qle_bool REFINEMENT_THRESHOLD s
     end
  then Some (original_text, st)
  else Some (rewrite_and_rescore st platform original_text entry).

End Pipeline.


(** ** Vocabulary of the statements *)

(** A word: non-empty and free of whitespace. *)
Definition wordy (w : str) : Prop :=
  w <> [] /\ forallb (fun c => negb (is_space c)) w = true.

(** What [collapse_ws] leaves in front of and behind the words of a text:
    one space if the text starts with whitespace, and one if it has a word
    and ends with whitespace. *)
Definition leading_space (s : str) : str :=
  match s with
  | c :: _ => if is_space c then [SP] else []
  | [] => []
  end.

Definition trailing_space (s : str) : str :=
  match s with
  | _ :: _ =>
      if is_space (last s SP)
         && negb (match split s with [] => true | _ => false end)
      then [SP] else []
  | [] => []
  end.

(** The specification's reading of the de-duplication: a tag is kept when
    no earlier tag of the list has the same lower-cased form. *)
Fixpoint first_seen_from (lower : str -> str) (earlier tags : list str)
  : list str :=
  match tags with
  | [] => []
  | t :: rest =>
      if existsb (fun u => str_eqb (lower t) (lower u)) earlier
      then first_seen_from lower (earlier ++ [t]) rest
      else t :: first_seen_from lower (earlier ++ [t]) rest
  end.

(** The specification's reading of the clean-up of one tag list. *)
Definition with_hash (t : str) : str :=
  if startswith t [HASH] then t else HASH :: t.

(** The six entries of the dimensions mapping, in the order of lines
    338-345. *)
Definition dimension_table (c l h q : Q) (hr : option Q) : dict (option Q) :=
  [ (lit "clarity", Some c);
    (lit "tone_match", Some tone_match);
    (lit "length_appropriateness", Some l);
    (lit "hook_strength", Some h);
    (lit "cta_quality", Some q);
    (lit "hashtag_richness", hr) ].

(** The specification's arithmetic mean of a list of decimals, in exact
    arithmetic. *)
Definition exact_mean (vs : list Q) : Q :=
  fold_right Qplus 0 vs / inject_Z (Z.of_nat (length vs)).

(** A check of every mapping the scorer can build, under both summations:
    the values each dimension can take are those of [clarity_cases],
    [length_cases], [hook_cases], [cta_cases] and [hashtag_cases]. *)
Definition every_dimension_table
    (check : bool -> Q -> Q -> Q -> Q -> option Q -> bool) : bool :=
  forallb (fun b =>
  forallb (fun c =>
  forallb (fun l =>
  forallb (fun h =>
  forallb (fun q =>
  forallb (fun hr => check b c l h q hr)
    [None; Some 0.4; Some 0.9; Some 0.7])
    [0.6; 0.9])
    [0.7; 0.85; 0.8])
    [0.5; 0.6; 0.9; 0.8])
    [0.3; 0.6; 0.8])
    [true; false].

(** The score of a mapping. *)
Definition table_score (compensated : bool) (c l h q : Q) (hr : option Q) : Q :=
  round2 (mean compensated (numeric_values (dimension_table c l h q hr))).

(** ** Sample inputs *)

(** The ten lines "1" to "10". *)
Definition ten_lines : str :=
  join [LF] (map (fun n => decimal n) [1; 2; 3; 4; 5; 6; 7; 8; 9; 10]%N).

(** A one-line caption of exactly 2200 code points. *)
Definition long_caption : str := repeat 0x78%N 2200.

(** A text of whitespace only: two spaces, a tab and a line feed. *)
Definition blank_text : str := [SP; SP; 0x09; LF]%N.

(** Two hundred one-letter words separated by single spaces. *)
Definition two_hundred_words : str := join [SP] (repeat [0x61%N] 200).

(** A pipeline state in which scoring failed for linkedin and email scored
    exactly 0.90. *)
Definition sample_state : RefineState :=
  {| scores :=
       [ (lit "linkedin", ScoringFailed (lit "linkedin"));
         (lit "email",
          Scored {| platform := lit "email"; score := 0.90;
                    dimensions := []; summary_feedback := [] |}) ];
     refinements :=
       [ (lit "linkedin", {| old := None; new := None; delta := fzero |});
         (lit "email", {| old := None; new := None; delta := fzero |}) ];
     refinements_made := [] |}.

(** Three words with surplus whitespace between and around them. *)
Definition spaced_text : str :=
  [SP; 0x61; SP; SP; LF; 0x62; 0x09; 0x63; SP]%N.

(** * The rest of [tools.py]

    ** Further string operations *)

(** [s.lstrip(chars)] *)
Fixpoint lstrip_chars (chars s : str) : str :=
  match s with
  | [] => []
  | c :: s' => if existsb (N.eqb c) chars then lstrip_chars chars s' else s
  end.

(** [s.strip(chars)] *)
Definition strip_chars (chars s : str) : str :=
  rev (lstrip_chars chars (rev (lstrip_chars chars s))).

(** The order of [str]: code point by code point, a proper prefix first. *)
Fixpoint str_compare (a b : str) : comparison :=
  match a, b with
  | [], [] => Eq
  | [], _ :: _ => Lt
  | _ :: _, [] => Gt
  | x :: a', y :: b' =>
      match (x ?= y)%N with
      | Eq => str_compare a' b'
      | Lt => Lt
      | Gt => Gt
      end
  end.

(** [a < b] on strings. *)
Definition str_lt (a b : str) : Prop := str_compare a b = Lt.

Fixpoint insert_sorted (x : str) (l : list str) : list str :=
  match l with
  | [] => [x]
  | y :: r =>
      match str_compare x y with
      | Lt => x :: l
      | Eq => l
      | Gt => y :: insert_sorted x r
      end
  end.

(** [sorted(set(l))]: the distinct elements of [l] in ascending order. *)
Definition sorted_set (l : list str) : list str :=
  fold_right insert_sorted [] l.

(** The result dictionaries of the two helper tools. *)
Record TopicResult := {
  topic : str;
  keywords : list str;
  angles : list str;
  notes : str
}.

Record MapperResult := {
  mapper_keywords : list str;
  hooks : list str;
  mapper_notes : str
}.

Definition PUNCTUATION : str := lit ".,!?".

Definition stopwords : list str :=
  [ lit "the"; lit "and"; lit "for"; lit "with"; lit "this"; lit "that";
    lit "from"; lit "you"; lit "your" ].

Section HelperTools.

Variable lower : str -> str.

(** [topic_research_tool] ([tools.py], lines 32-58) *)
Definition topic_research_tool (topic : str) : TopicResult :=
  let cleaned := _normalize_whitespace topic in
  if is_empty cleaned then
    {| topic := []; keywords := []; angles := [];
       notes := lit "No topic provided." |}
  else
  let words :=
    map (fun w => lower (strip_chars PUNCTUATION w))
        (filter (fun w => (3 <? length w)%nat) (split cleaned)) in
  let unique_words := sorted_set words in
  {| topic := cleaned;
     keywords := firstn 8 unique_words;
     angles := map (fun w => lit "Practical tips about " ++ w)
                   (firstn 3 unique_words);
     notes := lit "Heuristic topic breakdown based on user brief." |}.

(** [keyword_and_hook_mapper_tool] ([tools.py], lines 61-95) *)
Definition keyword_and_hook_mapper_tool (strategy_text : str) : MapperResult :=
  let cleaned := _normalize_whitespace strategy_text in
  if is_empty cleaned then
    {| mapper_keywords := []; hooks := [];
       mapper_notes := lit "Empty strategy text; nothing to extract." |}
  else
  let sentences := re_split_sentences [] false false cleaned in
  let first_sentence := match sentences with o :: _ => o | [] => cleaned end in
  let tokens :=
    map (fun t => lower (strip_chars PUNCTUATION t)) (split cleaned) in
  let keywords :=
    sorted_set
      (filter (fun t => (3 <? length t)%nat && negb (set_mem stopwords t))
              tokens) in
  let hooks :=
    (if str_in (lit "?") first_sentence
     then [lit "Start with a question to draw the reader in."] else [])
    ++ (if str_in (lit "story") (lower cleaned)
        then [lit "Open with a short story-based hook."] else [])
    ++ [lit "Use a concrete scenario your audience relates to."]
    ++ [lit "Highlight a pain point in the first line."] in
  {| mapper_keywords := firstn 10 keywords;
     hooks := firstn 4 hooks;
     mapper_notes :=
       lit "Heuristic mapper; can be swapped with a smarter tool later." |}.

End HelperTools.

(** * The agents and the pipeline ([agents.py], [main.py]) *)

Definition QUOTE : char := 0x22%N.
Definition EN_DASH : char := 0x2013%N.

(** The dictionary built by [create_agent] ([agents.py], lines 74-86); the
    pipeline gives no agent any tool. *)
Record Agent := {
  role : str;
  system_prompt : str;
  tools : list str;
  memory : bool
}.

Definition create_agent (role system_prompt : str)
    (tools : option (list str)) : Agent :=
  {| role := role;
     system_prompt := system_prompt;
     tools := match tools with Some t => t | None => [] end;
     memory := true |}.

(** [create_controller_agent] ([agents.py], lines 93-106) *)
Definition create_controller_agent : Agent :=
  create_agent
    (lit "Content Director")
    (lit "You are the Controller Agent who oversees a multi-agent content system. You do not generate final content yourself. Instead, you outline how the strategy, draft writer, platform stylists, and quality reviewer should work together, step-by-step.")
    None.

(** [create_brief_and_strategy_agent] ([agents.py], lines 109-121) *)
Definition create_brief_and_strategy_agent : Agent :=
  create_agent
    (lit "Content Strategist")
    (lit "You are a Content Strategist. From a short brief, you identify the target audience, desired tone, and 3"
     ++ [EN_DASH]
     ++ lit "5 key points that must be covered across all platforms.")
    None.

(** [create_master_draft_writer_agent] ([agents.py], lines 124-136) *)
Definition create_master_draft_writer_agent : Agent :=
  create_agent
    (lit "Master Draft Writer")
    (lit "You are the Master Draft Writer. Using the user brief and strategist notes, you write a clear, neutral, well-structured base draft (2"
     ++ [EN_DASH]
     ++ lit "3 short paragraphs). Do not optimize for any specific platform; just focus on clarity and completeness.")
    None.

(** [create_platform_stylist_agent] ([agents.py], lines 139-155) *)
Definition create_platform_stylist_agent : Agent :=
  create_agent
    (lit "Platform Stylist")
    (lit "You are a Platform Stylist. You take a base draft and adapt it into platform-specific content:"
     ++ [LF]
     ++ lit "- LinkedIn: professional, multi-line post with a hook and CTA."
     ++ [LF]
     ++ lit "- Instagram: short, emotive caption with emojis and hashtags."
     ++ [LF] ++ lit "- Email: friendly, supportive blurb with a gentle CTA."
     ++ [LF]
     ++ lit "Always respect the original message and tone from the brief.")
    None.

(** [create_quality_reviewer_agent] ([agents.py], lines 158-171) *)
Definition create_quality_reviewer_agent : Agent :=
  create_agent
    (lit "Quality Reviewer")
    (lit "You are a Quality Reviewer for multi-platform content. You focus on clarity, tone consistency, structure, CTA strength, and alignment with platform norms. You often collaborate with a separate scoring tool that computes numeric scores.")
    None.

(** [controller_prompt] ([main.py], lines 135-144) *)
Definition controller_prompt (user_brief : str) : str :=
  [LF]
  ++ lit "You are the Content Director orchestrating a multi-agent system."
  ++ [LF; LF] ++ lit "User brief:" ++ [LF; QUOTE; QUOTE; QUOTE] ++ user_brief
  ++ [QUOTE; QUOTE; QUOTE; LF; LF]
  ++ lit "Outline how our agents (Strategy, Draft Writer, Platform Stylist, Quality Reviewer)"
  ++ [LF]
  ++ lit "should collaborate to turn this brief into LinkedIn, Instagram, and Email content."
  ++ [LF] ++ lit "Use numbered steps and keep it concise." ++ [LF].

(** [strategist_prompt] ([main.py], lines 155-165) *)
Definition strategist_prompt (user_brief : str) : str :=
  [LF] ++ lit "You are a Content Strategist." ++ [LF; LF]
  ++ lit "User brief:" ++ [LF; QUOTE; QUOTE; QUOTE] ++ user_brief
  ++ [QUOTE; QUOTE; QUOTE; LF; LF] ++ lit "Summarize:" ++ [LF]
  ++ lit "1) target audience," ++ [LF] ++ lit "2) desired tone," ++ [LF]
  ++ lit "3) 3" ++ [EN_DASH]
  ++ lit "5 key message points to cover across all platforms." ++ [LF].

(** [draft_prompt] ([main.py], lines 183-194) *)
Definition draft_prompt (user_brief strategy_raw : str) : str :=
  [LF] ++ lit "You are the Master Draft Writer." ++ [LF; LF]
  ++ lit "Based on the user brief and the strategist notes, write a neutral,"
  ++ [LF] ++ lit "well-structured base draft (2" ++ [EN_DASH]
  ++ lit "3 short paragraphs) on the topic." ++ [LF; LF] ++ lit "User brief:"
  ++ [LF; QUOTE; QUOTE; QUOTE] ++ user_brief ++ [QUOTE; QUOTE; QUOTE; LF; LF]
  ++ lit "Strategist notes:" ++ [LF; QUOTE; QUOTE; QUOTE] ++ strategy_raw
  ++ [QUOTE; QUOTE; QUOTE; LF].

(** [linkedin_prompt] ([main.py], lines 212-223) *)
Definition linkedin_prompt (base_draft : str) : str :=
  [LF] ++ lit "You are a LinkedIn content specialist." ++ [LF; LF]
  ++ lit "Using the base draft below, create a LinkedIn post:" ++ [LF]
  ++ lit "- Professional but human tone" ++ [LF] ++ lit "- 5" ++ [EN_DASH]
  ++ lit "8 short lines" ++ [LF] ++ lit "- Clear hook in the first 1"
  ++ [EN_DASH] ++ lit "2 lines" ++ [LF]
  ++ lit "- End with a question or call-to-action inviting comments"
  ++ [LF; LF] ++ lit "Base draft:" ++ [LF; QUOTE; QUOTE; QUOTE] ++ base_draft
  ++ [QUOTE; QUOTE; QUOTE; LF].

(** [instagram_prompt] ([main.py], lines 227-238) *)
Definition instagram_prompt (base_draft : str) : str :=
  [LF] ++ lit "You are an Instagram caption specialist." ++ [LF; LF]
  ++ lit "Using the base draft below, write:" ++ [LF]
  ++ lit "- A short, emotionally engaging caption" ++ [LF]
  ++ lit "- Use emojis sparingly but effectively" ++ [LF]
  ++ lit "- End with a question to encourage replies" ++ [LF]
  ++ lit "- Then propose 10" ++ [EN_DASH]
  ++ lit "15 relevant hashtags on new lines under [Hashtags]" ++ [LF; LF]
  ++ lit "Base draft:" ++ [LF; QUOTE; QUOTE; QUOTE] ++ base_draft
  ++ [QUOTE; QUOTE; QUOTE; LF].

(** [email_prompt] ([main.py], lines 242-252) *)
Definition email_prompt (base_draft : str) : str :=
  [LF]
  ++ lit "You are writing a short email-style blurb or newsletter snippet."
  ++ [LF; LF] ++ lit "Using the base draft below:" ++ [LF] ++ lit "- Write 3"
  ++ [EN_DASH] ++ lit "6 sentences" ++ [LF]
  ++ lit "- Supportive, clear, encouraging" ++ [LF]
  ++ lit "- One clear, gentle call-to-action at the end" ++ [LF; LF]
  ++ lit "Base draft:" ++ [LF; QUOTE; QUOTE; QUOTE] ++ base_draft
  ++ [QUOTE; QUOTE; QUOTE; LF].

(** The replacement draft of line 199. *)
Definition brief_based_draft (user_brief : str) : str :=
  lit "This draft is based on the user brief:" ++ [LF; LF] ++ user_brief.

(** [parse_strategy] ([main.py], lines 86-99) *)
Record Strategy := {
  raw : str;
  key_points : list str;
  audience : str;
  tone : str
}.

Definition parse_strategy (raw_text : str) : Strategy :=
  {| raw := raw_text;
     key_points := [];
     audience := lit "early-career or general";
     tone := lit "honest, practical, encouraging" |}.

(** The places of [run_content_repurposer] and [maybe_refine] that call
    [run_agent]. *)
Inductive call_site :=
| ControllerPlan
| StrategyNotes
| BaseDraft
| LinkedinPost
| InstagramCaption
| EmailBlurb
| Rewrite (platform : str).

(** The run state returned by [run_content_repurposer]; [refine_state]
    holds its entries [scores] and [refinements] and the list
    [refinements_made] of the enclosing scope. *)
Record RunState := {
  brief : str;
  controller_plan : str;
  strategy_notes : Strategy;
  base_draft : str;
  linkedin : str;
  instagram : str;
  email : str;
  refine_state : RefineState
}.

(** Lines 116-120 *)
Definition initial_refinements : dict Refinement :=
  [ (lit "linkedin", {| old := None; new := None; delta := fzero |});
    (lit "instagram", {| old := None; new := None; delta := fzero |});
    (lit "email", {| old := None; new := None; delta := fzero |}) ].

Section Repurposer.

Variable lower : str -> str.
Variable is_word : char -> bool.
Variable compensated : bool.

(** The model API: the outcome of each attempt of the [run_agent] call made
    at a place of the pipeline, for an agent and a prompt. *)
Variable client : call_site -> Agent -> str -> nat -> api_outcome.

(** [run_content_repurposer] ([main.py], lines 102-389).  Printing is left
    out; the scorer cannot raise, so the [except] branches of lines 279-308
    are not taken; the scorer does not read its third argument, which is
    represented by the raw strategy text. *)
Definition run_content_repurposer (user_brief : str) : option RunState :=
  let controller := create_controller_agent in
  let strategist := create_brief_and_strategy_agent in
  let master_writer := create_master_draft_writer_agent in
  let stylist := create_platform_stylist_agent in
  let controller_plan :=
    run_agent (client ControllerPlan controller
                 (controller_prompt user_brief)) in
  let strategy_raw :=
    run_agent (client StrategyNotes strategist
                 (strategist_prompt user_brief)) in
  let strategy := parse_strategy strategy_raw in
  let base_draft :=
    run_agent (client BaseDraft master_writer
                 (draft_prompt user_brief strategy_raw)) in
  let base_draft :=
    if is_empty base_draft || startswith base_draft (lit "[FALLBACK")
    then brief_based_draft user_brief else base_draft in
  let linkedin_text :=
    run_agent (client LinkedinPost stylist (linkedin_prompt base_draft)) in
  let instagram_text :=
    run_agent (client InstagramCaption stylist
                 (instagram_prompt base_draft)) in
  let email_text :=
    run_agent (client EmailBlurb stylist (email_prompt base_draft)) in
  let scorer := quality_and_reach_scorer lower is_word compensated in
  let scores : dict ScoreEntry :=
    [ (lit "linkedin",
       Scored (scorer (lit "linkedin") linkedin_text (Some (raw strategy))));
      (lit "instagram",
       Scored (scorer (lit "instagram") instagram_text
                 (Some (raw strategy))));
      (lit "email",
       Scored (scorer (lit "email") email_text (Some (raw strategy)))) ] in
  let st :=
    {| scores := scores; refinements := initial_refinements;
       refinements_made := [] |} in
  let refine platform :=
    maybe_refine lower is_word compensated
      (fun prompt => run_agent (client (Rewrite platform) stylist prompt))
      (Some (raw strategy)) in
  r1 <- refine (lit "linkedin") st (lit "linkedin") linkedin_text ;;
  r2 <- refine (lit "email") (snd r1) (lit "email") email_text ;;
  Some {| brief := user_brief;
          controller_plan := controller_plan;
          strategy_notes := strategy;
          base_draft := base_draft;
          linkedin := fst r1;
          instagram := instagram_text;
          email := fst r2;
          refine_state := snd r2 |}.

End Repurposer.

(** The intermediate values of [run_content_repurposer], named for the
    statements about it: the strategist's reply (line 166), the base draft
    after the guard of lines 195-199, and the stylist's first reply for one
    platform (lines 224, 239, 253). *)
Section RepurposerStages.

Variable client : call_site -> Agent -> str -> nat -> api_outcome.

Definition strategist_reply (user_brief : str) : str :=
  run_agent (client StrategyNotes create_brief_and_strategy_agent
               (strategist_prompt user_brief)).

Definition chosen_base_draft (user_brief : str) : str :=
  let d := run_agent (client BaseDraft create_master_draft_writer_agent
                        (draft_prompt user_brief
                           (strategist_reply user_brief))) in
  if is_empty d || startswith d (lit "[FALLBACK")
  then brief_based_draft user_brief else d.

Definition stylist_reply (site : call_site) (prompt : str -> str)
    (user_brief : str) : str :=
  run_agent (client site create_platform_stylist_agent
               (prompt (chosen_base_draft user_brief))).

(** The stylist's reply to a rewrite request for a platform (line 352). *)
Definition rewrite_reply (platform prompt : str) : str :=
  run_agent (client (Rewrite platform) create_platform_stylist_agent prompt).

End RepurposerStages.

(** ** The results file ([main.py], lines 35-80)

    The file is its list of rows, each a list of fields, or [None] while it
    does not exist; [csv.writer] appends a row and [csv.reader] gives the
    rows back. *)
Definition csv_file := option (list (list str)).

Definition CSV_HEADER : list str :=
  [ lit "test_case"; lit "linkedin"; lit "instagram"; lit "email";
    lit "timestamp" ].

(** [ensure_eval_csv_exists] (lines 35-41) *)
Definition ensure_eval_csv_exists (f : csv_file) : csv_file :=
  match f with
  | None => Some [CSV_HEADER]
  | Some _ => f
  end.

(** [str(n)] for an integer. *)
Definition str_of_int (z : Z) : str :=
  if (z <? 0)%Z then 0x2D%N :: decimal (Z.to_N (- z))
  else decimal (Z.to_N z).

Section Results.

(** [int(s)], with [None] for a raised [ValueError], and the format
    [f"{x:.2f}"] of a float. *)
Variable py_int : str -> option Z.
Variable format_2f : Q -> str.

(** [get_next_test_case_id] (lines 44-58): any exception gives 1. *)
Definition get_next_test_case_id (f : csv_file) : Z :=
  match f with
  | None => 1
  | Some reader =>
      if (length reader <=? 1)%nat then 1
      else
        let last_row := last reader [] in
        match last_row with
        | [] => 1
        | id :: _ =>
            match py_int id with
            | Some last_id => last_id + 1
            | None => 1
            end
        end
  end%Z.

Definition score_cell (s : option Q) : str :=
  match s with Some x => format_2f x | None => [] end.

(** [append_test_result] (lines 61-80), at the clock reading
    [timestamp]. *)
Definition append_test_result (f : csv_file) (test_case : Z)
    (linkedin_score instagram_score email_score : option Q)
    (timestamp : str) : csv_file :=
  match ensure_eval_csv_exists f with
  | Some rows =>
      Some (rows ++ [[ str_of_int test_case;
                       score_cell linkedin_score;
                       score_cell instagram_score;
                       score_cell email_score;
                       timestamp ]])
  | None => None
  end.

End Results.

Section Main.

Variable lower : str -> str.
Variable is_word : char -> bool.
Variable compensated : bool.
Variable client : call_site -> Agent -> str -> nat -> api_outcome.
Variable py_int : str -> option Z.
Variable format_2f : Q -> str.

(** [(run_state["scores"].get(p) or {}).get("score")] *)
Definition stored_score (rs : RunState) (p : str) : option Q :=
  match dict_get (scores (refine_state rs)) p with
  | Some entry => entry_score entry
  | None => None
  end.


End Main.

(** A pipeline state in which email scored 0.6. *)
Definition low_score_state : RefineState :=
  {| scores :=
       [ (lit "email",
          Scored {| platform := lit "email"; score := 0.6;
                    dimensions := []; summary_feedback := [] |}) ];
     refinements :=
       [ (lit "email", {| old := None; new := None; delta := fzero |}) ];
     refinements_made := [] |}.



(** * Properties *)

(** ** Strings *)

Lemma str_eqb_eq (a b : str) : str_eqb a b = true <-> a = b.
Proof.
  revert b; induction a as [|x a IH]; intros [|y b]; simpl;
    try (split; [discriminate | discriminate]); try tauto.
  rewrite andb_true_iff, N.eqb_eq, IH.
  split; [intros [-> ->]; reflexivity | intros E; injection E; auto].
Qed.

Lemma str_eqb_refl (a : str) : str_eqb a a = true.
Proof. apply str_eqb_eq; reflexivity. Qed.

Lemma str_eqb_neq (a b : str) : a <> b -> str_eqb a b = false.
Proof.
  intros H; destruct (str_eqb a b) eqn:E; [|reflexivity].
  apply str_eqb_eq in E; contradiction.
Qed.

Lemma is_empty_false (s : str) : s <> [] -> is_empty s = false.
Proof. destruct s; simpl; congruence. Qed.

Lemma linebreak_is_space (c : char) : is_linebreak c = true -> is_space c = true.
Proof.
  unfold is_linebreak, is_space; intros H.
  repeat rewrite orb_true_iff in *; repeat rewrite andb_true_iff in *.
  repeat rewrite N.leb_le in *; repeat rewrite N.eqb_eq in *. lia.
Qed.

Lemma LF_linebreak : is_linebreak LF = true.
Proof. reflexivity. Qed.

Lemma SP_space : is_space SP = true.
Proof. reflexivity. Qed.

(** [lstrip] and [rstrip] remove a run of whitespace at one end. *)
Lemma lstrip_split (s : str) :
  exists a, s = a ++ lstrip s /\ forallb is_space a = true.
Proof.
  induction s as [|c s [a [E Ha]]]; simpl.
  - exists []; auto.
  - destruct (is_space c) eqn:Hc.
    + exists (c :: a); simpl; rewrite Hc, Ha; split; [congruence | reflexivity].
    + exists []; auto.
Qed.

Lemma lstrip_head (s : str) c r : lstrip s = c :: r -> is_space c = false.
Proof.
  induction s as [|d s IH]; simpl; [discriminate|].
  destruct (is_space d) eqn:Hd; [exact IH|].
  intros E; injection E as -> _; exact Hd.
Qed.

Lemma rstrip_split (s : str) :
  exists a, s = rstrip s ++ a /\ forallb is_space a = true.
Proof.
  unfold rstrip. destruct (lstrip_split (rev s)) as [a [E Ha]].
  exists (rev a); split.
  - rewrite <- rev_app_distr, <- E, rev_involutive; reflexivity.
  - rewrite forallb_forall in *; intros x Hx; apply Ha, in_rev; exact Hx.
Qed.

Lemma rstrip_last (s : str) r c : rstrip s = r ++ [c] -> is_space c = false.
Proof.
  unfold rstrip; intros E.
  apply (f_equal (@rev char)) in E.
  rewrite rev_involutive, rev_app_distr in E; simpl in E.
  eapply lstrip_head; exact E.
Qed.

Lemma strip_split (s : str) :
  exists a b, s = a ++ strip s ++ b
              /\ forallb is_space a = true /\ forallb is_space b = true.
Proof.
  destruct (lstrip_split s) as [a [E Ha]].
  destruct (rstrip_split (lstrip s)) as [b [E' Hb]].
  exists a, b; split; [|split]; auto.
  unfold strip; rewrite <- E'; exact E.
Qed.

Lemma strip_last (s : str) r c : strip s = r ++ [c] -> is_space c = false.
Proof. apply rstrip_last. Qed.

(** ** Words *)

Lemma wordy_cons c w :
  is_space c = false ->
  forallb (fun c => negb (is_space c)) w = true -> wordy (c :: w).
Proof. intros Hc Hw; split; [discriminate | simpl; rewrite Hc, Hw; reflexivity]. Qed.

Lemma split_wordy (s : str) : Forall wordy (split s).
Proof.
  induction s as [|c s IH]; simpl; [constructor|].
  destruct (is_space c) eqn:Hc; [exact IH|].
  destruct s as [|d s'].
  - constructor; [apply wordy_cons; auto | constructor].
  - destruct (is_space d) eqn:Hd.
    + constructor; [apply wordy_cons; auto | exact IH].
    + destruct (split (d :: s')) as [|w ws]; simpl.
      * constructor; [apply wordy_cons; auto | constructor].
      * inversion IH as [|? ? [_ Hw] Hws]; subst.
        constructor; [apply wordy_cons; auto | exact Hws].
Qed.

Lemma split_spaces (a : str) : forallb is_space a = true -> split a = [].
Proof.
  induction a as [|c a IH]; simpl; [reflexivity|].
  rewrite andb_true_iff; intros [-> Ha]; auto.
Qed.

Lemma split_app_spaces (x a : str) :
  forallb is_space a = true -> split (x ++ a) = split x.
Proof.
  intros Ha; induction x as [|c x IH]; simpl.
  - apply split_spaces; exact Ha.
  - destruct (is_space c); [exact IH|].
    destruct x as [|d x']; simpl in *.
    + destruct a as [|e a']; [reflexivity|].
      simpl in Ha; apply andb_true_iff in Ha as [He Ha'].
      rewrite He. f_equal. change (split (e :: a') = []).
      apply split_spaces; simpl; rewrite He, Ha'; reflexivity.
    + destruct (is_space d); rewrite IH; reflexivity.
Qed.

Lemma split_lstrip (s : str) : split (lstrip s) = split s.
Proof.
  induction s as [|c s IH]; simpl; [reflexivity|].
  destruct (is_space c) eqn:Hc; [exact IH|].
  simpl; rewrite Hc; reflexivity.
Qed.

Lemma split_rstrip (s : str) : split (rstrip s) = split s.
Proof.
  destruct (rstrip_split s) as [a [E Ha]].
  rewrite E at 2. symmetry; apply split_app_spaces; exact Ha.
Qed.

Lemma split_strip (s : str) : split (strip s) = split s.
Proof. unfold strip; rewrite split_rstrip; apply split_lstrip. Qed.

Lemma collapse_ws_space d s :
  is_space d = true -> exists r, collapse_ws (d :: s) = SP :: r.
Proof.
  revert d; induction s as [|e s IH]; intros d Hd; simpl; rewrite Hd.
  - eexists; reflexivity.
  - destruct (is_space e) eqn:He.
    + destruct (IH e He) as [r Hr]. exists r.
      rewrite <- Hr; simpl; rewrite He; reflexivity.
    + eexists; reflexivity.
Qed.

Lemma split_collapse_ws (s : str) : split (collapse_ws s) = split s.
Proof.
  induction s as [|c s IH]; [reflexivity|].
  destruct (is_space c) eqn:Hc.
  - simpl; rewrite Hc. destruct s as [|d s']; [reflexivity|].
    destruct (is_space d) eqn:Hd; [exact IH|].
    rewrite <- IH; reflexivity.
  - destruct s as [|d s']; [simpl; rewrite Hc; simpl; rewrite Hc; reflexivity|].
    change (collapse_ws (c :: d :: s'))
      with (if is_space c then
              if is_space d then collapse_ws (d :: s')
              else SP :: collapse_ws (d :: s')
            else c :: collapse_ws (d :: s')).
    rewrite Hc.
    destruct (is_space d) eqn:Hd.
    + destruct (collapse_ws_space d s' Hd) as [r Hr].
      rewrite Hr in *.
      change (split (c :: SP :: r))
        with (if is_space c then split (SP :: r)
              else if is_space SP then [c] :: split (SP :: r)
                   else cons_first c (split (SP :: r))).
      rewrite Hc, SP_space, IH. simpl; rewrite Hc, Hd; reflexivity.
    + simpl collapse_ws in *; rewrite Hd in *.
      change (split (c :: d :: collapse_ws s'))
        with (if is_space c then split (d :: collapse_ws s')
              else if is_space d then [c] :: split (d :: collapse_ws s')
                   else cons_first c (split (d :: collapse_ws s'))).
      rewrite Hc, Hd, IH. simpl; rewrite Hc, Hd; reflexivity.
Qed.

(** Normalising whitespace keeps the words of a text. *)
Lemma split_normalize (s : str) : split (_normalize_whitespace s) = split s.
Proof.
  unfold _normalize_whitespace; destruct s as [|c s]; [reflexivity|].
  simpl is_empty; cbv iota. rewrite split_strip; apply split_collapse_ws.
Qed.

Lemma split_word_app (w rest : str) :
  wordy w ->
  (rest = [] \/ exists d r, rest = d :: r /\ is_space d = true) ->
  split (w ++ rest) = w :: split rest.
Proof.
  intros [Hne Hw] Hrest; induction w as [|c w IH]; [congruence|].
  simpl in Hw; apply andb_true_iff in Hw as [Hc Hw].
  apply negb_true_iff in Hc.
  destruct w as [|c' w'].
  - simpl; rewrite Hc.
    destruct Hrest as [-> | [d [r [-> Hd]]]]; [reflexivity|].
    rewrite Hd; reflexivity.
  - assert (Hc' : is_space c' = false).
    { simpl in Hw; apply andb_true_iff in Hw as [Hc' _].
      apply negb_true_iff in Hc'; exact Hc'. }
    change (split ((c :: c' :: w') ++ rest))
      with (if is_space c then split ((c' :: w') ++ rest)
            else if is_space c' then [c] :: split ((c' :: w') ++ rest)
                 else cons_first c (split ((c' :: w') ++ rest))).
    rewrite Hc, Hc', IH; [reflexivity | discriminate | exact Hw].
Qed.

(** Joining words with one space and splitting again gives the words. *)
Lemma split_join (ws : list str) :
  Forall wordy ws -> split (join [SP] ws) = ws.
Proof.
  induction 1 as [|w ws Hw Hws IH]; [reflexivity|].
  destruct ws as [|w2 ws'].
  - simpl. rewrite <- (app_nil_r w) at 1.
    rewrite split_word_app; auto.
  - change (join [SP] (w :: w2 :: ws'))
      with (w ++ [SP] ++ join [SP] (w2 :: ws')).
    rewrite split_word_app; auto.
    + f_equal. transitivity (split (join [SP] (w2 :: ws'))); [reflexivity | exact IH].
    + right; eexists _, _; split; [reflexivity | apply SP_space].
Qed.

Lemma Forall_firstn {A : Type} (P : A -> Prop) n (l : list A) :
  Forall P l -> Forall P (firstn n l).
Proof.
  intros H; revert n; induction H; intros [|n]; simpl; constructor; auto.
Qed.

(** ** Normalised text *)

Lemma nonempty_last (s : str) : s <> [] -> exists r c, s = r ++ [c].
Proof.
  intros H; destruct (exists_last H) as [r [c E]]; eauto.
Qed.

Lemma join_cons_first c (ws : list str) :
  ws <> [] -> join [SP] (cons_first c ws) = c :: join [SP] ws.
Proof.
  destruct ws as [|w [|w2 ws']]; [congruence | reflexivity | reflexivity].
Qed.

Lemma split_head_nonspace d (s : str) :
  is_space d = false -> split (d :: s) <> [].
Proof.
  intros Hd; simpl; rewrite Hd.
  destruct s as [|e s']; [discriminate|].
  destruct (is_space e); [discriminate|].
  destruct (split (e :: s')); discriminate.
Qed.

(** [collapse_ws] keeps the words, one space between two of them, and at
    most one space at each end. *)
Lemma collapse_ws_join (s : str) :
  collapse_ws s = leading_space s ++ join [SP] (split s) ++ trailing_space s.
Proof.
  induction s as [|c s IH]; [reflexivity|].
  destruct s as [|d s'].
  - unfold trailing_space; simpl. destruct (is_space c); reflexivity.
  - assert (Ht : trailing_space (c :: d :: s')
                 = if is_space (last (d :: s') SP)
                      && negb (match split (c :: d :: s') with
                               | [] => true | _ => false end)
                   then [SP] else []) by reflexivity.
    assert (Ht' : trailing_space (d :: s')
                  = if is_space (last (d :: s') SP)
                       && negb (match split (d :: s') with
                                | [] => true | _ => false end)
                    then [SP] else []) by reflexivity.
    change (collapse_ws (c :: d :: s'))
      with (if is_space c then
              if is_space d then collapse_ws (d :: s')
              else SP :: collapse_ws (d :: s')
            else c :: collapse_ws (d :: s')).
    change (split (c :: d :: s'))
      with (if is_space c then split (d :: s')
            else if is_space d then [c] :: split (d :: s')
                 else cons_first c (split (d :: s'))) in *.
    change (leading_space (c :: d :: s'))
      with (if is_space c then [SP] else []).
    change (leading_space (d :: s'))
      with (if is_space d then [SP] else []) in IH.
    rewrite Ht; rewrite Ht' in IH; clear Ht Ht'.
    destruct (is_space c) eqn:Hc, (is_space d) eqn:Hd; rewrite IH.
    + reflexivity.
    + reflexivity.
    + destruct (split (d :: s')) as [|w ws] eqn:Es.
      * rewrite andb_false_r.
        assert (Hl : is_space (last (d :: s') SP) = true).
        { clear IH. revert d Hd Es; induction s' as [|e s'' IH']; intros d Hd Es;
            [exact Hd|].
          change (last (d :: e :: s'') SP) with (last (e :: s'') SP).
          simpl in Es; rewrite Hd in Es.
          destruct (is_space e) eqn:He.
          - apply IH'; [exact He|]. simpl; rewrite He; exact Es.
          - exfalso. apply (split_head_nonspace e s'' He).
            simpl; rewrite He; exact Es. }
        rewrite Hl; reflexivity.
      * simpl negb. rewrite !andb_true_r.
        change (join [SP] ([c] :: w :: ws)) with ([c] ++ [SP] ++ join [SP] (w :: ws)).
        reflexivity.
    + pose proof (split_head_nonspace d s' Hd) as Hne.
      rewrite join_cons_first by exact Hne.
      destruct (split (d :: s')) as [|w ws]; [congruence|].
      reflexivity.
Qed.

Lemma lstrip_spaces_app (a x : str) :
  forallb is_space a = true -> lstrip (a ++ x) = lstrip x.
Proof.
  induction a as [|c a IH]; simpl; [reflexivity|].
  rewrite andb_true_iff; intros [-> Ha]; auto.
Qed.

Lemma leading_space_spaces (s : str) : forallb is_space (leading_space s) = true.
Proof. destruct s as [|c s]; simpl; [reflexivity|]. destruct (is_space c); reflexivity. Qed.

Lemma trailing_space_spaces (s : str) : forallb is_space (trailing_space s) = true.
Proof.
  unfold trailing_space; destruct s as [|c s]; [reflexivity|].
  destruct (_ && _); reflexivity.
Qed.

(** Joined words start and end with a code point that is not whitespace. *)
Lemma join_words_ends (ws : list str) :
  Forall wordy ws -> ws <> [] ->
  (exists c x, join [SP] ws = c :: x /\ is_space c = false)
  /\ (exists y c, join [SP] ws = y ++ [c] /\ is_space c = false).
Proof.
  induction 1 as [|w ws [Hne Hw] Hws IH]; [congruence|]; intros _.
  assert (Hhead : exists c x, w = c :: x /\ is_space c = false).
  { destruct w as [|c x]; [congruence|]. exists c, x; split; [reflexivity|].
    simpl in Hw; apply andb_true_iff in Hw as [Hc _].
    apply negb_true_iff; exact Hc. }
  assert (Hlast : exists y c, w = y ++ [c] /\ is_space c = false).
  { destruct (nonempty_last w Hne) as [y [c E]]. exists y, c; split; [exact E|].
    rewrite E, forallb_app in Hw; apply andb_true_iff in Hw as [_ Hc].
    simpl in Hc; rewrite andb_true_r in Hc; apply negb_true_iff; exact Hc. }
  destruct ws as [|w2 ws'].
  - simpl; split; assumption.
  - change (join [SP] (w :: w2 :: ws')) with (w ++ [SP] ++ join [SP] (w2 :: ws')).
    destruct IH as [_ [y [c [E Hc]]]]; [discriminate|].
    split.
    + destruct Hhead as [c0 [x [-> Hc0]]]. eexists _, _; split; [reflexivity | exact Hc0].
    + exists (w ++ [SP] ++ y), c; split; [|exact Hc].
      rewrite E, <- !app_assoc; reflexivity.
Qed.

Lemma strip_padded (a x b : str) :
  forallb is_space a = true -> forallb is_space b = true ->
  (x = [] \/ ((exists c r, x = c :: r /\ is_space c = false)
              /\ (exists r c, x = r ++ [c] /\ is_space c = false))) ->
  strip (a ++ x ++ b) = x.
Proof.
  intros Ha Hb Hx; unfold strip; rewrite lstrip_spaces_app by exact Ha.
  assert (Hrb : forallb is_space (rev b) = true).
  { rewrite forallb_forall in *; intros c Hc; apply Hb, in_rev; exact Hc. }
  destruct Hx as [-> | [[c [r [E Hc]]] [r' [c' [E' Hc']]]]].
  - simpl. rewrite <- (app_nil_r b), lstrip_spaces_app by exact Hb.
    reflexivity.
  - assert (El : lstrip (x ++ b) = x ++ b)
      by (rewrite E; simpl; rewrite Hc; reflexivity).
    rewrite El; unfold rstrip.
    rewrite rev_app_distr, lstrip_spaces_app by exact Hrb.
    rewrite E', rev_app_distr; simpl; rewrite Hc'.
    change (c' :: rev r') with ([c'] ++ rev r').
    rewrite rev_app_distr, rev_involutive; reflexivity.
Qed.

(** The normalised text is the words of the text joined by single
    spaces. *)
Lemma normalize_join (s : str) :
  _normalize_whitespace s = join [SP] (split s).
Proof.
  unfold _normalize_whitespace; destruct s as [|c s]; [reflexivity|].
  simpl is_empty; cbv iota. rewrite collapse_ws_join.
  apply strip_padded;
    [apply leading_space_spaces | apply trailing_space_spaces |].
  destruct (split (c :: s)) as [|w ws] eqn:E; [left; reflexivity|].
  right; apply join_words_ends; [|discriminate].
  rewrite <- E; apply split_wordy.
Qed.

(** ** The formatter, branch by branch *)

Section FormatterFacts.

Variable lower : str -> str.

Lemma format_unknown platform text hashtags :
  dict_mem PLATFORM_CONFIG (lower platform) = false ->
  platform_formatting_tool lower platform text hashtags
  = Some (Warned (lower platform) (_normalize_whitespace text)
            (lit "Unknown platform; no specific formatting applied.")).
Proof.
  intros H; unfold platform_formatting_tool; rewrite H; reflexivity.
Qed.

Lemma format_empty platform text hashtags :
  dict_mem PLATFORM_CONFIG (lower platform) = true ->
  strip text = [] ->
  platform_formatting_tool lower platform text hashtags
  = Some (Warned (lower platform)
            (lit "[EMPTY CONTENT] No text was provided to format.")
            (lit "Input text was empty.")).
Proof.
  intros H E; unfold platform_formatting_tool; rewrite H, E; reflexivity.
Qed.

Lemma format_linkedin platform text hashtags :
  lower platform = lit "linkedin" ->
  strip text <> [] ->
  platform_formatting_tool lower platform text hashtags
  = let formatted := _normalize_whitespace (strip text) in
    let words := split formatted in
    let len_words := N.of_nat (length words) in
    if (220 <? len_words)%N then
      Some (WordLimited (lit "linkedin") (join [SP] (firstn 220 words))
              (Some (lit "Trimmed LinkedIn post to 220 words.")))
    else if (len_words <? 80)%N then
      Some (WordLimited (lit "linkedin") formatted
              (Some (lit "LinkedIn post is quite short (" ++ decimal len_words
                       ++ lit " words).")))
    else Some (WordLimited (lit "linkedin") formatted None).
Proof.
  intros H Hne; unfold platform_formatting_tool.
  rewrite H, (is_empty_false _ Hne); reflexivity.
Qed.

Lemma format_email platform text hashtags :
  lower platform = lit "email" ->
  strip text <> [] ->
  platform_formatting_tool lower platform text hashtags
  = let formatted := _normalize_whitespace (strip text) in
    let words := split formatted in
    let len_words := N.of_nat (length words) in
    if (160 <? len_words)%N then
      Some (WordLimited (lit "email") (join [SP] (firstn 160 words))
              (Some (lit "Trimmed email blurb to 160 words.")))
    else if (len_words <? 40)%N then
      Some (WordLimited (lit "email") formatted
              (Some (lit "Email blurb is quite short (" ++ decimal len_words
                       ++ lit " words).")))
    else Some (WordLimited (lit "email") formatted None).
Proof.
  intros H Hne; unfold platform_formatting_tool.
  rewrite H, (is_empty_false _ Hne); reflexivity.
Qed.

Lemma format_instagram platform text hashtags :
  lower platform = lit "instagram" ->
  strip text <> [] ->
  platform_formatting_tool lower platform text hashtags
  = let lines := splitlines (strip text) in
    let caption :=
      if (10 <? N.of_nat (length lines))%N
      then join [LF] (firstn 10 lines) else strip text in
    let caption :=
      if (2200 <? N.of_nat (length caption))%N
      then firstn 2200 caption else caption in
    let block := hashtag_block lower hashtags in
    Some (InstagramPost (lit "instagram")
            (if negb (is_empty block) then caption ++ [LF; LF] ++ block
             else caption)
            caption block).
Proof.
  intros H Hne; unfold platform_formatting_tool.
  rewrite H, (is_empty_false _ Hne); reflexivity.
Qed.

(** The words of a word-limited output: the first [max_w] words of the
    input when the input has more, all of them otherwise. *)
Lemma trimmed_words (text : str) (max_w : nat) :
  split (join [SP] (firstn max_w (split text))) = firstn max_w (split text).
Proof. apply split_join, Forall_firstn, split_wordy. Qed.

End FormatterFacts.

(** ** Lines *)

Lemma newline_lines_firstn (k : nat) (s : str) :
  (newline_lines (firstn k s) <= newline_lines s)%nat.
Proof.
  unfold newline_lines; apply le_n_S.
  revert k; induction s as [|c s IH]; intros [|k]; simpl; try lia.
  specialize (IH k); destruct (N.eq_dec c LF); lia.
Qed.

Lemma splitlines_LF (t : str) : splitlines (LF :: t) = [] :: splitlines t.
Proof. destruct t; reflexivity. Qed.

Lemma not_linebreak_not_LF (c : char) : is_linebreak c = false -> c <> LF.
Proof. intros H ->; rewrite LF_linebreak in H; discriminate. Qed.

(** No line returned by [splitlines] holds a line feed. *)
Lemma splitlines_no_LF (s : str) : Forall (fun l => ~ In LF l) (splitlines s).
Proof.
  induction s as [|c s IH]; simpl; [constructor|].
  destruct (is_linebreak c) eqn:Hc.
  - destruct s as [|d s']; [repeat constructor; auto|].
    destruct ((c =? CR)%N && (d =? LF)%N) eqn:E.
    + apply andb_true_iff in E as [_ Ed]; apply N.eqb_eq in Ed; subst d.
      rewrite splitlines_LF in IH; exact IH.
    + constructor; [auto | exact IH].
  - apply not_linebreak_not_LF in Hc.
    destruct s as [|d s'].
    + repeat constructor; simpl; intuition congruence.
    + destruct (splitlines (d :: s')) as [|l r]; simpl.
      * repeat constructor; simpl; intuition congruence.
      * inversion IH; subst; constructor; auto.
        simpl; intuition congruence.
Qed.

Lemma count_LF_app (a b : str) :
  count_occ N.eq_dec (a ++ b) LF
  = (count_occ N.eq_dec a LF + count_occ N.eq_dec b LF)%nat.
Proof. apply count_occ_app. Qed.

Lemma count_LF_join (ls : list str) :
  Forall (fun l => ~ In LF l) ls ->
  count_occ N.eq_dec (join [LF] ls) LF = pred (length ls).
Proof.
  induction 1 as [|l ls Hl Hls IH]; [reflexivity|].
  destruct ls as [|l2 ls'].
  - simpl. apply count_occ_not_In; exact Hl.
  - change (join [LF] (l :: l2 :: ls')) with (l ++ [LF] ++ join [LF] (l2 :: ls')).
    rewrite !count_LF_app, IH.
    rewrite (proj1 (count_occ_not_In N.eq_dec l LF) Hl). reflexivity.
Qed.

Lemma length_cons_first c (ls : list str) :
  (length ls <= length (cons_first c ls))%nat.
Proof. destruct ls; simpl; lia. Qed.

(** A text that does not end in a line boundary has at least as many
    [splitlines] lines as newline-delimited lines. *)
Lemma newline_lines_splitlines (s : str) :
  is_linebreak (last s LF) = false ->
  (newline_lines s <= length (splitlines s))%nat.
Proof.
  unfold newline_lines.
  induction s as [|c s IH]; [simpl; rewrite LF_linebreak; discriminate|].
  intros Hlast.
  destruct s as [|d s'].
  - simpl in Hlast. simpl. rewrite Hlast.
    destruct (N.eq_dec c LF) as [->|_]; [rewrite LF_linebreak in Hlast; discriminate|].
    simpl; lia.
  - change (last (c :: d :: s') LF) with (last (d :: s') LF) in Hlast.
    specialize (IH Hlast).
    change (splitlines (c :: d :: s'))
      with (if is_linebreak c then
              if (c =? CR)%N && (d =? LF)%N then [] :: splitlines s'
              else [] :: splitlines (d :: s')
            else cons_first c (splitlines (d :: s'))).
    change (count_occ N.eq_dec (c :: d :: s') LF)
      with (if N.eq_dec c LF then S (count_occ N.eq_dec (d :: s') LF)
            else count_occ N.eq_dec (d :: s') LF).
    destruct (is_linebreak c) eqn:Hc.
    + destruct ((c =? CR)%N && (d =? LF)%N) eqn:E.
      * apply andb_true_iff in E as [Ec Ed].
        apply N.eqb_eq in Ec, Ed; subst c d.
        rewrite splitlines_LF in IH.
        destruct (N.eq_dec CR LF) as [E|_]; [discriminate E|].
        simpl in *. destruct (N.eq_dec LF LF); [lia | congruence].
      * destruct (N.eq_dec c LF); cbn [length]; lia.
    + pose proof (length_cons_first c (splitlines (d :: s'))).
      destruct (N.eq_dec c LF) as [->|_]; [rewrite LF_linebreak in Hc; discriminate|].
      lia.
Qed.


(** Every line returned by [splitlines] is free of line boundaries. *)
Lemma splitlines_breakfree (s : str) :
  Forall (Forall (fun c => is_linebreak c = false)) (splitlines s).
Proof.
  induction s as [|c s IH]; simpl; [constructor|].
  destruct (is_linebreak c) eqn:Hc.
  - destruct s as [|d s']; [repeat constructor|].
    destruct ((c =? CR)%N && (d =? LF)%N) eqn:E.
    + apply andb_true_iff in E as [_ Ed]; apply N.eqb_eq in Ed; subst d.
      rewrite splitlines_LF in IH; exact IH.
    + constructor; [constructor | exact IH].
  - destruct s as [|d s']; [repeat constructor; exact Hc|].
    destruct (splitlines (d :: s')) as [|l r]; simpl.
    + repeat constructor; exact Hc.
    + inversion IH; subst; constructor; [constructor|]; assumption.
Qed.

Lemma splitlines_line_app (l t : str) :
  Forall (fun c => is_linebreak c = false) l ->
  splitlines (l ++ LF :: t) = l :: splitlines t.
Proof.
  induction 1 as [|c l Hc Hl IH]; [apply splitlines_LF|].
  change (splitlines ((c :: l) ++ LF :: t))
    with (if is_linebreak c then
            match l ++ LF :: t with
            | d :: s'' => if (c =? CR)%N && (d =? LF)%N
                          then [] :: splitlines s''
                          else [] :: splitlines (l ++ LF :: t)
            | [] => [[]]
            end
          else match l ++ LF :: t with
               | [] => [[c]]
               | _ :: _ => cons_first c (splitlines (l ++ LF :: t))
               end).
  rewrite Hc, IH. destruct l; reflexivity.
Qed.

Lemma splitlines_line (l : str) :
  Forall (fun c => is_linebreak c = false) l ->
  (length (splitlines l) <= 1)%nat.
Proof.
  induction 1 as [|c l Hc Hl IH]; simpl; [lia|].
  rewrite Hc. destruct l as [|d l']; [simpl; lia|].
  destruct (splitlines (d :: l')) as [|x [|y r]]; simpl in *; lia.
Qed.

(** Joining lines with line feeds gives a text of no more lines. *)
Lemma splitlines_join (ls : list str) :
  Forall (Forall (fun c => is_linebreak c = false)) ls ->
  (length (splitlines (join [LF] ls)) <= length ls)%nat.
Proof.
  induction 1 as [|l ls Hl Hls IH]; [simpl; lia|].
  destruct ls as [|l2 ls'].
  - simpl join. pose proof (splitlines_line l Hl). simpl; lia.
  - change (join [LF] (l :: l2 :: ls')) with (l ++ LF :: join [LF] (l2 :: ls')).
    rewrite splitlines_line_app by exact Hl.
    simpl length in *; lia.
Qed.

Lemma splitlines_nonempty c (s : str) : splitlines (c :: s) <> [].
Proof.
  simpl. destruct (is_linebreak c).
  - destruct s as [|d s']; [discriminate|].
    destruct ((c =? CR)%N && (d =? LF)%N); discriminate.
  - destruct s as [|d s']; [discriminate|].
    destruct (splitlines (d :: s')); discriminate.
Qed.

(** Cutting a text short gives a text of no more lines. *)
Lemma splitlines_firstn (k : nat) (s : str) :
  (length (splitlines (firstn k s)) <= length (splitlines s))%nat.
Proof.
  revert k; induction s as [|c s IH]; intros [|k]; try (simpl; lia).
  assert (Hpos : (1 <= length (splitlines (c :: s)))%nat).
  { pose proof (splitlines_nonempty c s).
    destruct (splitlines (c :: s)); [congruence | simpl; lia]. }
  destruct s as [|d s']; [destruct k; simpl; lia|].
  destruct k as [|k].
  { change (firstn 1 (c :: d :: s')) with [c].
    assert (H1 : length (splitlines [c]) = 1%nat)
      by (simpl; destruct (is_linebreak c); reflexivity).
    rewrite H1; exact Hpos. }
  specialize (IH (S k)).
  change (firstn (S (S k)) (c :: d :: s')) with (c :: d :: firstn k s') in *.
  change (firstn (S k) (d :: s')) with (d :: firstn k s') in IH.
  change (splitlines (c :: d :: firstn k s'))
    with (if is_linebreak c then
            if (c =? CR)%N && (d =? LF)%N then [] :: splitlines (firstn k s')
            else [] :: splitlines (d :: firstn k s')
          else cons_first c (splitlines (d :: firstn k s'))).
  change (splitlines (c :: d :: s'))
    with (if is_linebreak c then
            if (c =? CR)%N && (d =? LF)%N then [] :: splitlines s'
            else [] :: splitlines (d :: s')
          else cons_first c (splitlines (d :: s'))).
  destruct (is_linebreak c).
  - destruct ((c =? CR)%N && (d =? LF)%N) eqn:E.
    + apply andb_true_iff in E as [_ Ed]; apply N.eqb_eq in Ed; subst d.
      rewrite !splitlines_LF in IH. cbn [length] in *; lia.
    + cbn [length]; lia.
  - destruct (splitlines (d :: firstn k s')), (splitlines (d :: s'));
      cbn [length cons_first] in *; lia.
Qed.

(** The caption the Instagram branch computes from a trimmed text. *)
Lemma caption_limits (t : str) :
  is_linebreak (last t LF) = false ->
  let lines := splitlines t in
  let caption :=
    if (10 <? N.of_nat (length lines))%N
    then join [LF] (firstn 10 lines) else t in
  let caption :=
    if (2200 <? N.of_nat (length caption))%N
    then firstn 2200 caption else caption in
  (newline_lines caption <= 10 /\ length (splitlines caption) <= 10
   /\ length caption <= 2200)%nat.
Proof.
  intros Hlast lines caption0 caption.
  assert (H0 : (newline_lines caption0 <= 10
                /\ length (splitlines caption0) <= 10)%nat).
  { subst caption0. destruct (10 <? N.of_nat (length lines))%N eqn:E.
    - split.
      + unfold newline_lines. rewrite count_LF_join.
        * rewrite length_firstn. lia.
        * apply Forall_firstn, splitlines_no_LF.
      + pose proof (splitlines_join (firstn 10 lines)
                      (Forall_firstn _ 10 _ (splitlines_breakfree t))) as H.
        rewrite length_firstn in H. lia.
    - apply N.ltb_ge in E.
      pose proof (newline_lines_splitlines t Hlast). unfold lines in *. lia. }
  destruct H0 as [H0 H1].
  subst caption. destruct (2200 <? N.of_nat (length caption0))%N eqn:E.
  - split; [|split].
    + pose proof (newline_lines_firstn 2200 caption0); lia.
    + pose proof (splitlines_firstn 2200 caption0); lia.
    + rewrite length_firstn; lia.
  - apply N.ltb_ge in E; split; [exact H0 | split; [exact H1 | lia]].
Qed.

Section HashtagFacts.

Variable lower : str -> str.

Lemma cleaned_tags_spec (hashtags : list str) :
  cleaned_tags hashtags
  = map with_hash (filter (fun t => negb (is_empty t)) (map strip hashtags)).
Proof.
  induction hashtags as [|tag rest IH]; simpl; [reflexivity|].
  destruct (is_empty (strip tag)); simpl; rewrite IH; reflexivity.
Qed.

Lemma deduped_first_seen (seen earlier tags : list str) :
  (forall k, set_mem seen k = existsb (fun u => str_eqb k (lower u)) earlier) ->
  deduped_tags lower seen tags = first_seen_from lower earlier tags.
Proof.
  revert seen earlier; induction tags as [|t rest IH]; intros seen earlier I;
    simpl; [reflexivity|].
  rewrite <- I. destruct (set_mem seen (lower t)) eqn:Hs.
  - apply IH; intros k. rewrite existsb_app, <- I; simpl.
    destruct (str_eqb k (lower t)) eqn:E; rewrite ?orb_false_r; auto.
    apply str_eqb_eq in E; subst k. rewrite Hs; reflexivity.
  - f_equal; apply IH; intros k. rewrite existsb_app, <- I; simpl.
    rewrite orb_false_r; apply orb_comm.
Qed.

Lemma set_mem_In (seen : list str) (k : str) :
  set_mem seen k = true <-> In k seen.
Proof.
  unfold set_mem; rewrite existsb_exists; split.
  - intros [x [Hx E]]; apply str_eqb_eq in E; subst; exact Hx.
  - intros H; exists k; split; [exact H | apply str_eqb_refl].
Qed.

Lemma deduped_fresh (seen tags : list str) :
  NoDup (map lower (deduped_tags lower seen tags))
  /\ forall t, In t (deduped_tags lower seen tags) -> ~ In (lower t) seen.
Proof.
  revert seen; induction tags as [|t rest IH]; intros seen; simpl.
  - split; [constructor | intros ? []].
  - destruct (set_mem seen (lower t)) eqn:Hs; [apply IH|].
    destruct (IH (lower t :: seen)) as [Hnd Hfresh].
    split.
    + simpl; constructor; [|exact Hnd].
      rewrite in_map_iff; intros [u [E Hu]].
      apply (Hfresh u Hu); left; symmetry; exact E.
    + intros u [<- | Hu].
      * intros Hin; apply set_mem_In in Hin; congruence.
      * intros Hin; apply (Hfresh u Hu); right; exact Hin.
Qed.

Lemma deduped_incl (seen tags : list str) :
  incl (deduped_tags lower seen tags) tags.
Proof.
  revert seen; induction tags as [|t rest IH]; intros seen; simpl.
  - intros ? [].
  - destruct (set_mem seen (lower t)).
    + intros u Hu; right; exact (IH _ u Hu).
    + intros u [<- | Hu]; [left; reflexivity | right; exact (IH _ u Hu)].
Qed.

End HashtagFacts.

Lemma config_platforms (p : str) :
  dict_mem PLATFORM_CONFIG p = true ->
  p = lit "linkedin" \/ p = lit "instagram" \/ p = lit "email".
Proof.
  unfold dict_mem, PLATFORM_CONFIG; cbn [dict_get].
  destruct (str_eqb p (lit "linkedin")) eqn:E1;
    [left; apply str_eqb_eq; exact E1|].
  destruct (str_eqb p (lit "instagram")) eqn:E2;
    [right; left; apply str_eqb_eq; exact E2|].
  destruct (str_eqb p (lit "email")) eqn:E3;
    [right; right; apply str_eqb_eq; exact E3|].
  discriminate.
Qed.

Lemma config_unknown (p : str) :
  p <> lit "linkedin" -> p <> lit "instagram" -> p <> lit "email" ->
  dict_mem PLATFORM_CONFIG p = false.
Proof.
  intros H1 H2 H3; destruct (dict_mem PLATFORM_CONFIG p) eqn:E; [|reflexivity].
  apply config_platforms in E; tauto.
Qed.

(** The formatter returns on every input. *)
Lemma format_total (lower : str -> str) platform text hashtags :
  exists r, platform_formatting_tool lower platform text hashtags = Some r.
Proof.
  destruct (dict_mem PLATFORM_CONFIG (lower platform)) eqn:Hm.
  - destruct (strip text) as [|c t] eqn:Hs.
    + rewrite format_empty by assumption; eauto.
    + assert (Hne : strip text <> []) by (rewrite Hs; discriminate).
      destruct (config_platforms _ Hm) as [H | [H | H]].
      * rewrite format_linkedin by assumption; cbv zeta.
        repeat match goal with |- context [if ?b then _ else _] =>
          destruct b end; eauto.
      * rewrite format_instagram by assumption; eauto.
      * rewrite format_email by assumption; cbv zeta.
        repeat match goal with |- context [if ?b then _ else _] =>
          destruct b end; eauto.
  - rewrite format_unknown by assumption; eauto.
Qed.

(** ** Rounding to hundredths *)

Lemma hundredths (z : Z) : z # 100 == inject_Z z * (1 # 100).
Proof. unfold Qeq; simpl; lia. Qed.

Lemma round_half_even_close (x : Q) :
  Qabs (inject_Z (round_half_even x) - x) <= 1 # 2.
Proof.
  pose proof (Qfloor_le x) as Hlo.
  pose proof (Qlt_floor x) as Hhi.
  rewrite inject_Z_plus in Hhi. change (inject_Z 1) with 1 in Hhi.
  apply Qabs_Qle_condition. unfold round_half_even; cbv zeta.
  destruct (Qcompare (x - inject_Z (Qfloor x)) (1 # 2)) eqn:E.
  - apply Qeq_alt in E.
    destruct (Z.even (Qfloor x)); try rewrite inject_Z_plus;
      change (inject_Z 1) with 1;
      set (f := inject_Z (Qfloor x)) in *; clearbody f; split; lra.
  - apply Qlt_alt in E.
    set (f := inject_Z (Qfloor x)) in *; clearbody f; split; lra.
  - apply Qgt_alt in E. rewrite inject_Z_plus. change (inject_Z 1) with 1.
    set (f := inject_Z (Qfloor x)) in *; clearbody f; split; lra.
Qed.

(** [round(x, 2)] is within half a hundredth of the value of [x]. *)
Lemma round2_close (x : float) :
  Qabs (round2 x - float_value x) <= 1 # 200.
Proof.
  unfold round2.
  pose proof (round_half_even_close (float_value x * 100)) as H.
  apply Qabs_Qle_condition in H. apply Qabs_Qle_condition.
  rewrite hundredths.
  set (k := inject_Z (round_half_even (float_value x * 100))) in *.
  clearbody k. set (v := float_value x) in *. clearbody v.
  split; lra.
Qed.

(** ** The scorer *)

Ltac split_ifs :=
  repeat match goal with
         | |- context [if ?b then _ else _] => destruct b
         end.

Ltac in_cases H :=
  repeat (destruct H as [<- | H]); try contradiction.

Section ScorerFacts.

Variable lower : str -> str.
Variable is_word : char -> bool.
Variable compensated : bool.

Local Abbreviation scorer := (quality_and_reach_scorer lower is_word compensated).

Lemma scorer_empty platform text strategy :
  strip text = [] ->
  scorer platform text strategy
  = {| platform := lower platform; score := 0; dimensions := [];
       summary_feedback := lit "No text to evaluate." |}.
Proof.
  intros E; unfold quality_and_reach_scorer; rewrite E; reflexivity.
Qed.

Lemma scorer_dimensions platform text strategy :
  strip text <> [] ->
  dimensions (scorer platform text strategy)
  = dimension_table
      (clarity (strip text) (split (_normalize_whitespace (strip text))))
      (length_appropriateness (lower platform)
         (length (split (_normalize_whitespace (strip text)))))
      (hook_strength lower (strip text))
      (cta_quality lower (strip text))
      (hashtag_richness is_word (lower platform) (strip text)).
Proof.
  intros Hne; unfold quality_and_reach_scorer.
  rewrite (is_empty_false _ Hne); reflexivity.
Qed.

Lemma scorer_score platform text strategy :
  strip text <> [] ->
  score (scorer platform text strategy)
  = round2
      (mean compensated
         (numeric_values (dimensions (scorer platform text strategy)))).
Proof.
  intros Hne; unfold quality_and_reach_scorer.
  rewrite (is_empty_false _ Hne); reflexivity.
Qed.

Lemma clarity_cases text words : In (clarity text words) [0.3; 0.6; 0.8].
Proof. unfold clarity; split_ifs; simpl; auto. Qed.

Lemma length_cases p n : In (length_appropriateness p n) [0.5; 0.6; 0.9; 0.8].
Proof. unfold length_appropriateness; cbv zeta; split_ifs; simpl; auto. Qed.

Lemma hook_cases text : In (hook_strength lower text) [0.7; 0.85; 0.8].
Proof.
  unfold hook_strength; cbv zeta; split_ifs;
    match goal with |- In ?x _ =>
      let v := eval vm_compute in x in change x with v end;
    simpl; auto.
Qed.

Lemma cta_cases text : In (cta_quality lower text) [0.6; 0.9].
Proof. unfold cta_quality; cbv zeta; split_ifs; simpl; auto. Qed.

Lemma hashtag_cases p text :
  In (hashtag_richness is_word p text) [None; Some 0.4; Some 0.9; Some 0.7].
Proof. unfold hashtag_richness; cbv zeta; split_ifs; simpl; auto. Qed.


Lemma hashtag_other p text :
  p <> lit "instagram" -> hashtag_richness is_word p text = None.
Proof.
  intros H; unfold hashtag_richness; rewrite (str_eqb_neq _ _ H); reflexivity.
Qed.

End ScorerFacts.

(** The exact mean of any mapping the scorer can build is between 0.55
    and 0.86. *)
Lemma exact_mean_bound (c l h q : Q) (hr : option Q) :
  In c [0.3; 0.6; 0.8] -> In l [0.5; 0.6; 0.9; 0.8] ->
  In h [0.7; 0.85; 0.8] -> In q [0.6; 0.9] ->
  In hr [None; Some 0.4; Some 0.9; Some 0.7] ->
  0.55 <= exact_mean (numeric_values (dimension_table c l h q hr))
  /\ exact_mean (numeric_values (dimension_table c l h q hr)) <= 0.86.
Proof.
  intros Hc Hl Hh Hq Hr.
  in_cases Hc; in_cases Hl; in_cases Hh; in_cases Hq; in_cases Hr;
    split; apply Qle_bool_imp_le; vm_compute; reflexivity.
Qed.

(** No dimension is above 0.9. *)
Lemma values_bound (c l h q : Q) (hr : option Q) :
  In c [0.3; 0.6; 0.8] -> In l [0.5; 0.6; 0.9; 0.8] ->
  In h [0.7; 0.85; 0.8] -> In q [0.6; 0.9] ->
  In hr [None; Some 0.4; Some 0.9; Some 0.7] ->
  Forall (fun v => v <= 0.9) (numeric_values (dimension_table c l h q hr)).
Proof.
  intros Hc Hl Hh Hq Hr.
  in_cases Hc; in_cases Hl; in_cases Hh; in_cases Hq; in_cases Hr;
    repeat constructor; apply Qle_bool_imp_le; reflexivity.
Qed.

(** A check that passes on [every_dimension_table] holds of each mapping. *)
Lemma every_dimension_table_spec
    (check : bool -> Q -> Q -> Q -> Q -> option Q -> bool) :
  every_dimension_table check = true ->
  forall (b : bool) (c l h q : Q) (hr : option Q),
    In c [0.3; 0.6; 0.8] -> In l [0.5; 0.6; 0.9; 0.8] ->
    In h [0.7; 0.85; 0.8] -> In q [0.6; 0.9] ->
    In hr [None; Some 0.4; Some 0.9; Some 0.7] ->
    check b c l h q hr = true.
Proof.
  intros H b c l h q hr Hc Hl Hh Hq Hr.
  unfold every_dimension_table in H.
  assert (Hb : In b [true; false]) by (destruct b; simpl; auto).
  rewrite forallb_forall in H; specialize (H b Hb).
  rewrite forallb_forall in H; specialize (H c Hc).
  rewrite forallb_forall in H; specialize (H l Hl).
  rewrite forallb_forall in H; specialize (H h Hh).
  rewrite forallb_forall in H; specialize (H q Hq).
  rewrite forallb_forall in H; exact (H hr Hr).
Qed.

Section TableFacts.

Variables (b : bool) (c l h q : Q) (hr : option Q).
Hypothesis Hc : In c [0.3; 0.6; 0.8].
Hypothesis Hl : In l [0.5; 0.6; 0.9; 0.8].
Hypothesis Hh : In h [0.7; 0.85; 0.8].
Hypothesis Hq : In q [0.6; 0.9].
Hypothesis Hr : In hr [None; Some 0.4; Some 0.9; Some 0.7].

Local Abbreviation values := (numeric_values (dimension_table c l h q hr)).

(** The float mean is a finite float, under both summations. *)
Lemma table_mean_finite : is_finite (mean b values) = true.
Proof.
  apply (every_dimension_table_spec
           (fun b c l h q hr =>
              is_finite (mean b (numeric_values (dimension_table c l h q hr)))));
    [vm_compute; reflexivity | assumption..].
Qed.

(** The float mean differs from the exact mean by less than 10^-15. *)
Lemma table_mean_near_exact :
  Qabs (float_value (mean b values) - exact_mean values) <= 1 # 10 ^ 15.
Proof.
  apply Qle_bool_iff.
  apply (every_dimension_table_spec
           (fun b c l h q hr =>
              let vs := numeric_values (dimension_table c l h q hr) in
              Qle_bool (Qabs (float_value (mean b vs) - exact_mean vs))
                       (1 # 10 ^ 15)));
    [vm_compute; reflexivity | assumption..].
Qed.

(** The score is between 0.55 and 0.86. *)
Lemma table_score_bounds :
  0.55 <= table_score b c l h q hr /\ table_score b c l h q hr <= 0.86.
Proof.
  assert (H : Qle_bool 0.55 (table_score b c l h q hr)
              && Qle_bool (table_score b c l h q hr) 0.86 = true).
  { apply (every_dimension_table_spec
             (fun b c l h q hr =>
                Qle_bool 0.55 (table_score b c l h q hr)
                && Qle_bool (table_score b c l h q hr) 0.86));
      [vm_compute; reflexivity | assumption..]. }
  apply andb_true_iff in H as [H1 H2].
  split; apply Qle_bool_iff; assumption.
Qed.

(** The score is within half a hundredth of the exact mean. *)
Lemma table_score_near_exact :
  Qabs (table_score b c l h q hr - exact_mean values) <= 1 # 200.
Proof.
  apply Qle_bool_iff.
  apply (every_dimension_table_spec
           (fun b c l h q hr =>
              Qle_bool (Qabs (table_score b c l h q hr
                              - exact_mean (numeric_values
                                              (dimension_table c l h q hr))))
                       (1 # 200)));
    [vm_compute; reflexivity | assumption..].
Qed.

(** With five dimensions the score is the exact mean. *)
Lemma table_score_five_exact :
  hr = None -> table_score b c l h q hr == exact_mean values.
Proof.
  intros E. apply Qeq_bool_iff.
  assert (H : match hr with
              | None => Qeq_bool (table_score b c l h q hr)
                                 (exact_mean values)
              | Some _ => true
              end = true).
  { apply (every_dimension_table_spec
             (fun b c l h q hr =>
                match hr with
                | None => Qeq_bool (table_score b c l h q hr)
                            (exact_mean (numeric_values
                                           (dimension_table c l h q hr)))
                | Some _ => true
                end));
      [vm_compute; reflexivity | assumption..]. }
  rewrite E in H |- *; exact H.
Qed.

End TableFacts.

(** The result of the scorer on a text that is not empty after trimming is
    one of the mappings of [every_dimension_table] and its score. *)
Lemma scorer_table (lower : str -> str) (is_word : char -> bool)
    (compensated : bool) (platform text : str) (strategy : option str) :
  strip text <> [] ->
  let r := quality_and_reach_scorer lower is_word compensated platform text
             strategy in
  exists (c l h q : Q) (hr : option Q),
    In c [0.3; 0.6; 0.8] /\ In l [0.5; 0.6; 0.9; 0.8]
    /\ In h [0.7; 0.85; 0.8] /\ In q [0.6; 0.9]
    /\ In hr [None; Some 0.4; Some 0.9; Some 0.7]
    /\ (lower platform <> lit "instagram" -> hr = None)
    /\ dimensions r = dimension_table c l h q hr
    /\ score r = table_score compensated c l h q hr.
Proof.
  intros Hne r.
  exists (clarity (strip text) (split (_normalize_whitespace (strip text)))),
    (length_appropriateness (lower platform)
       (length (split (_normalize_whitespace (strip text))))),
    (hook_strength lower (strip text)),
    (cta_quality lower (strip text)),
    (hashtag_richness is_word (lower platform) (strip text)).
  split; [apply clarity_cases|]. split; [apply length_cases|].
  split; [apply hook_cases|]. split; [apply cta_cases|].
  split; [apply hashtag_cases|].
  split; [intros Hp; apply hashtag_other; exact Hp|].
  subst r. split; [apply scorer_dimensions; exact Hne|].
  rewrite (scorer_score lower is_word compensated _ _ strategy Hne).
  rewrite (scorer_dimensions lower is_word compensated _ _ strategy Hne).
  reflexivity.
Qed.

(** ** Substrings *)

Lemma startswith_app (s b p : str) :
  startswith s p = true -> startswith (s ++ b) p = true.
Proof.
  revert s; induction p as [|a p IH]; intros [|c s]; simpl; auto.
  - intros _; destruct b; reflexivity.
  - intros H; discriminate H.
  - rewrite !andb_true_iff; intros [-> H]; auto.
Qed.

Lemma str_in_app_r (p s b : str) :
  str_in p s = true -> str_in p (s ++ b) = true.
Proof.
  induction s as [|c s IH].
  - simpl; rewrite orb_false_r; intros H.
    destruct p; [destruct b; reflexivity | simpl in H; discriminate].
  - simpl. rewrite !orb_true_iff; intros [H | H].
    + left; apply (startswith_app (c :: s) b p H).
    + right; auto.
Qed.

Lemma str_in_app_l (p a s : str) :
  str_in p s = true -> str_in p (a ++ s) = true.
Proof.
  intros H; induction a as [|c a IH]; [exact H|].
  simpl; rewrite IH; apply orb_true_r.
Qed.

(** A marker found in the trimmed text is in the text. *)
Lemma str_in_strip (p s : str) :
  str_in p (strip s) = true -> str_in p s = true.
Proof.
  intros H; destruct (strip_split s) as [a [b [E _]]].
  rewrite E; apply str_in_app_l, str_in_app_r; exact H.
Qed.

Lemma strip_nonspace_head (c : char) (s : str) :
  is_space c = false -> strip (c :: s) <> [].
Proof.
  intros Hc E. unfold strip in E. simpl in E; rewrite Hc in E.
  destruct (rstrip_split (c :: s)) as [a [Ea Ha]].
  rewrite E in Ea; simpl in Ea; subst a.
  simpl in Ha; rewrite Hc in Ha; discriminate.
Qed.

(** ** The fallback text *)

Lemma fallback_marker (e : str) :
  str_in FALLBACK_MARKER (fallback_output (Some e)) = str_in FALLBACK_MARKER e.
Proof. reflexivity. Qed.

Lemma fallback_nonempty (e : str) : strip (fallback_output (Some e)) <> [].
Proof. apply (strip_nonspace_head 0x5B%N); reflexivity. Qed.

Lemma run_agent_exhausted (call : nat -> api_outcome) (e1 e2 e : str) :
  call 1%nat = Raised e1 -> call 2%nat = Raised e2 -> call 3%nat = Raised e ->
  run_agent call = fallback_output (Some e).
Proof.
  intros H1 H2 H3; unfold run_agent, MAX_RETRIES; simpl.
  rewrite H1, H2, H3; reflexivity.
Qed.

(** ** The refinement decision *)

Lemma needs_refinement_iff (s : option Q) :
  needs_refinement s = true
  <-> exists v, s = Some v /\ v < REFINEMENT_THRESHOLD.
Proof.
  destruct s as [v|]; simpl.
  - rewrite negb_true_iff. split.
    + intros H; exists v; split; [reflexivity|].
      apply Qnot_le_lt; intros Hle.
      apply Qle_bool_iff in Hle; congruence.
    + intros [w [E Hlt]]; injection E as <-.
      destruct (Qle_bool REFINEMENT_THRESHOLD v) eqn:Hb; [|reflexivity].
      apply Qle_bool_iff in Hb. exfalso; exact (Qlt_not_le _ _ Hlt Hb).
  - split; [discriminate | intros [v [E _]]; discriminate].
Qed.

Lemma maybe_refine_decision lower is_word compensated ask strategy
    (st : RefineState) (p original_text : str) record entry :
  dict_get (refinements st) p = Some record ->
  dict_get (scores st) p = Some entry ->
  maybe_refine lower is_word compensated ask strategy st p original_text
  = if needs_refinement (entry_score entry)
    then Some (rewrite_and_rescore lower is_word compensated ask strategy
                 st p original_text entry)
    else Some (original_text, st).
Proof.
  intros Hr He; unfold maybe_refine; rewrite Hr, He; simpl.
  unfold needs_refinement; destruct (entry_score entry) as [s|]; simpl;
    [destruct (Qle_bool REFINEMENT_THRESHOLD s)|]; reflexivity.
Qed.

(** When the decision is positive the output follows the stylist's answer
    to the improvement prompt. *)
Lemma maybe_refine_request lower is_word compensated ask strategy
    (st : RefineState) (p original_text : str) record entry old_score :
  dict_get (refinements st) p = Some record ->
  dict_get (scores st) p = Some entry ->
  entry_score entry = Some old_score ->
  old_score < REFINEMENT_THRESHOLD ->
  let answer :=
    ask (improvement_prompt p original_text (entry_feedback entry)) in
  let rescored :=
    quality_and_reach_scorer lower is_word compensated p answer strategy in
  maybe_refine lower is_word compensated ask strategy st p original_text
  = Some (if is_empty answer || startswith answer (lit "[FALLBACK")
          then (original_text, st)
          else (answer,
                {| scores := dict_set (scores st) p (Scored rescored);
                   refinements :=
                     dict_set (refinements st) p
                       {| old := Some old_score;
                          new := Some (score rescored);
                          delta := fsub (float_lit (score rescored))
                                        (float_lit old_score) |};
                   refinements_made := refinements_made st ++ [p] |})).
Proof.
  intros Hr He Eo Hlt answer rescored.
  rewrite (maybe_refine_decision _ _ _ _ _ _ _ _ _ _ Hr He).
  assert (Hn : needs_refinement (entry_score entry) = true)
    by (apply needs_refinement_iff; exists old_score; auto).
  rewrite Hn. unfold rewrite_and_rescore; cbv zeta. fold answer.
  destruct (is_empty answer || startswith answer (lit "[FALLBACK"));
    [reflexivity|].
  rewrite Eo; reflexivity.
Qed.

(** When it is negative nothing changes. *)
Lemma maybe_refine_no_request lower is_word compensated ask strategy
    (st : RefineState) (p original_text : str) record entry :
  dict_get (refinements st) p = Some record ->
  dict_get (scores st) p = Some entry ->
  needs_refinement (entry_score entry) = false ->
  maybe_refine lower is_word compensated ask strategy st p original_text
  = Some (original_text, st).
Proof.
  intros Hr He Hn.
  rewrite (maybe_refine_decision _ _ _ _ _ _ _ _ _ _ Hr He), Hn.
  reflexivity.
Qed.

(** Every score is below the threshold. *)
Lemma score_below_threshold lower is_word compensated platform text strategy :
  score (quality_and_reach_scorer lower is_word compensated platform text
           strategy) < REFINEMENT_THRESHOLD.
Proof.
  destruct (strip text) as [|c0 t0] eqn:Hs.
  - rewrite (scorer_empty lower is_word compensated _ _ strategy Hs).
    reflexivity.
  - assert (Hne : strip text <> []) by (rewrite Hs; discriminate).
    destruct (scorer_table lower is_word compensated platform text strategy
                Hne)
      as (c & l & h & q & hr & Hc & Hl & Hh & Hq & Hr & _ & _ & Hsc).
    rewrite Hsc.
    destruct (table_score_bounds compensated c l h q hr Hc Hl Hh Hq Hr)
      as [_ Hhi].
    eapply Qle_lt_trans; [exact Hhi | reflexivity].
Qed.

Lemma str_eqb_sym (a b : str) : str_eqb a b = str_eqb b a.
Proof.
  destruct (str_eqb a b) eqn:E.
  - apply str_eqb_eq in E; subst; symmetry; apply str_eqb_refl.
  - destruct (str_eqb b a) eqn:E'; [|reflexivity].
    apply str_eqb_eq in E'; subst. rewrite str_eqb_refl in E; discriminate.
Qed.

Lemma dict_get_set_same {V : Type} (d : dict V) (k : str) (v : V) :
  dict_get (dict_set d k v) k = Some v.
Proof.
  induction d as [|[k0 v0] d IH]; simpl; [rewrite str_eqb_refl; reflexivity|].
  destruct (str_eqb k k0) eqn:E; simpl.
  - rewrite str_eqb_refl; reflexivity.
  - rewrite E; exact IH.
Qed.

Lemma dict_get_set_other {V : Type} (d : dict V) (k q : str) (v : V) :
  q <> k -> dict_get (dict_set d k v) q = dict_get d q.
Proof.
  intros Hq. assert (Hqk : str_eqb q k = false) by (apply str_eqb_neq; exact Hq).
  induction d as [|[k0 v0] d IH]; simpl; [rewrite Hqk; reflexivity|].
  destruct (str_eqb k k0) eqn:E; simpl.
  - apply str_eqb_eq in E; subst k0. rewrite Hqk; reflexivity.
  - rewrite IH; reflexivity.
Qed.

Section RefinementFacts.

Variable lower : str -> str.
Variable is_word : char -> bool.
Variable compensated : bool.
Variable ask : str -> str.
Variable strategy : option str.

Local Abbreviation refine := (maybe_refine lower is_word compensated ask strategy).
Local Abbreviation scorer := (quality_and_reach_scorer lower is_word compensated).

Lemma maybe_refine_raises (st : RefineState) (p original_text : str) :
  refine st p original_text = None
  <-> dict_get (refinements st) p = None \/ dict_get (scores st) p = None.
Proof.
  unfold maybe_refine, bind.
  destruct (dict_get (refinements st) p); [|split; auto].
  destruct (dict_get (scores st) p) as [entry|]; [|split; auto].
  split; [|intros [H | H]; discriminate H].
  destruct (match entry_score entry with
            | Some s => Qle_bool REFINEMENT_THRESHOLD s
            | None => true
            end); discriminate.
Qed.

(** What a call of [maybe_refine] that returns leaves behind. *)
Lemma maybe_refine_effect (st st' : RefineState) (p original_text t' : str) :
  refine st p original_text = Some (t', st') ->
  (forall q, q <> p ->
     dict_get (scores st') q = dict_get (scores st) q
     /\ dict_get (refinements st') q = dict_get (refinements st) q)
  /\ ((t' = original_text /\ st' = st)
      \/ exists entry old_score,
           dict_get (scores st) p = Some entry
           /\ entry_score entry = Some old_score
           /\ old_score < REFINEMENT_THRESHOLD
           /\ t' = ask (improvement_prompt p original_text
                          (entry_feedback entry))
           /\ t' <> []
           /\ startswith t' (lit "[FALLBACK") = false
           /\ dict_get (scores st') p = Some (Scored (scorer p t' strategy))
           /\ dict_get (refinements st') p
              = Some {| old := Some old_score;
                        new := Some (score (scorer p t' strategy));
                        delta := fsub (float_lit (score (scorer p t' strategy)))
                                      (float_lit old_score) |}
           /\ refinements_made st' = refinements_made st ++ [p]).
Proof.
  intros H.
  destruct (dict_get (refinements st) p) as [record|] eqn:Hr;
    [|assert (E : refine st p original_text = None)
        by (apply maybe_refine_raises; auto); congruence].
  destruct (dict_get (scores st) p) as [entry|] eqn:He;
    [|assert (E : refine st p original_text = None)
        by (apply maybe_refine_raises; auto); congruence].
  rewrite (maybe_refine_decision lower is_word compensated ask strategy st p
             original_text record entry Hr He) in H.
  destruct (needs_refinement (entry_score entry)) eqn:Hn.
  - apply needs_refinement_iff in Hn as [old_score [Eo Hlt]].
    unfold rewrite_and_rescore in H; cbv zeta in H.
    set (improved := ask _) in *.
    destruct (is_empty improved || startswith improved (lit "[FALLBACK"))
      eqn:Hbad.
    + injection H as <- <-. split; [intros q _; split; reflexivity|].
      left; split; reflexivity.
    + apply orb_false_iff in Hbad as [Hem Hfb].
      injection H as <- <-. cbn [scores refinements refinements_made].
      split.
      * intros q Hq; split; apply dict_get_set_other; exact Hq.
      * right. exists entry, old_score.
        split; [reflexivity|]. split; [exact Eo|]. split; [exact Hlt|].
        split; [reflexivity|].
        split; [intros E; rewrite E in Hem; discriminate|].
        split; [exact Hfb|].
        split; [apply dict_get_set_same|].
        split; [rewrite Eo; apply dict_get_set_same | reflexivity].
  - injection H as <- <-. split; [intros q _; split; reflexivity|].
    left; split; reflexivity.
Qed.

End RefinementFacts.


Section RepurposerFacts.

Variable lower : str -> str.
Variable is_word : char -> bool.
Variable compensated : bool.
Variable client : call_site -> Agent -> str -> nat -> api_outcome.

Local Abbreviation scorer := (quality_and_reach_scorer lower is_word compensated).

Lemma run_structure (user_brief : str) :
  let strategy := Some (strategist_reply client user_brief) in
  let l0 := stylist_reply client LinkedinPost linkedin_prompt user_brief in
  let i0 := stylist_reply client InstagramCaption instagram_prompt
              user_brief in
  let e0 := stylist_reply client EmailBlurb email_prompt user_brief in
  let st0 :=
    {| scores :=
         [ (lit "linkedin", Scored (scorer (lit "linkedin") l0 strategy));
           (lit "instagram", Scored (scorer (lit "instagram") i0 strategy));
           (lit "email", Scored (scorer (lit "email") e0 strategy)) ];
       refinements := initial_refinements;
       refinements_made := [] |} in
  let refine platform :=
    maybe_refine lower is_word compensated (rewrite_reply client platform)
      strategy in
  exists l1 st1 e1 st2,
    refine (lit "linkedin") st0 (lit "linkedin") l0 = Some (l1, st1)
    /\ refine (lit "email") st1 (lit "email") e0 = Some (e1, st2)
    /\ run_content_repurposer lower is_word compensated client user_brief
       = Some {| brief := user_brief;
                 controller_plan :=
                   run_agent (client ControllerPlan create_controller_agent
                                (controller_prompt user_brief));
                 strategy_notes :=
                   parse_strategy (strategist_reply client user_brief);
                 base_draft := chosen_base_draft client user_brief;
                 linkedin := l1;
                 instagram := i0;
                 email := e1;
                 refine_state := st2 |}.
Proof.
  intros strategy l0 i0 e0 st0 refine.
  assert (Hne : lit "email" <> lit "linkedin") by discriminate.
  destruct (refine (lit "linkedin") st0 (lit "linkedin") l0)
    as [[l1 st1]|] eqn:H1.
  2:{ apply maybe_refine_raises in H1. destruct H1 as [H1 | H1];
        discriminate H1. }
  destruct (maybe_refine_effect _ _ _ _ _ _ _ _ _ _ H1) as [Hframe _].
  destruct (Hframe (lit "email") Hne) as [Hs Hr].
  destruct (refine (lit "email") st1 (lit "email") e0)
    as [[e1 st2]|] eqn:H2.
  2:{ apply maybe_refine_raises in H2. rewrite Hs, Hr in H2.
      destruct H2 as [H2 | H2]; discriminate H2. }
  exists l1, st1, e1, st2.
  split; [first [reflexivity | exact H1]|].
  split; [first [reflexivity | exact H2]|].
  change (run_content_repurposer lower is_word compensated client user_brief)
    with (match refine (lit "linkedin") st0 (lit "linkedin") l0 with
          | Some r1 =>
              match refine (lit "email") (snd r1) (lit "email") e0 with
              | Some r2 =>
                  Some {| brief := user_brief;
                          controller_plan :=
                            run_agent (client ControllerPlan
                                         create_controller_agent
                                         (controller_prompt user_brief));
                          strategy_notes :=
                            parse_strategy (strategist_reply client user_brief);
                          base_draft := chosen_base_draft client user_brief;
                          linkedin := fst r1;
                          instagram := i0;
                          email := fst r2;
                          refine_state := snd r2 |}
              | None => None
              end
          | None => None
          end).
  rewrite H1; cbn [fst snd]. rewrite H2. reflexivity.
Qed.

End RepurposerFacts.

(** What a run keeps for each platform: for linkedin and email the
    stylist's answer to the improvement prompt unless that answer is empty
    or a fallback text, for instagram the first reply. *)
Lemma run_rewrites (lower : str -> str) (is_word : char -> bool)
    (compensated : bool)
    (client : call_site -> Agent -> str -> nat -> api_outcome)
    (user_brief : str) :
  let strategy := Some (strategist_reply client user_brief) in
  let scorer := quality_and_reach_scorer lower is_word compensated in
  let answer p t :=
    rewrite_reply client p
      (improvement_prompt p t (summary_feedback (scorer p t strategy))) in
  let kept p t :=
    if is_empty (answer p t) || startswith (answer p t) (lit "[FALLBACK")
    then t else answer p t in
  exists rs,
    run_content_repurposer lower is_word compensated client user_brief
    = Some rs
    /\ linkedin rs
       = kept (lit "linkedin")
           (stylist_reply client LinkedinPost linkedin_prompt user_brief)
    /\ instagram rs
       = stylist_reply client InstagramCaption instagram_prompt user_brief
    /\ email rs
       = kept (lit "email")
           (stylist_reply client EmailBlurb email_prompt user_brief).
Proof.
  intros strategy scorer answer kept.
  destruct (run_structure lower is_word compensated client user_brief)
    as [l1 [st1 [e1 [st2 [H1 [H2 Hrun]]]]]].
  eexists; split; [exact Hrun|]. cbn [linkedin instagram email].
  match type of H1 with
  | maybe_refine _ _ _ ?ask ?strat ?st ?p ?orig = _ =>
      rewrite (maybe_refine_request lower is_word compensated ask strat st p
                 orig {| old := None; new := None; delta := fzero |}
                 (Scored (scorer p orig strat))
                 (score (scorer p orig strat))
                 eq_refl eq_refl eq_refl
                 (score_below_threshold _ _ _ _ _ _)) in H1
  end.
  cbv zeta in H1. cbn [entry_feedback] in H1.
  assert (E1 : l1 = kept (lit "linkedin")
                      (stylist_reply client LinkedinPost linkedin_prompt
                         user_brief)
               /\ dict_get (refinements st1) (lit "email")
                  = Some {| old := None; new := None; delta := fzero |}
               /\ dict_get (scores st1) (lit "email")
                  = Some (Scored (scorer (lit "email")
                                   (stylist_reply client EmailBlurb
                                      email_prompt user_brief) strategy))).
  { unfold kept, answer.
    destruct (is_empty _ || startswith _ _) in H1 |- *;
      injection H1 as <- <-; repeat split; reflexivity. }
  destruct E1 as (-> & Hr & Hs).
  split; [reflexivity|]. split; [reflexivity|].
  match type of H2 with
  | maybe_refine _ _ _ ?ask ?strat ?st ?p ?orig = _ =>
      rewrite (maybe_refine_request lower is_word compensated ask strat st p
                 orig {| old := None; new := None; delta := fzero |}
                 (Scored (scorer p orig strat))
                 (score (scorer p orig strat))
                 Hr Hs eq_refl
                 (score_below_threshold _ _ _ _ _ _)) in H2
  end.
  cbv zeta in H2. cbn [entry_feedback] in H2.
  unfold kept, answer.
  destruct (is_empty _ || startswith _ _) in H2 |- *;
    injection H2 as <- _; reflexivity.
Qed.

Lemma strip_open (s : str) :
  strip s <> [] -> is_linebreak (last (strip s) LF) = false.
Proof.
  intros H; destruct (nonempty_last _ H) as [r [c E]].
  rewrite E, last_last.
  destruct (is_linebreak c) eqn:Hc; [|reflexivity].
  apply linebreak_is_space in Hc.
  rewrite (strip_last _ _ _ E) in Hc; discriminate.
Qed.

Lemma config_known (p : str) :
  In p [lit "linkedin"; lit "instagram"; lit "email"] ->
  dict_mem PLATFORM_CONFIG p = true.
Proof. intros H; in_cases H; reflexivity. Qed.

(** * The properties of the specification *)

(** ** C1: the limits of the Instagram branch *)

(** C1 (as amended): on the Instagram branch, for every text that is not
    empty after trimming and every hashtag list, the [caption] field has at
    most 10 newline-delimited lines (also as [splitlines] counts them) and
    at most 2200 code points;
    [formatted_text] is that caption alone when the hashtag block is empty,
    and otherwise the caption, a blank line and the hashtag block. *)
Theorem instagram_caption_limits :
  forall (lower : str -> str) (platform text : str)
         (hashtags : option (list str)),
    lower platform = lit "instagram" ->
    strip text <> [] ->
    exists ft caption,
      platform_formatting_tool lower platform text hashtags
      = Some (InstagramPost (lit "instagram") ft caption
                (hashtag_block lower hashtags))
      /\ (newline_lines caption <= 10)%nat
      /\ (length (splitlines caption) <= 10)%nat
      /\ (length caption <= 2200)%nat
      /\ (hashtag_block lower hashtags = [] -> ft = caption)
      /\ (hashtag_block lower hashtags <> [] ->
          ft = caption ++ [LF; LF] ++ hashtag_block lower hashtags).
Proof.
  intros lower platform text hashtags Hp Hne.
  rewrite (format_instagram lower platform text hashtags Hp Hne); cbv zeta.
  eexists _, _; split; [reflexivity|].
  pose proof (caption_limits (strip text) (strip_open text Hne))
    as [Hl [Hs Hc]].
  split; [exact Hl | split; [exact Hs | split; [exact Hc|]]].
  split; intros Hb.
  - rewrite Hb; reflexivity.
  - rewrite (is_empty_false _ Hb); reflexivity.
Qed.

Lemma instagram_caption_limits_witness :
  ascii_lower (lit "Instagram") = lit "instagram"
  /\ strip (lit "hello") <> []
  /\ exists ft caption,
      platform_formatting_tool ascii_lower (lit "Instagram") (lit "hello")
        (Some [lit "a"])
      = Some (InstagramPost (lit "instagram") ft caption
                (hashtag_block ascii_lower (Some [lit "a"])))
      /\ (newline_lines caption <= 10)%nat
      /\ (length (splitlines caption) <= 10)%nat
      /\ (length caption <= 2200)%nat
      /\ (hashtag_block ascii_lower (Some [lit "a"]) = [] -> ft = caption)
      /\ (hashtag_block ascii_lower (Some [lit "a"]) <> [] ->
          ft = caption ++ [LF; LF] ++ hashtag_block ascii_lower (Some [lit "a"])).
Proof.
  split; [reflexivity|].
  split; [vm_compute; discriminate|].
  apply (instagram_caption_limits ascii_lower (lit "Instagram") (lit "hello")
           (Some [lit "a"])).
  - reflexivity.
  - vm_compute; discriminate.
Defined.

(** Ten lines and one hashtag: [formatted_text] has twelve lines. *)
Lemma instagram_formatted_text_exceeds_lines :
  ~ (forall r,
       platform_formatting_tool ascii_lower (lit "instagram") ten_lines
         (Some [lit "a"]) = Some r ->
       (newline_lines (formatted_text r) <= 10)%nat
       /\ (length (formatted_text r) <= 2200)%nat).
Proof.
  intros H.
  destruct (H (InstagramPost (lit "instagram")
                 (ten_lines ++ [LF; LF] ++ lit "#a") ten_lines (lit "#a"))
              eq_refl) as [Hl _].
  vm_compute in Hl. lia.
Qed.

(** A caption of 2200 code points and one hashtag: [formatted_text] has
    2204 code points. *)
Lemma instagram_formatted_text_exceeds_chars :
  option_map (fun r => length (formatted_text r))
    (platform_formatting_tool ascii_lower (lit "instagram") long_caption
       (Some [lit "a"]))
  = Some 2204%nat.
Proof. vm_compute; reflexivity. Qed.

(** ** C2: the score and the mean of the present dimensions *)

(** C2 (as amended): for every platform and every text that is not empty
    after trimming, the score is [round(final_score, 2)], where
    [final_score] is the float that [sum(values) / len(values)] gives for
    the present (non-[None]) dimension values, absent dimensions taking part
    in neither the sum nor the count.  That float is finite and within
    10^-15 of the exact arithmetic mean of the values; the score is within
    0.005 of the float and of the exact mean, and it is the exact mean
    whenever the platform is not instagram (five values, whose mean has two
    decimal places). *)
Theorem score_is_rounded_mean :
  forall (lower : str -> str) (is_word : char -> bool) (compensated : bool)
         (platform text : str) (strategy : option str),
    strip text <> [] ->
    let r := quality_and_reach_scorer lower is_word compensated platform text
               strategy in
    let values := numeric_values (dimensions r) in
    let final_score := mean compensated values in
    score r = round2 final_score
    /\ is_finite final_score = true
    /\ Qabs (score r - float_value final_score) <= 1 # 200
    /\ Qabs (float_value final_score - exact_mean values) <= 1 # 10 ^ 15
    /\ Qabs (score r - exact_mean values) <= 1 # 200
    /\ (lower platform <> lit "instagram" -> score r == exact_mean values).
Proof.
  intros lower is_word compensated platform text strategy Hne r values
         final_score.
  assert (Hs : score r = round2 final_score)
    by (apply scorer_score; exact Hne).
  destruct (scorer_table lower is_word compensated platform text strategy Hne)
    as (c & l & h & q & hr & Hc & Hl & Hh & Hq & Hr & Hnone & Hd & Hsc).
  fold r in Hd, Hsc.
  split; [exact Hs|].
  split; [subst final_score values; rewrite Hd;
          apply table_mean_finite; assumption|].
  split; [rewrite Hs; apply round2_close|].
  split; [subst final_score values; rewrite Hd;
          apply table_mean_near_exact; assumption|].
  split; [subst values; rewrite Hsc, Hd;
          apply table_score_near_exact; assumption|].
  intros Hp. subst values. rewrite Hsc, Hd.
  apply table_score_five_exact; auto.
Qed.

Lemma score_is_rounded_mean_witness :
  strip (lit "#a #b #c") <> []
  /\ let r := quality_and_reach_scorer ascii_lower ascii_word false
                (lit "linkedin") (lit "#a #b #c") None in
     let values := numeric_values (dimensions r) in
     let final_score := mean false values in
     values = [0.6; 0.8; 0.5; 0.7; 0.6]
     /\ score r = 0.64
     /\ score r = round2 final_score
     /\ Qabs (score r - exact_mean values) <= 1 # 200
     /\ (ascii_lower (lit "linkedin") <> lit "instagram" ->
         score r == exact_mean values).
Proof.
  split; [vm_compute; discriminate|].
  intros r values final_score.
  split; [vm_compute; reflexivity|].
  split; [vm_compute; reflexivity|].
  destruct (score_is_rounded_mean ascii_lower ascii_word false
              (lit "linkedin") (lit "#a #b #c") None)
    as (H1 & _ & _ & _ & H5 & H6).
  - vm_compute; discriminate.
  - split; [exact H1 | split; [exact H5 | exact H6]].
Defined.

(** The score is not the mean.  On instagram, three hashtags in three
    words: the six dimensions are 0.6, 0.8, 0.5, 0.7, 0.6 and 0.9, their
    mean is 41/60 and the score is 0.68, under both summations.  On
    linkedin the same text has the five values 0.6, 0.8, 0.5, 0.7 and 0.6,
    whose exact mean is 0.64; summed one after the other the float mean is
    the float below the one 0.64 denotes, so that the float comparison
    [round(final_score, 2) == final_score] fails there as well. *)
Lemma score_differs_from_mean :
  (forall compensated : bool,
     let r := quality_and_reach_scorer ascii_lower ascii_word compensated
                (lit "instagram") (lit "#a #b #c") None in
     numeric_values (dimensions r) = [0.6; 0.8; 0.5; 0.7; 0.6; 0.9]
     /\ score r = 0.68
     /\ exact_mean (numeric_values (dimensions r)) == 41 # 60
     /\ ~ (score r == exact_mean (numeric_values (dimensions r)))
     /\ float_lit (score r)
        <> mean compensated (numeric_values (dimensions r)))
  /\ let r := quality_and_reach_scorer ascii_lower ascii_word false
                (lit "linkedin") (lit "#a #b #c") None in
     score r = 0.64
     /\ float_lit (score r)
        <> mean false (numeric_values (dimensions r)).
Proof.
  split.
  - intros compensated; destruct compensated;
      (split; [vm_compute; reflexivity|];
       split; [vm_compute; reflexivity|];
       split; [vm_compute; reflexivity|];
       split; [intros H; vm_compute in H; discriminate H|];
       intros H; vm_compute in H; discriminate H).
  - split; [vm_compute; reflexivity|].
    intros H; vm_compute in H; discriminate H.
Qed.

(** The same exact mean 27/40 of six values is rounded to 0.68 or to 0.67
    when the values are added one after the other: the float sum decides
    on which side of the tie the float mean lies.  With the compensated
    summation both give 0.67. *)
Lemma tie_follows_the_float_sum :
  exact_mean [0.6; 0.8; 0.8; 0.85; 0.6; 0.4] == 27 # 40
  /\ exact_mean [0.6; 0.8; 0.5; 0.85; 0.6; 0.7] == 27 # 40
  /\ round2 (mean false [0.6; 0.8; 0.8; 0.85; 0.6; 0.4]) = 0.68
  /\ round2 (mean false [0.6; 0.8; 0.5; 0.85; 0.6; 0.7]) = 0.67
  /\ round2 (mean true [0.6; 0.8; 0.8; 0.85; 0.6; 0.4]) = 0.67
  /\ round2 (mean true [0.6; 0.8; 0.5; 0.85; 0.6; 0.7]) = 0.67.
Proof. repeat split; vm_compute; reflexivity. Qed.

(** ** C3: every scored text is below the refinement threshold *)

(** C3: for every platform and every text that is not empty after trimming,
    the score is strictly below the threshold 0.90: no dimension is above
    0.9, the mean of the dimensions is at most 0.86 and so is the score.
    So the refinement decision is positive, and [maybe_refine], called on a
    platform whose stored entry is such a result, asks the stylist for a
    rewrite: what it returns follows the stylist's answer to the
    improvement prompt built from the original text and the stored
    feedback.  A non-empty answer that is no fallback text is returned, its
    score is stored, the old and the new score are recorded and the
    platform is appended to [refinements_made]; otherwise text and state
    stay as they were.  A run of the pipeline calls [maybe_refine] for
    linkedin and email, never for instagram: it keeps the rewrite of the
    LinkedIn post and of the email blurb whenever the stylist gives a
    usable one, and the first Instagram caption. *)
Theorem scored_text_needs_refinement :
  forall (lower : str -> str) (is_word : char -> bool) (compensated : bool),
    let scorer := quality_and_reach_scorer lower is_word compensated in
    (forall (platform text : str) (strategy : option str),
       strip text <> [] ->
       let r := scorer platform text strategy in
       Forall (fun v => v <= 0.9) (numeric_values (dimensions r))
       /\ exact_mean (numeric_values (dimensions r)) <= 0.86
       /\ score r <= 0.86
       /\ score r < REFINEMENT_THRESHOLD
       /\ needs_refinement (Some (score r)) = true
       /\ forall (ask : str -> str) (strategy' : option str)
                 (st : RefineState) (p original_text : str)
                 (record : Refinement),
            dict_get (refinements st) p = Some record ->
            dict_get (scores st) p = Some (Scored r) ->
            let answer :=
              ask (improvement_prompt p original_text (summary_feedback r)) in
            let rescored := scorer p answer strategy' in
            maybe_refine lower is_word compensated ask strategy' st p
              original_text
            = Some (if is_empty answer || startswith answer (lit "[FALLBACK")
                    then (original_text, st)
                    else (answer,
                          {| scores :=
                               dict_set (scores st) p (Scored rescored);
                             refinements :=
                               dict_set (refinements st) p
                                 {| old := Some (score r);
                                    new := Some (score rescored);
                                    delta :=
                                      fsub (float_lit (score rescored))
                                           (float_lit (score r)) |};
                             refinements_made :=
                               refinements_made st ++ [p] |})))
    /\ (forall (client : call_site -> Agent -> str -> nat -> api_outcome)
               (user_brief : str),
          let strategy := Some (strategist_reply client user_brief) in
          let answer p t :=
            rewrite_reply client p
              (improvement_prompt p t
                 (summary_feedback (scorer p t strategy))) in
          let kept p t :=
            if is_empty (answer p t)
               || startswith (answer p t) (lit "[FALLBACK")
            then t else answer p t in
          exists rs,
            run_content_repurposer lower is_word compensated client
              user_brief = Some rs
            /\ linkedin rs
               = kept (lit "linkedin")
                   (stylist_reply client LinkedinPost linkedin_prompt
                      user_brief)
            /\ instagram rs
               = stylist_reply client InstagramCaption instagram_prompt
                   user_brief
            /\ email rs
               = kept (lit "email")
                   (stylist_reply client EmailBlurb email_prompt
                      user_brief)).
Proof.
  intros lower is_word compensated scorer. split.
  - intros platform text strategy Hne r.
    destruct (scorer_table lower is_word compensated platform text strategy
                Hne)
      as (c & l & h & q & hr & Hc & Hl & Hh & Hq & Hr & _ & Hd & Hsc).
    fold scorer in Hd, Hsc; fold r in Hd, Hsc.
    assert (Hlt : score r < REFINEMENT_THRESHOLD)
      by apply score_below_threshold.
    assert (Hn : needs_refinement (Some (score r)) = true)
      by (apply needs_refinement_iff; exists (score r); auto).
    split; [rewrite Hd; apply values_bound; assumption|].
    split; [rewrite Hd; apply exact_mean_bound; assumption|].
    split; [rewrite Hsc; apply table_score_bounds; assumption|].
    split; [exact Hlt | split; [exact Hn|]].
    intros ask strategy' st p original_text record Hrec Hsc'.
    exact (maybe_refine_request lower is_word compensated ask strategy' st p
             original_text record (Scored r) (score r) Hrec Hsc' eq_refl
             Hlt).
  - intros client user_brief.
    exact (run_rewrites lower is_word compensated client user_brief).
Qed.

Lemma scored_text_needs_refinement_witness :
  strip (lit "What if you could connect more? Share your story.") <> []
  /\ let r := quality_and_reach_scorer ascii_lower ascii_word false
                (lit "email")
                (lit "What if you could connect more? Share your story.")
                None in
     let st :=
       {| scores := [ (lit "email", Scored r) ];
          refinements :=
            [ (lit "email",
               {| old := None; new := None; delta := fzero |}) ];
          refinements_made := [] |} in
     score r = 0.73
     /\ score r < REFINEMENT_THRESHOLD
     /\ summary_feedback r
        = lit "Adjust the length to better fit this platform."
     /\ exists st',
          maybe_refine ascii_lower ascii_word false
            (fun _ => lit "Join us today") None st (lit "email")
            (lit "What if you could connect more? Share your story.")
          = Some (lit "Join us today", st')
          /\ refinements_made st' = [lit "email"]
          /\ dict_get (refinements st') (lit "email")
             = Some {| old := Some 0.73; new := Some 0.70;
                       delta := fsub (float_lit 0.70) (float_lit 0.73) |}.
Proof.
  split; [vm_compute; discriminate|].
  intros r st.
  destruct (scored_text_needs_refinement ascii_lower ascii_word false)
    as [H _].
  destruct (H (lit "email")
              (lit "What if you could connect more? Share your story.") None)
    as (_ & _ & _ & Hlt & _ & Hreq).
  - vm_compute; discriminate.
  - split; [vm_compute; reflexivity|].
    split; [exact Hlt|].
    split; [vm_compute; reflexivity|].
    eexists; split.
    + refine (eq_trans
                (Hreq (fun _ => lit "Join us today") None st (lit "email")
                   (lit "What if you could connect more? Share your story.")
                   {| old := None; new := None; delta := fzero |}
                   eq_refl eq_refl) _).
      vm_compute; reflexivity.
    + split; vm_compute; reflexivity.
Defined.

(** ** C4: the number of present dimensions *)



(** On linkedin the key [hashtag_richness] is in the mapping, which has six
    entries, the last of them [None]. *)
Lemma hashtag_richness_key_is_kept :
  let r := quality_and_reach_scorer ascii_lower ascii_word false
             (lit "linkedin") (lit "Join us today") None in
  dict_mem (dimensions r) (lit "hashtag_richness") = true
  /\ length (dimensions r) = 6%nat
  /\ dimensions r
     = [ (lit "clarity", Some 0.6); (lit "tone_match", Some 0.8);
         (lit "length_appropriateness", Some 0.5);
         (lit "hook_strength", Some 0.7); (lit "cta_quality", Some 0.9);
         (lit "hashtag_richness", None) ].
Proof. repeat split; vm_compute; reflexivity. Qed.

(** ** C5: empty text *)

(** C5: for every platform and every text that is empty or only whitespace
    after trimming, the scorer returns score 0.0, an empty dimensions
    mapping and the feedback "No text to evaluate.", whatever else its
    arguments are. *)
Theorem empty_text_scores_zero :
  forall (lower : str -> str) (is_word : char -> bool) (compensated : bool)
         (platform text : str) (strategy : option str),
    strip text = [] ->
    quality_and_reach_scorer lower is_word compensated platform text strategy
    = {| platform := lower platform; score := 0; dimensions := [];
         summary_feedback := lit "No text to evaluate." |}.
Proof.
  intros lower is_word compensated platform text strategy E.
  apply scorer_empty; exact E.
Qed.

Lemma empty_text_scores_zero_witness :
  strip blank_text = []
  /\ quality_and_reach_scorer ascii_lower ascii_word false
       (lit "Instagram") blank_text None
     = {| platform := lit "instagram"; score := 0; dimensions := [];
          summary_feedback := lit "No text to evaluate." |}.
Proof.
  split; [reflexivity|].
  apply (empty_text_scores_zero ascii_lower ascii_word false
           (lit "Instagram") blank_text None).
  reflexivity.
Defined.

(** ** C6: the refinement decision *)

(** C6: a rewrite is requested iff a score is present and strictly below
    0.90: no refinement for an absent score, none at exactly 0.90, and
    refinement at 0.8999.  In [maybe_refine], for a platform with a
    refinement record and a stored entry: when the decision is negative
    the original text and the unchanged state are returned, whatever the
    stylist would answer; when it is positive the stylist is asked with the
    improvement prompt, and a non-empty answer that is no fallback text is
    returned in place of the original, with its score stored, the old and
    new score recorded and the platform appended to [refinements_made]. *)
Theorem refinement_decision :
  (forall s : option Q,
     needs_refinement s = true <-> exists v, s = Some v /\ v < 0.90)
  /\ needs_refinement None = false
  /\ needs_refinement (Some 0.90) = false
  /\ needs_refinement (Some 0.8999) = true
  /\ (forall lower is_word compensated ask strategy (st : RefineState)
             (p original_text : str) record entry,
        dict_get (refinements st) p = Some record ->
        dict_get (scores st) p = Some entry ->
        (needs_refinement (entry_score entry) = false ->
         maybe_refine lower is_word compensated ask strategy st p
           original_text
         = Some (original_text, st))
        /\ (forall old_score,
              entry_score entry = Some old_score ->
              old_score < 0.90 ->
              let answer :=
                ask (improvement_prompt p original_text
                       (entry_feedback entry)) in
              let rescored :=
                quality_and_reach_scorer lower is_word compensated p answer
                  strategy in
              maybe_refine lower is_word compensated ask strategy st p
                original_text
              = Some (if is_empty answer
                         || startswith answer (lit "[FALLBACK")
                      then (original_text, st)
                      else (answer,
                            {| scores :=
                                 dict_set (scores st) p (Scored rescored);
                               refinements :=
                                 dict_set (refinements st) p
                                   {| old := Some old_score;
                                      new := Some (score rescored);
                                      delta :=
                                        fsub (float_lit (score rescored))
                                             (float_lit old_score) |};
                               refinements_made :=
                                 refinements_made st ++ [p] |})))).
Proof.
  split; [exact needs_refinement_iff|].
  split; [reflexivity|].
  split; [reflexivity|].
  split; [reflexivity|].
  intros lower is_word compensated ask strategy st p original_text record
         entry Hr He.
  split.
  - intros Hn.
    exact (maybe_refine_no_request lower is_word compensated ask strategy st
             p original_text record entry Hr He Hn).
  - intros old_score Eo Hlt.
    exact (maybe_refine_request lower is_word compensated ask strategy st p
             original_text record entry old_score Hr He Eo Hlt).
Qed.

Lemma refinement_decision_witness :
  dict_get (refinements sample_state) (lit "linkedin")
  = Some {| old := None; new := None; delta := fzero |}
  /\ dict_get (scores sample_state) (lit "linkedin")
     = Some (ScoringFailed (lit "linkedin"))
  /\ maybe_refine ascii_lower ascii_word false (fun prompt => prompt) None
       sample_state (lit "linkedin") (lit "original post")
     = Some (lit "original post", sample_state)
  /\ maybe_refine ascii_lower ascii_word false (fun prompt => prompt) None
       sample_state (lit "email") (lit "original blurb")
     = Some (lit "original blurb", sample_state)
  /\ (0.6 < 0.90
      /\ maybe_refine ascii_lower ascii_word false
           (fun _ => lit "Join us today") None low_score_state (lit "email")
           (lit "original blurb")
         = Some (lit "Join us today",
                 {| scores :=
                      [ (lit "email",
                         Scored (quality_and_reach_scorer ascii_lower
                                   ascii_word false (lit "email")
                                   (lit "Join us today") None)) ];
                    refinements :=
                      [ (lit "email",
                         {| old := Some 0.6; new := Some 0.70;
                            delta := fsub (float_lit 0.70)
                                          (float_lit 0.6) |}) ];
                    refinements_made := [lit "email"] |})).
Proof.
  split; [reflexivity|].
  split; [reflexivity|].
  destruct refinement_decision as [_ [_ [_ [_ H]]]].
  split.
  - exact (proj1 (H ascii_lower ascii_word false (fun prompt => prompt) None
                    sample_state (lit "linkedin") (lit "original post")
                    {| old := None; new := None; delta := fzero |}
                    (ScoringFailed (lit "linkedin")) eq_refl eq_refl)
             eq_refl).
  - split.
    + exact (proj1 (H ascii_lower ascii_word false (fun prompt => prompt)
                      None sample_state (lit "email") (lit "original blurb")
                      {| old := None; new := None; delta := fzero |}
                      (Scored {| platform := lit "email"; score := 0.90;
                                 dimensions := []; summary_feedback := [] |})
                      eq_refl eq_refl)
               eq_refl).
    + split; [reflexivity|].
      refine (eq_trans
                (proj2 (H ascii_lower ascii_word false
                          (fun _ => lit "Join us today") None low_score_state
                          (lit "email") (lit "original blurb")
                          {| old := None; new := None; delta := fzero |}
                          (Scored {| platform := lit "email"; score := 0.6;
                                     dimensions := [];
                                     summary_feedback := [] |})
                          eq_refl eq_refl)
                   0.6 eq_refl eq_refl) _).
      vm_compute; reflexivity.
Defined.

(** ** C7: the word limits of linkedin and email *)

(** C7: for linkedin (minimum 80, maximum 220 words) and email (minimum 40,
    maximum 160) and every text that is not empty after trimming, the
    formatter works on the whitespace-normalised text, which is the words of
    the input joined by single spaces; its output is the first [max_w] of
    those words joined by single spaces, so it never has more words than
    the maximum; above the maximum it has exactly [max_w] words and the
    trimmed warning is given; otherwise the output is the normalised text
    unchanged, with the too-short warning below the minimum and no warning
    in between. *)
Theorem word_limits :
  forall (lower : str -> str) (platform text : str)
         (hashtags : option (list str))
         (name : str) (min_w max_w : nat) (trimmed short : str),
    In (name, (min_w, max_w), (trimmed, short))
       [ (lit "linkedin", (80, 220)%nat,
          (lit "Trimmed LinkedIn post to 220 words.",
           lit "LinkedIn post is quite short ("));
         (lit "email", (40, 160)%nat,
          (lit "Trimmed email blurb to 160 words.",
           lit "Email blurb is quite short (")) ] ->
    lower platform = name ->
    strip text <> [] ->
    let normalized := _normalize_whitespace (strip text) in
    let words := split text in
    exists ft warning,
      platform_formatting_tool lower platform text hashtags
      = Some (WordLimited name ft warning)
      /\ normalized = join [SP] words
      /\ ft = join [SP] (firstn max_w words)
      /\ split ft = firstn max_w words
      /\ (length (split ft) <= max_w)%nat
      /\ ((max_w < length words)%nat ->
          length (split ft) = max_w /\ warning = Some trimmed)
      /\ ((length words <= max_w)%nat -> ft = normalized)
      /\ ((length words < min_w)%nat ->
          warning = Some (short ++ decimal (N.of_nat (length words))
                            ++ lit " words)."))
      /\ ((min_w <= length words <= max_w)%nat -> warning = None).
Proof.
  intros lower platform text hashtags name min_w max_w trimmed short Hin Hp
         Hne normalized words.
  assert (Hn : normalized = join [SP] words).
  { subst normalized words; rewrite normalize_join, split_strip; reflexivity. }
  assert (Hw : split normalized = words).
  { subst normalized words; rewrite split_normalize; apply split_strip. }
  assert (Hall : forall n, (length words <= n)%nat ->
                           normalized = join [SP] (firstn n words)).
  { intros n Hle; rewrite firstn_all2 by exact Hle; exact Hn. }
  assert (Hcut : forall n ft, ft = join [SP] (firstn n words) ->
                   split ft = firstn n words
                   /\ (length (split ft) <= n)%nat
                   /\ ((n < length words)%nat -> length (split ft) = n)).
  { intros n ft ->; unfold words; rewrite trimmed_words, length_firstn.
    repeat split; lia. }
  destruct Hin as [E | [E | []]]; injection E as <- <- <- <- <-.
  - rewrite (format_linkedin lower platform text hashtags Hp Hne); cbv zeta.
    fold normalized; rewrite Hw.
    destruct (220 <? N.of_nat (length words))%N eqn:E1;
      [apply N.ltb_lt in E1 | apply N.ltb_ge in E1;
       destruct (N.of_nat (length words) <? 80)%N eqn:E2;
       [apply N.ltb_lt in E2 | apply N.ltb_ge in E2]];
      eexists _, _; (split; [reflexivity|]); (split; [exact Hn|]);
      match goal with
      | |- ?x = ?y /\ _ =>
          assert (Hft : x = y); [first [reflexivity | apply Hall; lia]|]
      end;
      destruct (Hcut _ _ Hft) as [Hs [Hl He]];
      (split; [exact Hft|]); (split; [exact Hs|]); (split; [exact Hl|]);
      repeat split; intros; try reflexivity; try (apply He; lia); try lia.
  - rewrite (format_email lower platform text hashtags Hp Hne); cbv zeta.
    fold normalized; rewrite Hw.
    destruct (160 <? N.of_nat (length words))%N eqn:E1;
      [apply N.ltb_lt in E1 | apply N.ltb_ge in E1;
       destruct (N.of_nat (length words) <? 40)%N eqn:E2;
       [apply N.ltb_lt in E2 | apply N.ltb_ge in E2]];
      eexists _, _; (split; [reflexivity|]); (split; [exact Hn|]);
      match goal with
      | |- ?x = ?y /\ _ =>
          assert (Hft : x = y); [first [reflexivity | apply Hall; lia]|]
      end;
      destruct (Hcut _ _ Hft) as [Hs [Hl He]];
      (split; [exact Hft|]); (split; [exact Hs|]); (split; [exact Hl|]);
      repeat split; intros; try reflexivity; try (apply He; lia); try lia.
Qed.

Lemma word_limits_witness :
  In (lit "email", (40, 160)%nat,
      (lit "Trimmed email blurb to 160 words.",
       lit "Email blurb is quite short ("))
     [ (lit "linkedin", (80, 220)%nat,
        (lit "Trimmed LinkedIn post to 220 words.",
         lit "LinkedIn post is quite short ("));
       (lit "email", (40, 160)%nat,
        (lit "Trimmed email blurb to 160 words.",
         lit "Email blurb is quite short (")) ]
  /\ ascii_lower (lit "EMAIL") = lit "email"
  /\ strip two_hundred_words <> []
  /\ exists ft warning,
      platform_formatting_tool ascii_lower (lit "EMAIL") two_hundred_words None
      = Some (WordLimited (lit "email") ft warning)
      /\ (length (split ft) <= 160)%nat
      /\ length (split ft) = 160%nat
      /\ warning = Some (lit "Trimmed email blurb to 160 words.").
Proof.
  split; [right; left; reflexivity|].
  split; [reflexivity|].
  split; [vm_compute; discriminate|].
  destruct (word_limits ascii_lower (lit "EMAIL") two_hundred_words None
              (lit "email") 40 160
              (lit "Trimmed email blurb to 160 words.")
              (lit "Email blurb is quite short ("))
    as [ft [warning [E [_ [_ [_ [Hle [Htrim _]]]]]]]].
  - right; left; reflexivity.
  - reflexivity.
  - vm_compute; discriminate.
  - exists ft, warning. split; [exact E|]. split; [exact Hle|].
    assert (Hlen : (160 < length (split two_hundred_words))%nat)
      by (vm_compute; lia).
    destruct (Htrim Hlen) as [H160 Hwarn].
    split; [exact H160 | exact Hwarn].
Defined.

(** ** C8: hashtags *)

(** C8: on the Instagram branch, for every text that is not empty after
    trimming and every hashtag list, the [hashtag_block] that
    [platform_formatting_tool] returns is made as follows: each tag is
    trimmed, empty tags are dropped and [#] is prepended where it is
    missing; a tag is kept exactly when no earlier tag has the same
    lower-cased form, so the kept tags are in first-seen order with their
    original casing and pairwise different up to case; the block is the
    kept tags joined by single spaces, and it follows the caption after a
    blank line unless it is empty.  In particular "#Go", "go", "#GO" gives
    the one tag "#Go", and "marketing", "#Marketing", " growth " gives
    "#marketing #growth". *)
Theorem hashtag_normalisation :
  (forall (lower : str -> str) (platform text : str) (hashtags : list str),
     lower platform = lit "instagram" ->
     strip text <> [] ->
     let cleaned :=
       map with_hash
         (filter (fun t => negb (is_empty t)) (map strip hashtags)) in
     let kept := first_seen_from lower [] cleaned in
     NoDup (map lower kept)
     /\ incl kept cleaned
     /\ exists caption,
          platform_formatting_tool lower platform text (Some hashtags)
          = Some (InstagramPost (lit "instagram")
                    (if is_empty (join [SP] kept) then caption
                     else caption ++ [LF; LF] ++ join [SP] kept)
                    caption (join [SP] kept)))
  /\ platform_formatting_tool ascii_lower (lit "instagram") (lit "Hello")
       (Some [lit "#Go"; lit "go"; lit "#GO"])
     = Some (InstagramPost (lit "instagram")
               (lit "Hello" ++ [LF; LF] ++ lit "#Go") (lit "Hello")
               (lit "#Go"))
  /\ platform_formatting_tool ascii_lower (lit "instagram") (lit "Hello")
       (Some [lit "marketing"; lit "#Marketing"; lit " growth "])
     = Some (InstagramPost (lit "instagram")
               (lit "Hello" ++ [LF; LF] ++ lit "#marketing #growth")
               (lit "Hello") (lit "#marketing #growth")).
Proof.
  split.
  - intros lower platform text hashtags Hp Hne cleaned kept.
    assert (Ec : cleaned_tags hashtags = cleaned)
      by apply cleaned_tags_spec.
    assert (Ek : deduped_tags lower [] (cleaned_tags hashtags) = kept)
      by (unfold kept; rewrite <- Ec; apply deduped_first_seen; reflexivity).
    split; [rewrite <- Ek; apply deduped_fresh|].
    split; [rewrite <- Ek, <- Ec; apply deduped_incl|].
    rewrite (format_instagram lower platform text (Some hashtags) Hp Hne).
    cbv zeta. unfold hashtag_block. rewrite Ek.
    eexists. destruct (is_empty (join [SP] kept)); reflexivity.
  - split; vm_compute; reflexivity.
Qed.

Lemma hashtag_normalisation_witness :
  ascii_lower (lit "Instagram") = lit "instagram"
  /\ strip (lit " Hello ") <> []
  /\ exists caption,
       platform_formatting_tool ascii_lower (lit "Instagram") (lit " Hello ")
         (Some [lit " go "; lit ""; lit "#Go"; lit "#run"])
       = Some (InstagramPost (lit "instagram")
                 (caption ++ [LF; LF] ++ lit "#go #run") caption
                 (lit "#go #run")).
Proof.
  split; [reflexivity|].
  split; [vm_compute; discriminate|].
  destruct (proj1 hashtag_normalisation ascii_lower (lit "Instagram")
              (lit " Hello ")
              [lit " go "; lit ""; lit "#Go"; lit "#run"] eq_refl)
    as (_ & _ & caption & H).
  - vm_compute; discriminate.
  - exists caption. exact H.
Defined.

(** ** C9: the formatter does not raise *)

(** C9: the formatter returns a result on every input; for an unknown
    platform it is the whitespace-normalised text with the warning that no
    specific formatting was applied, and for a known platform with a text
    that is empty after trimming it is the placeholder
    "[EMPTY CONTENT] No text was provided to format." with a warning. *)
Theorem formatter_never_fails :
  forall (lower : str -> str) (platform text : str)
         (hashtags : option (list str)),
    (exists r, platform_formatting_tool lower platform text hashtags = Some r)
    /\ (~ In (lower platform) [lit "linkedin"; lit "instagram"; lit "email"] ->
        platform_formatting_tool lower platform text hashtags
        = Some (Warned (lower platform) (_normalize_whitespace text)
                  (lit "Unknown platform; no specific formatting applied.")))
    /\ (In (lower platform) [lit "linkedin"; lit "instagram"; lit "email"] ->
        strip text = [] ->
        platform_formatting_tool lower platform text hashtags
        = Some (Warned (lower platform)
                  (lit "[EMPTY CONTENT] No text was provided to format.")
                  (lit "Input text was empty."))).
Proof.
  intros lower platform text hashtags.
  split; [apply format_total|].
  split.
  - intros H; apply format_unknown, config_unknown;
      intros E; apply H; rewrite E; simpl; auto.
  - intros H E; apply format_empty; [apply config_known; exact H | exact E].
Qed.

Lemma formatter_never_fails_witness :
  (~ In (ascii_lower (lit "TikTok"))
        [lit "linkedin"; lit "instagram"; lit "email"]
   /\ platform_formatting_tool ascii_lower (lit "TikTok") spaced_text None
      = Some (Warned (lit "tiktok") (lit "a b c")
                (lit "Unknown platform; no specific formatting applied.")))
  /\ (In (ascii_lower (lit "Email"))
         [lit "linkedin"; lit "instagram"; lit "email"]
      /\ strip blank_text = []
      /\ platform_formatting_tool ascii_lower (lit "Email") blank_text None
         = Some (Warned (lit "email")
                   (lit "[EMPTY CONTENT] No text was provided to format.")
                   (lit "Input text was empty."))).
Proof.
  assert (Hu : ~ In (ascii_lower (lit "TikTok"))
                    [lit "linkedin"; lit "instagram"; lit "email"]).
  { vm_compute; intros [H | [H | [H | []]]]; discriminate H. }
  assert (Hk : In (ascii_lower (lit "Email"))
                  [lit "linkedin"; lit "instagram"; lit "email"]).
  { right; right; left; reflexivity. }
  split; split.
  - exact Hu.
  - exact (proj1 (proj2 (formatter_never_fails ascii_lower (lit "TikTok")
                           spaced_text None)) Hu).
  - exact Hk.
  - split; [reflexivity|].
    exact (proj2 (proj2 (formatter_never_fails ascii_lower (lit "Email")
                           blank_text None)) Hk eq_refl).
Defined.

(** ** C10: the fallback text and the clarity heuristic *)

(** C10: when all three attempts of [run_agent] raise and the text [e] of
    the last error does not contain "[FALLBACK]", the returned text is
    "[FALLBACK OUTPUT] Unable to generate content due to: " followed by [e];
    it does not contain "[FALLBACK]", so the scorer gives it clarity 0.6
    when it has fewer than 15 words and 0.8 otherwise, never 0.3. *)
Theorem fallback_output_keeps_clarity :
  forall (lower : str -> str) (is_word : char -> bool) (compensated : bool)
         (call : nat -> api_outcome) (e1 e2 e : str)
         (platform : str) (strategy : option str),
    call 1%nat = Raised e1 -> call 2%nat = Raised e2 ->
    call 3%nat = Raised e ->
    str_in (lit "[FALLBACK]") e = false ->
    let out := run_agent call in
    out = lit "[FALLBACK OUTPUT] Unable to generate content due to: " ++ e
    /\ str_in (lit "[FALLBACK]") out = false
    /\ dict_get
         (dimensions
            (quality_and_reach_scorer lower is_word compensated platform out
               strategy))
         (lit "clarity")
       = Some (Some (if (length (split out) <? 15)%nat then 0.6 else 0.8)).
Proof.
  intros lower is_word compensated call e1 e2 e platform strategy H1 H2 H3 He out.
  assert (Ho : out = fallback_output (Some e))
    by (apply run_agent_exhausted with (e1 := e1) (e2 := e2); assumption).
  assert (Hm : str_in FALLBACK_MARKER out = false)
    by (rewrite Ho, fallback_marker; exact He).
  split; [exact Ho | split; [exact Hm|]].
  assert (Hne : strip out <> []) by (rewrite Ho; apply fallback_nonempty).
  rewrite (scorer_dimensions lower is_word compensated platform out strategy Hne).
  unfold dimension_table; cbn [dict_get].
  replace (str_eqb (lit "clarity") (lit "clarity")) with true by reflexivity.
  unfold clarity.
  destruct (str_in FALLBACK_MARKER (strip out)) eqn:Hs.
  - apply str_in_strip in Hs; congruence.
  - rewrite split_normalize, split_strip; reflexivity.
Qed.

Lemma fallback_output_keeps_clarity_witness :
  str_in (lit "[FALLBACK]") (lit "Connection error.") = false
  /\ let out := run_agent (fun _ => Raised (lit "Connection error.")) in
     out = lit "[FALLBACK OUTPUT] Unable to generate content due to: "
           ++ lit "Connection error."
     /\ str_in (lit "[FALLBACK]") out = false
     /\ dict_get
          (dimensions
             (quality_and_reach_scorer ascii_lower ascii_word false
                (lit "linkedin") out None))
          (lit "clarity")
        = Some (Some (if (length (split out) <? 15)%nat then 0.6 else 0.8)).
Proof.
  split; [reflexivity|].
  apply (fallback_output_keeps_clarity ascii_lower ascii_word false
           (fun _ => Raised (lit "Connection error."))
           (lit "Connection error.") (lit "Connection error.")
           (lit "Connection error.") (lit "linkedin") None);
    reflexivity.
Defined.

(** * Further properties

    ** The order of strings and [sorted(set(...))] *)

Lemma str_compare_eq (a b : str) : str_compare a b = Eq <-> a = b.
Proof.
  revert b; induction a as [|x a IH]; intros [|y b]; simpl;
    try (split; [discriminate | discriminate]); [tauto|].
  destruct (x ?= y)%N eqn:E.
  - apply N.compare_eq in E; subst y. rewrite IH.
    split; [intros ->; reflexivity | intros H; injection H; auto].
  - split; [discriminate|]. intros H; injection H as -> _.
    rewrite N.compare_refl in E; discriminate.
  - split; [discriminate|]. intros H; injection H as -> _.
    rewrite N.compare_refl in E; discriminate.
Qed.

Lemma str_compare_antisym (a b : str) :
  str_compare b a = CompOpp (str_compare a b).
Proof.
  revert b; induction a as [|x a IH]; intros [|y b]; simpl; try reflexivity.
  rewrite (N.compare_antisym x y).
  destruct (x ?= y)%N; simpl; auto.
Qed.

Lemma str_lt_irrefl (a : str) : ~ str_lt a a.
Proof.
  unfold str_lt; intros H.
  rewrite (proj2 (str_compare_eq a a) eq_refl) in H; discriminate.
Qed.

Lemma str_lt_trans (a b c : str) : str_lt a b -> str_lt b c -> str_lt a c.
Proof.
  unfold str_lt; revert b c; induction a as [|x a IH]; intros [|y b] [|z c];
    simpl; try discriminate; auto.
  destruct (x ?= y)%N eqn:Exy; try discriminate.
  - apply N.compare_eq in Exy; subst y.
    destruct (x ?= z)%N; try discriminate; auto. apply IH.
  - intros _. destruct (y ?= z)%N eqn:Eyz; try discriminate.
    + apply N.compare_eq in Eyz; subst z. rewrite Exy; reflexivity.
    + intros _. rewrite N.compare_lt_iff in Exy, Eyz.
      assert (H : (x < z)%N) by lia.
      rewrite (proj2 (N.compare_lt_iff x z) H); reflexivity.
Qed.

Lemma str_gt_lt (a b : str) : str_compare a b = Gt -> str_lt b a.
Proof.
  unfold str_lt; intros H; rewrite str_compare_antisym, H; reflexivity.
Qed.

Lemma insert_sorted_In (x y : str) (l : list str) :
  In y (insert_sorted x l) <-> y = x \/ In y l.
Proof.
  induction l as [|z r IH]; simpl; [intuition|].
  destruct (str_compare x z) eqn:E; simpl.
  - apply str_compare_eq in E; subst z. intuition.
  - intuition.
  - rewrite IH; intuition.
Qed.

Lemma insert_sorted_HdRel (x y : str) (l : list str) :
  str_lt y x -> HdRel str_lt y l -> HdRel str_lt y (insert_sorted x l).
Proof.
  intros Hyx Hl; destruct l as [|z r]; simpl; [constructor; exact Hyx|].
  inversion Hl; subst.
  destruct (str_compare x z); constructor; assumption.
Qed.

Lemma insert_sorted_Sorted (x : str) (l : list str) :
  Sorted str_lt l -> Sorted str_lt (insert_sorted x l).
Proof.
  induction 1 as [|z r Hr IH Hz]; simpl; [repeat constructor|].
  destruct (str_compare x z) eqn:E.
  - constructor; assumption.
  - constructor; [constructor; assumption | constructor; exact E].
  - constructor; [exact IH|].
    apply insert_sorted_HdRel; [apply str_gt_lt; exact E | exact Hz].
Qed.

(** [sorted(set(l))] is strictly ascending and has the elements of [l]. *)
Lemma sorted_set_sorted (l : list str) : StronglySorted str_lt (sorted_set l).
Proof.
  apply Sorted_StronglySorted; [intros a b c; apply str_lt_trans|].
  induction l as [|x l IH]; simpl; [constructor|].
  apply insert_sorted_Sorted; exact IH.
Qed.

Lemma sorted_set_In (l : list str) (x : str) : In x (sorted_set l) <-> In x l.
Proof.
  induction l as [|y l IH]; simpl; [tauto|].
  rewrite insert_sorted_In, IH; intuition.
Qed.

Lemma StronglySorted_firstn (n : nat) (l : list str) :
  StronglySorted str_lt l -> StronglySorted str_lt (firstn n l).
Proof.
  intros H; revert n; induction H as [|x l Hl IH Hx]; intros [|n]; simpl;
    constructor; auto.
  apply Forall_firstn; exact Hx.
Qed.

Lemma StronglySorted_NoDup (l : list str) :
  StronglySorted str_lt l -> NoDup l.
Proof.
  induction 1 as [|x l Hl IH Hx]; constructor; [|exact IH].
  intros Hin. rewrite Forall_forall in Hx.
  exact (str_lt_irrefl x (Hx x Hin)).
Qed.

Lemma In_firstn {A : Type} (n : nat) (l : list A) (x : A) :
  In x (firstn n l) -> In x l.
Proof.
  revert n; induction l as [|y l IH]; intros [|n]; simpl; try tauto.
  intros [H | H]; [left; exact H | right; exact (IH n H)].
Qed.

Lemma firstn_firstn_le {A : Type} (m n : nat) (l : list A) :
  (m <= n)%nat -> firstn m (firstn n l) = firstn m l.
Proof. intros H; rewrite firstn_firstn, Nat.min_l by exact H; reflexivity. Qed.

Lemma is_empty_true (s : str) : is_empty s = true -> s = [].
Proof. destruct s; simpl; congruence. Qed.

(** A text has no word exactly when nothing is left of it after
    normalising. *)
Lemma normalize_empty (s : str) :
  _normalize_whitespace s = [] <-> split s = [].
Proof.
  rewrite normalize_join. split.
  - intros H. pose proof (split_wordy s) as Hw.
    destruct (split s) as [|w ws]; [reflexivity|].
    destruct (join_words_ends (w :: ws) Hw) as [[c [x [E _]]] _];
      [discriminate|].
    rewrite H in E; discriminate.
  - intros ->; reflexivity.
Qed.

(** ** The two helper tools *)

(** X1: [topic_research_tool] returns the normalised topic; its keywords
    are strictly ascending (so pairwise different), at most eight, and each
    is the lower-cased, punctuation-trimmed form of a word of the topic
    longer than three code points; the angles are the tips for the first
    three keywords; a topic without a word gives the empty result. *)
Theorem topic_research_keywords :
  forall (lower : str -> str) (text : str),
    let r := topic_research_tool lower text in
    topic r = join [SP] (split text)
    /\ StronglySorted str_lt (keywords r)
    /\ NoDup (keywords r)
    /\ (length (keywords r) <= 8)%nat
    /\ (forall k, In k (keywords r) ->
          exists w, In w (split text) /\ (3 < length w)%nat
                    /\ k = lower (strip_chars PUNCTUATION w))
    /\ angles r = map (fun w => lit "Practical tips about " ++ w)
                      (firstn 3 (keywords r))
    /\ (split text = [] ->
          keywords r = [] /\ angles r = []
          /\ notes r = lit "No topic provided.").
Proof.
  intros lower text r; subst r; unfold topic_research_tool.
  destruct (is_empty (_normalize_whitespace text)) eqn:He.
  - apply is_empty_true in He.
    pose proof (proj1 (normalize_empty text) He) as Hs.
    simpl; rewrite Hs.
    repeat split; try constructor; try lia; try (intros k []).
  - assert (Hne : split text <> []).
    { intros Hs; apply normalize_empty in Hs; rewrite Hs in He; discriminate. }
    cbv zeta; cbn [topic keywords angles notes].
    rewrite split_normalize.
    match goal with |- context [sorted_set ?w] => set (words := w) end.
    pose proof (sorted_set_sorted words) as Hsorted.
    split; [apply normalize_join|].
    split; [apply StronglySorted_firstn; exact Hsorted|].
    split; [apply StronglySorted_NoDup, StronglySorted_firstn; exact Hsorted|].
    split; [rewrite length_firstn; lia|].
    split.
    { intros k Hk. apply In_firstn in Hk.
      apply (proj1 (sorted_set_In _ _)) in Hk.
      unfold words in Hk; apply in_map_iff in Hk as [w [Ek Hw]].
      apply filter_In in Hw as [Hw Hlen]. apply Nat.ltb_lt in Hlen.
      exists w; auto. }
    split; [rewrite firstn_firstn_le by lia; reflexivity|].
    intros Hs; contradiction.
Qed.

(** X2: [keyword_and_hook_mapper_tool] returns at most ten strictly
    ascending keywords, each longer than three code points, none a stop
    word, each the lower-cased, punctuation-trimmed form of a token of the
    text; for a text with a word the hooks are at most two optional hooks
    followed by the two fixed ones (nothing is cut by the limit of four);
    a text without a word gives no keyword and no hook. *)
Theorem mapper_keywords_and_hooks :
  forall (lower : str -> str) (text : str),
    let r := keyword_and_hook_mapper_tool lower text in
    StronglySorted str_lt (mapper_keywords r)
    /\ (length (mapper_keywords r) <= 10)%nat
    /\ (forall k, In k (mapper_keywords r) ->
          (3 < length k)%nat /\ ~ In k stopwords
          /\ exists t, In t (split text)
                       /\ k = lower (strip_chars PUNCTUATION t))
    /\ (split text <> [] ->
          exists optional,
            hooks r
            = optional
              ++ [lit "Use a concrete scenario your audience relates to.";
                  lit "Highlight a pain point in the first line."]
            /\ (length optional <= 2)%nat)
    /\ (split text = [] -> mapper_keywords r = [] /\ hooks r = []).
Proof.
  intros lower text r; subst r; unfold keyword_and_hook_mapper_tool.
  destruct (is_empty (_normalize_whitespace text)) eqn:He.
  - apply is_empty_true in He.
    pose proof (proj1 (normalize_empty text) He) as Hs.
    simpl.
    repeat split; try constructor; try lia; try contradiction;
      try (intros k []).
  - assert (Hne : split text <> []).
    { intros Hs; apply normalize_empty in Hs; rewrite Hs in He; discriminate. }
    cbv zeta; cbn [mapper_keywords hooks].
    rewrite split_normalize.
    match goal with |- context [sorted_set ?w] => set (kws := sorted_set w) end.
    split; [apply StronglySorted_firstn, sorted_set_sorted|].
    split; [rewrite length_firstn; lia|].
    split.
    { intros k Hk. apply In_firstn in Hk. unfold kws in Hk.
      apply (proj1 (sorted_set_In _ _)) in Hk.
      apply filter_In in Hk as [Hk Hc].
      apply andb_true_iff in Hc as [Hlen Hstop].
      apply Nat.ltb_lt in Hlen. apply negb_true_iff in Hstop.
      split; [exact Hlen|]. split.
      - intros Hin. apply set_mem_In in Hin. congruence.
      - apply in_map_iff in Hk as [t [Ek Ht]]. exists t; auto. }
    split; [|intros Hs; contradiction].
    intros _.
    destruct (str_in (lit "?") _), (str_in (lit "story") _);
      [ exists [lit "Start with a question to draw the reader in.";
                lit "Open with a short story-based hook."]
      | exists [lit "Start with a question to draw the reader in."]
      | exists [lit "Open with a short story-based hook."]
      | exists [] ];
      (split; [reflexivity | simpl; lia]).
Qed.

(** ** The normaliser *)

Lemma split_nil_spaces (s : str) : split s = [] <-> forallb is_space s = true.
Proof.
  split; [|apply split_spaces].
  induction s as [|c s IH]; [reflexivity|].
  intros H. destruct (is_space c) eqn:Hc.
  - simpl in *; rewrite Hc in *; auto.
  - exfalso; exact (split_head_nonspace c s Hc H).
Qed.

Lemma lstrip_spaces (s : str) : forallb is_space s = true -> lstrip s = [].
Proof.
  induction s as [|c s IH]; simpl; [reflexivity|].
  rewrite andb_true_iff; intros [-> H]; auto.
Qed.

Lemma strip_nil_split (s : str) : strip s = [] <-> split s = [].
Proof.
  rewrite <- (split_strip s). split; [intros ->; reflexivity|].
  intros H. destruct (strip s) as [|c r] eqn:E; [reflexivity|].
  exfalso. refine (split_head_nonspace c r _ H).
  unfold strip, rstrip in E.
  destruct (lstrip_split s) as [a [Ea _]].
  destruct (rstrip_split (lstrip s)) as [b [Eb _]].
  unfold rstrip in Eb; rewrite E in Eb.
  apply (lstrip_head s c (r ++ b)). exact Eb.
Qed.

Lemma strip_join_words (ws : list str) :
  Forall wordy ws -> strip (join [SP] ws) = join [SP] ws.
Proof.
  intros Hw.
  rewrite <- (app_nil_r (join [SP] ws)) at 1.
  change (strip ((join [SP] ws) ++ [])) with (strip ([] ++ join [SP] ws ++ [])).
  apply strip_padded; try reflexivity.
  destruct ws as [|w ws']; [left; reflexivity|].
  right; apply join_words_ends; [exact Hw | discriminate].
Qed.

Lemma strip_idempotent (s : str) : strip (strip s) = strip s.
Proof.
  destruct (strip s) as [|c r] eqn:E; [reflexivity|].
  rewrite <- E.
  rewrite <- (app_nil_r (strip s)) at 1.
  change (strip (strip s ++ [])) with (strip ([] ++ strip s ++ [])).
  apply strip_padded; try reflexivity.
  right; split.
  - exists c, r; split; [exact E|].
    unfold strip, rstrip in E.
    destruct (rstrip_split (lstrip s)) as [b [Eb _]].
    unfold rstrip in Eb; rewrite E in Eb.
    exact (lstrip_head s c (r ++ b) Eb).
  - assert (Hne : strip s <> []) by (rewrite E; discriminate).
    destruct (nonempty_last _ Hne) as [y [d Ed]].
    exists y, d; split; [exact Ed | exact (strip_last s y d Ed)].
Qed.

(** X3: [_normalize_whitespace] returns the words of the text joined by
    single spaces; normalising twice changes nothing, the result has no
    whitespace at either end, and it is empty exactly for a text of
    whitespace only. *)
Theorem normalize_whitespace_contract :
  forall s : str,
    _normalize_whitespace s = join [SP] (split s)
    /\ _normalize_whitespace (_normalize_whitespace s)
       = _normalize_whitespace s
    /\ strip (_normalize_whitespace s) = _normalize_whitespace s
    /\ split (_normalize_whitespace s) = split s
    /\ (_normalize_whitespace s = [] <-> forallb is_space s = true).
Proof.
  intros s. pose proof (split_wordy s) as Hw.
  split; [apply normalize_join|].
  split; [rewrite !normalize_join, split_join by exact Hw; reflexivity|].
  split; [rewrite normalize_join; apply strip_join_words; exact Hw|].
  split; [apply split_normalize|].
  rewrite normalize_empty; apply split_nil_spaces.
Qed.

(** ** The formatter on its own output *)

Lemma join_words_nonempty (ws : list str) :
  Forall wordy ws -> ws <> [] -> join [SP] ws <> [].
Proof.
  intros Hw Hne E.
  destruct (join_words_ends ws Hw Hne) as [[c [x [E' _]]] _].
  rewrite E in E'; discriminate.
Qed.

Lemma format_words_text (lower : str -> str) platform text hashtags name max_w :
  In (name, max_w) [(lit "linkedin", 220%nat); (lit "email", 160%nat)] ->
  lower platform = name ->
  strip text <> [] ->
  exists warning,
    platform_formatting_tool lower platform text hashtags
    = Some (WordLimited name (join [SP] (firstn max_w (split text))) warning).
Proof.
  intros Hin Hp Hne.
  assert (Hn : _normalize_whitespace (strip text) = join [SP] (split text))
    by (rewrite normalize_join, split_strip; reflexivity).
  assert (Hw : split (_normalize_whitespace (strip text)) = split text)
    by (rewrite split_normalize; apply split_strip).
  destruct Hin as [E | [E | []]]; injection E as <- <-.
  - rewrite (format_linkedin lower platform text hashtags Hp Hne); cbv zeta.
    rewrite Hw, Hn.
    destruct (220 <? N.of_nat (length (split text)))%N eqn:E1;
      [eexists; reflexivity|].
    apply N.ltb_ge in E1.
    rewrite (firstn_all2 (n := 220) (split text)) by lia.
    destruct (N.of_nat (length (split text)) <? 80)%N; eexists; reflexivity.
  - rewrite (format_email lower platform text hashtags Hp Hne); cbv zeta.
    rewrite Hw, Hn.
    destruct (160 <? N.of_nat (length (split text)))%N eqn:E1;
      [eexists; reflexivity|].
    apply N.ltb_ge in E1.
    rewrite (firstn_all2 (n := 160) (split text)) by lia.
    destruct (N.of_nat (length (split text)) <? 40)%N; eexists; reflexivity.
Qed.

(** On linkedin and email every output is a non-empty list of at most
    [max_w] words joined by single spaces. *)
Lemma word_limited_output (lower : str -> str) platform text hashtags name
    max_w r :
  In (name, max_w) [(lit "linkedin", 220%nat); (lit "email", 160%nat)] ->
  lower platform = name ->
  platform_formatting_tool lower platform text hashtags = Some r ->
  exists ws, ws <> [] /\ Forall wordy ws /\ (length ws <= max_w)%nat
             /\ formatted_text r = join [SP] ws.
Proof.
  intros Hin Hp Hr.
  destruct (strip text) as [|c t] eqn:Hs.
  - assert (Hk : dict_mem PLATFORM_CONFIG (lower platform) = true).
    { rewrite Hp. destruct Hin as [E | [E | []]]; injection E as <- _;
        reflexivity. }
    rewrite (format_empty lower platform text hashtags Hk Hs) in Hr.
    injection Hr as <-.
    exists (split (lit "[EMPTY CONTENT] No text was provided to format.")).
    split; [vm_compute; discriminate|].
    split; [apply split_wordy|].
    split; [|vm_compute; reflexivity].
    destruct Hin as [E | [E | []]]; injection E as _ <-; vm_compute; lia.
  - assert (Hne : strip text <> []) by (rewrite Hs; discriminate).
    destruct (format_words_text lower platform text hashtags name max_w
                Hin Hp Hne) as [w Hw].
    rewrite Hw in Hr; injection Hr as <-.
    exists (firstn max_w (split text)).
    split.
    { assert (H1 : split text <> [])
        by (intros E; apply strip_nil_split in E; contradiction).
      destruct (split text); [congruence|].
      destruct Hin as [E | [E | []]]; injection E as _ <-; discriminate. }
    split; [apply Forall_firstn, split_wordy|].
    split; [rewrite length_firstn; lia | reflexivity].
Qed.

(** X4: on linkedin and email the formatter is idempotent on the text:
    formatting a formatted text again returns the same text. *)
Theorem word_limit_idempotent :
  forall (lower : str -> str) (platform text : str)
         (hashtags hashtags' : option (list str)) (r : FormatResult),
    In (lower platform) [lit "linkedin"; lit "email"] ->
    platform_formatting_tool lower platform text hashtags = Some r ->
    exists r',
      platform_formatting_tool lower platform (formatted_text r) hashtags'
      = Some r'
      /\ formatted_text r' = formatted_text r.
Proof.
  intros lower platform text hashtags hashtags' r Hp Hr.
  assert (Hin : exists max_w,
             In (lower platform, max_w)
                [(lit "linkedin", 220%nat); (lit "email", 160%nat)]).
  { destruct Hp as [E | [E | []]]; rewrite <- E;
      [exists 220%nat; left | exists 160%nat; right; left]; reflexivity. }
  destruct Hin as [max_w Hin].
  destruct (word_limited_output lower platform text hashtags _ max_w r
              Hin eq_refl Hr) as [ws [Hne [Hw [Hlen Hft]]]].
  assert (Hs : strip (formatted_text r) <> []).
  { rewrite Hft, strip_join_words by exact Hw.
    apply join_words_nonempty; assumption. }
  destruct (format_words_text lower platform (formatted_text r) hashtags'
              _ max_w Hin eq_refl Hs) as [w' Hw'].
  eexists; split; [exact Hw'|].
  simpl. rewrite Hft, split_join by exact Hw.
  rewrite firstn_all2 by exact Hlen; reflexivity.
Qed.

Lemma word_limit_idempotent_witness :
  In (ascii_lower (lit "LinkedIn")) [lit "linkedin"; lit "email"]
  /\ platform_formatting_tool ascii_lower (lit "LinkedIn") spaced_text None
     = Some (WordLimited (lit "linkedin") (lit "a b c")
               (Some (lit "LinkedIn post is quite short (3 words).")))
  /\ exists r',
      platform_formatting_tool ascii_lower (lit "LinkedIn") (lit "a b c")
        (Some [lit "x"]) = Some r'
      /\ formatted_text r' = lit "a b c".
Proof.
  assert (Hp : In (ascii_lower (lit "LinkedIn")) [lit "linkedin"; lit "email"])
    by (left; reflexivity).
  assert (Hr : platform_formatting_tool ascii_lower (lit "LinkedIn")
                 spaced_text None
               = Some (WordLimited (lit "linkedin") (lit "a b c")
                         (Some (lit "LinkedIn post is quite short (3 words)."))))
    by (vm_compute; reflexivity).
  split; [exact Hp | split; [exact Hr|]].
  exact (word_limit_idempotent ascii_lower (lit "LinkedIn") spaced_text None
           (Some [lit "x"]) _ Hp Hr).
Defined.

Lemma splitlines_head (c : char) (t : str) :
  is_linebreak c = false ->
  exists l ls, splitlines (c :: t) = (c :: l) :: ls.
Proof.
  intros Hc; simpl; rewrite Hc.
  destruct t as [|d t']; [exists [], []; reflexivity|].
  destruct (splitlines (d :: t')) as [|l ls]; simpl;
    [exists [], [] | exists l, ls]; reflexivity.
Qed.

Lemma join_head (sep : str) (c : char) (l : str) (ls : list str) :
  exists x, join sep ((c :: l) :: ls) = c :: x.
Proof. destruct ls; simpl; eexists; reflexivity. Qed.

(** The caption of a trimmed, non-empty text is not empty. *)
Lemma caption_nonempty (t : str) :
  t <> [] -> is_space (hd SP t) = false ->
  let lines := splitlines t in
  let caption :=
    if (10 <? N.of_nat (length lines))%N
    then join [LF] (firstn 10 lines) else t in
  let caption :=
    if (2200 <? N.of_nat (length caption))%N
    then firstn 2200 caption else caption in
  caption <> [].
Proof.
  intros Hne Hhd lines caption0 caption.
  destruct t as [|c t']; [congruence|]. simpl in Hhd.
  assert (Hc : is_linebreak c = false).
  { destruct (is_linebreak c) eqn:E; [|reflexivity].
    apply linebreak_is_space in E; congruence. }
  assert (H0 : exists x, caption0 = c :: x).
  { subst caption0. destruct (10 <? N.of_nat (length lines))%N.
    - subst lines. destruct (splitlines_head c t' Hc) as [l [ls ->]].
      change (firstn 10 ((c :: l) :: ls)) with ((c :: l) :: firstn 9 ls).
      apply join_head.
    - eexists; reflexivity. }
  destruct H0 as [x Hx]. subst caption; rewrite Hx.
  destruct (2200 <? N.of_nat (length (c :: x)))%N; discriminate.
Qed.

Lemma strip_hd (s : str) : strip s <> [] -> is_space (hd SP (strip s)) = false.
Proof.
  intros Hne. destruct (strip s) as [|c r] eqn:E; [congruence|]. simpl.
  unfold strip in E.
  destruct (rstrip_split (lstrip s)) as [b [Eb _]].
  rewrite E in Eb. exact (lstrip_head s c (r ++ b) Eb).
Qed.

(** X5: on the three known platforms the formatted text is never empty,
    whatever the input text and hashtags are. *)
Theorem formatted_text_never_empty :
  forall (lower : str -> str) (platform text : str)
         (hashtags : option (list str)) (r : FormatResult),
    In (lower platform) [lit "linkedin"; lit "instagram"; lit "email"] ->
    platform_formatting_tool lower platform text hashtags = Some r ->
    formatted_text r <> [].
Proof.
  intros lower platform text hashtags r Hp Hr.
  destruct Hp as [E | [E | [E | []]]]; symmetry in E.
  - destruct (word_limited_output lower platform text hashtags _ 220%nat r
                (or_introl eq_refl) E Hr) as [ws [Hne [Hw [_ ->]]]].
    apply join_words_nonempty; assumption.
  - destruct (strip text) as [|c t] eqn:Hs.
    + rewrite (format_empty lower platform text hashtags) in Hr;
        [injection Hr as <-; discriminate | rewrite E; reflexivity | exact Hs].
    + assert (Hne : strip text <> []) by (rewrite Hs; discriminate).
      rewrite (format_instagram lower platform text hashtags E Hne) in Hr.
      cbv zeta in Hr. injection Hr as <-.
      pose proof (caption_nonempty (strip text) Hne (strip_hd text Hne)) as Hc.
      cbv zeta in Hc. simpl formatted_text.
      destruct (negb (is_empty (hashtag_block lower hashtags)));
        [|exact Hc].
      intros H; apply app_eq_nil in H as [H _]; exact (Hc H).
  - destruct (word_limited_output lower platform text hashtags _ 160%nat r
                (or_intror (or_introl eq_refl)) E Hr)
      as [ws [Hne [Hw [_ ->]]]].
    apply join_words_nonempty; assumption.
Qed.

Lemma formatted_text_never_empty_witness :
  In (ascii_lower (lit "Instagram"))
     [lit "linkedin"; lit "instagram"; lit "email"]
  /\ platform_formatting_tool ascii_lower (lit "Instagram") blank_text None
     = Some (Warned (lit "instagram")
               (lit "[EMPTY CONTENT] No text was provided to format.")
               (lit "Input text was empty."))
  /\ lit "[EMPTY CONTENT] No text was provided to format." <> [].
Proof.
  assert (Hp : In (ascii_lower (lit "Instagram"))
                  [lit "linkedin"; lit "instagram"; lit "email"])
    by (right; left; reflexivity).
  split; [exact Hp | split; [reflexivity|]].
  exact (formatted_text_never_empty ascii_lower (lit "Instagram") blank_text
           None _ Hp eq_refl).
Defined.

(** ** The formatter followed by the scorer *)

Lemma length_app_within (name : str) (min_w max_w n : nat) :
  In (name, (min_w, max_w))
     [(lit "linkedin", (80, 220)%nat); (lit "email", (40, 160)%nat)] ->
  (n <= max_w)%nat ->
  length_appropriateness name n = if (n <? min_w)%nat then 0.5 else 0.9.
Proof.
  intros Hin Hn; destruct Hin as [E | [E | []]]; injection E as <- <- <-.
  - change (length_appropriateness (lit "linkedin") n)
      with (if (N.of_nat n <? 80)%N then 0.5
            else if (220 <? N.of_nat n)%N then 0.6 else 0.9).
    destruct (N.of_nat n <? 80)%N eqn:E1, (n <? 80)%nat eqn:E2;
      try reflexivity;
      try (apply N.ltb_lt in E1; apply Nat.ltb_ge in E2; lia);
      try (apply N.ltb_ge in E1; apply Nat.ltb_lt in E2; lia).
    destruct (220 <? N.of_nat n)%N eqn:E3; [|reflexivity].
    apply N.ltb_lt in E3; lia.
  - change (length_appropriateness (lit "email") n)
      with (if (N.of_nat n <? 40)%N then 0.5
            else if (160 <? N.of_nat n)%N then 0.6 else 0.9).
    destruct (N.of_nat n <? 40)%N eqn:E1, (n <? 40)%nat eqn:E2;
      try reflexivity;
      try (apply N.ltb_lt in E1; apply Nat.ltb_ge in E2; lia);
      try (apply N.ltb_ge in E1; apply Nat.ltb_lt in E2; lia).
    destruct (160 <? N.of_nat n)%N eqn:E3; [|reflexivity].
    apply N.ltb_lt in E3; lia.
Qed.

(** X6: a text formatted for linkedin or email is never scored as too long
    on that platform: its [length_appropriateness] is 0.5 when it has fewer
    words than the platform's minimum and 0.9 otherwise. *)
Theorem formatted_text_not_too_long :
  forall (lower : str -> str) (is_word : char -> bool) (compensated : bool)
         (p1 p2 text : str) (hashtags : option (list str))
         (strategy : option str) (name : str) (min_w max_w : nat)
         (r : FormatResult),
    In (name, (min_w, max_w))
       [(lit "linkedin", (80, 220)%nat); (lit "email", (40, 160)%nat)] ->
    lower p1 = name -> lower p2 = name ->
    platform_formatting_tool lower p1 text hashtags = Some r ->
    dict_get
      (dimensions
         (quality_and_reach_scorer lower is_word compensated p2 (formatted_text r)
            strategy))
      (lit "length_appropriateness")
    = Some (Some (if (length (split (formatted_text r)) <? min_w)%nat
                  then 0.5 else 0.9)).
Proof.
  intros lower is_word compensated p1 p2 text hashtags strategy name min_w max_w r
         Hin Hp1 Hp2 Hr.
  assert (Hin' : In (name, max_w)
                    [(lit "linkedin", 220%nat); (lit "email", 160%nat)]).
  { destruct Hin as [E | [E | []]]; injection E as <- <- <-;
      [left | right; left]; reflexivity. }
  destruct (word_limited_output lower p1 text hashtags name max_w r
              Hin' Hp1 Hr) as [ws [Hne [Hw [Hlen Hft]]]].
  assert (Hs : strip (formatted_text r) <> []).
  { rewrite Hft, strip_join_words by exact Hw.
    apply join_words_nonempty; assumption. }
  rewrite (scorer_dimensions lower is_word compensated p2 _ strategy Hs).
  unfold dimension_table; cbn [dict_get].
  replace (str_eqb (lit "length_appropriateness") (lit "clarity"))
    with false by reflexivity.
  replace (str_eqb (lit "length_appropriateness") (lit "tone_match"))
    with false by reflexivity.
  replace (str_eqb (lit "length_appropriateness")
             (lit "length_appropriateness")) with true by reflexivity.
  rewrite split_normalize, split_strip, Hp2.
  rewrite (length_app_within name min_w max_w _ Hin); [reflexivity|].
  rewrite Hft, split_join by exact Hw. exact Hlen.
Qed.

Lemma formatted_text_not_too_long_witness :
  In (lit "email", (40, 160)%nat)
     [(lit "linkedin", (80, 220)%nat); (lit "email", (40, 160)%nat)]
  /\ ascii_lower (lit "EMAIL") = lit "email"
  /\ ascii_lower (lit "email") = lit "email"
  /\ platform_formatting_tool ascii_lower (lit "EMAIL") two_hundred_words None
     = Some (WordLimited (lit "email")
               (join [SP] (repeat [0x61%N] 160))
               (Some (lit "Trimmed email blurb to 160 words.")))
  /\ dict_get
       (dimensions
          (quality_and_reach_scorer ascii_lower ascii_word false
             (lit "email") (join [SP] (repeat [0x61%N] 160)) None))
       (lit "length_appropriateness")
     = Some (Some 0.9).
Proof.
  assert (Hr : platform_formatting_tool ascii_lower (lit "EMAIL")
                 two_hundred_words None
               = Some (WordLimited (lit "email")
                         (join [SP] (repeat [0x61%N] 160))
                         (Some (lit "Trimmed email blurb to 160 words."))))
    by (vm_compute; reflexivity).
  split; [right; left; reflexivity|].
  split; [reflexivity|]. split; [reflexivity|]. split; [exact Hr|].
  refine (eq_trans
            (formatted_text_not_too_long ascii_lower ascii_word false
               (lit "EMAIL") (lit "email") two_hundred_words None None
               (lit "email") 40 160 _
               (or_intror (or_introl eq_refl)) eq_refl eq_refl Hr) _).
  vm_compute; reflexivity.
Defined.

(** ** The range of the score *)

Lemma score_nonempty_bounds (lower : str -> str) (is_word : char -> bool)
    (compensated : bool) (platform text : str) (strategy : option str) :
  strip text <> [] ->
  55 # 100
  <= score (quality_and_reach_scorer lower is_word compensated platform text
              strategy)
  /\ score (quality_and_reach_scorer lower is_word compensated platform text
              strategy)
     <= 86 # 100.
Proof.
  intros Hne.
  destruct (scorer_table lower is_word compensated platform text strategy
              Hne)
    as (c & l & h & q & hr & Hc & Hl & Hh & Hq & Hr & _ & _ & Hsc).
  rewrite Hsc. apply table_score_bounds; assumption.
Qed.

(** X7: the score is always between 0 and 0.86, and at least 0.55 for a
    text that is not empty after trimming. *)
Theorem score_range :
  forall (lower : str -> str) (is_word : char -> bool) (compensated : bool)
         (platform text : str) (strategy : option str),
    let r := quality_and_reach_scorer lower is_word compensated platform text
               strategy in
    0 <= score r /\ score r <= 0.86
    /\ (strip text <> [] -> 0.55 <= score r).
Proof.
  intros lower is_word compensated platform text strategy r.
  destruct (strip text) as [|c t] eqn:Hs.
  - subst r; rewrite (scorer_empty lower is_word compensated _ _ strategy Hs).
    simpl. repeat split; try (apply Qle_bool_imp_le; reflexivity).
    intros H; congruence.
  - assert (Hne : strip text <> []) by (rewrite Hs; discriminate).
    destruct (score_nonempty_bounds lower is_word compensated platform text
                strategy Hne) as [Hlo Hhi].
    split; [|split; [exact Hhi | intros _; exact Hlo]].
    eapply Qle_trans; [|exact Hlo]. apply Qle_bool_imp_le; reflexivity.
Qed.

(** ** What the scorer ignores *)

Lemma strip_padding (a t b : str) :
  forallb is_space a = true -> forallb is_space b = true ->
  strip (a ++ t ++ b) = strip t.
Proof.
  intros Ha Hb.
  destruct (strip_split t) as [a' [b' [E [Ha' Hb']]]].
  rewrite E at 1.
  replace (a ++ (a' ++ strip t ++ b') ++ b)
    with ((a ++ a') ++ strip t ++ (b' ++ b))
    by (rewrite <- !app_assoc; reflexivity).
  apply strip_padded.
  - rewrite forallb_app, Ha, Ha'; reflexivity.
  - rewrite forallb_app, Hb, Hb'; reflexivity.
  - destruct (strip t) as [|c r] eqn:Es; [left; reflexivity|].
    right. rewrite <- Es.
    assert (Hne : strip t <> []) by (rewrite Es; discriminate).
    split.
    + exists c, r; split; [exact Es|].
      pose proof (strip_hd t Hne) as H; rewrite Es in H; exact H.
    + destruct (nonempty_last _ Hne) as [y [d Ed]].
      exists y, d; split; [exact Ed | exact (strip_last t y d Ed)].
Qed.

(** X8: whitespace around the text and the strategy argument do not change
    the scorer's result. *)
Theorem scorer_ignores_padding :
  forall (lower : str -> str) (is_word : char -> bool) (compensated : bool)
         (platform before text after : str) (strategy strategy' : option str),
    forallb is_space before = true ->
    forallb is_space after = true ->
    quality_and_reach_scorer lower is_word compensated platform
      (before ++ text ++ after) strategy
    = quality_and_reach_scorer lower is_word compensated platform text strategy'.
Proof.
  intros lower is_word compensated platform before text after strategy strategy'
         Ha Hb.
  unfold quality_and_reach_scorer.
  rewrite (strip_padding before text after Ha Hb); reflexivity.
Qed.

Lemma scorer_ignores_padding_witness :
  forallb is_space blank_text = true
  /\ forallb is_space [LF] = true
  /\ quality_and_reach_scorer ascii_lower ascii_word false (lit "email")
       (blank_text ++ lit "Join us today" ++ [LF]) (Some (lit "notes"))
     = quality_and_reach_scorer ascii_lower ascii_word false (lit "email")
         (lit "Join us today") None.
Proof.
  split; [reflexivity | split; [reflexivity|]].
  apply (scorer_ignores_padding ascii_lower ascii_word false (lit "email")
           blank_text (lit "Join us today") [LF]); reflexivity.
Defined.

(** ** The feedback *)

Lemma scorer_feedback (lower : str -> str) (is_word : char -> bool)
    (compensated : bool) platform text strategy :
  strip text <> [] ->
  summary_feedback
    (quality_and_reach_scorer lower is_word compensated platform text strategy)
  = feedback (lower platform)
      (length_appropriateness (lower platform)
         (length (split (_normalize_whitespace (strip text)))))
      (hook_strength lower (strip text))
      (cta_quality lower (strip text))
      (hashtag_richness is_word (lower platform) (strip text)).
Proof.
  intros Hne; unfold quality_and_reach_scorer.
  rewrite (is_empty_false _ Hne); reflexivity.
Qed.

Lemma feedback_table (p : str) (l h q : Q) (hr : option Q) :
  In l [0.5; 0.6; 0.9; 0.8] -> In h [0.7; 0.85; 0.8] -> In q [0.6; 0.9] ->
  In hr [None; Some 0.4; Some 0.9; Some 0.7] ->
  (hr <> None -> str_eqb p (lit "instagram") = true) ->
  str_eqb (feedback p l h q hr)
    (lit "Overall, this content is well-structured for the platform.")
  = negb (Qltb l 0.7) && negb (Qltb h 0.75) && negb (Qltb q 0.75)
    && negb (match hr with Some t => Qltb t 0.7 | None => false end)
  /\ str_in (lit "Adjust the length to better fit this platform.")
       (feedback p l h q hr) = Qltb l 0.7
  /\ str_in (lit "Consider a stronger opening line or hook.")
       (feedback p l h q hr) = Qltb h 0.75
  /\ str_in (lit "Add a clearer call-to-action.")
       (feedback p l h q hr) = Qltb q 0.75
  /\ str_in (lit "Add more relevant hashtags to increase reach.")
       (feedback p l h q hr)
     = match hr with Some t => Qltb t 0.7 | None => false end
  /\ is_empty (feedback p l h q hr) = false.
Proof.
  intros Hl Hh Hq Hr Hp. unfold feedback.
  destruct (str_eqb p (lit "instagram")) eqn:E.
  - in_cases Hl; in_cases Hh; in_cases Hq; in_cases Hr;
      vm_compute; repeat split; reflexivity.
  - destruct hr as [t|]; [assert (H : false = true) by (apply Hp; discriminate);
                          discriminate H|].
    in_cases Hl; in_cases Hh; in_cases Hq;
      vm_compute; repeat split; reflexivity.
Qed.

(** X9: for a text that is not empty after trimming, the feedback is never
    empty; it contains the length advice exactly when
    [length_appropriateness] is below 0.7, the hook advice exactly when
    [hook_strength] is below 0.75, the call-to-action advice exactly when
    [cta_quality] is below 0.75 and the hashtag advice exactly when
    [hashtag_richness] is present and below 0.7; it is the positive
    sentence exactly when none of the four applies. *)
Theorem feedback_follows_dimensions :
  forall (lower : str -> str) (is_word : char -> bool) (compensated : bool)
         (platform text : str) (strategy : option str),
    strip text <> [] ->
    let r := quality_and_reach_scorer lower is_word compensated platform text
               strategy in
    exists c l h q hr,
      dimensions r = dimension_table c l h q hr
      /\ summary_feedback r <> []
      /\ str_in (lit "Adjust the length to better fit this platform.")
           (summary_feedback r) = Qltb l 0.7
      /\ str_in (lit "Consider a stronger opening line or hook.")
           (summary_feedback r) = Qltb h 0.75
      /\ str_in (lit "Add a clearer call-to-action.")
           (summary_feedback r) = Qltb q 0.75
      /\ str_in (lit "Add more relevant hashtags to increase reach.")
           (summary_feedback r)
         = match hr with Some t => Qltb t 0.7 | None => false end
      /\ (summary_feedback r
          = lit "Overall, this content is well-structured for the platform."
          <-> Qltb l 0.7 = false /\ Qltb h 0.75 = false
              /\ Qltb q 0.75 = false
              /\ match hr with Some t => Qltb t 0.7 | None => false end
                 = false).
Proof.
  intros lower is_word compensated platform text strategy Hne r; subst r.
  eexists _, _, _, _, _.
  split; [apply (scorer_dimensions lower is_word compensated _ _ strategy Hne)|].
  rewrite (scorer_feedback lower is_word compensated _ _ strategy Hne).
  match goal with |- context [feedback ?p ?l ?h ?q ?hr] =>
    destruct (feedback_table p l h q hr) as [Hpos [H1 [H2 [H3 [H4 H5]]]]];
      [apply length_cases | apply hook_cases | apply cta_cases
      | apply hashtag_cases | |]
  end.
  { intros Hsome. destruct (str_eqb (lower platform) (lit "instagram")) eqn:E;
      [reflexivity|].
    exfalso; apply Hsome. apply hashtag_other.
    intros E'; rewrite E', str_eqb_refl in E; discriminate. }
  split; [intros E; rewrite E in H5; discriminate|].
  split; [exact H1 | split; [exact H2 | split; [exact H3 | split; [exact H4|]]]].
  rewrite <- str_eqb_eq, Hpos, !andb_true_iff, !negb_true_iff. tauto.
Qed.

Lemma feedback_follows_dimensions_witness :
  strip (lit "Join us today") <> []
  /\ summary_feedback
       (quality_and_reach_scorer ascii_lower ascii_word false
          (lit "instagram") (lit "Join us today") None)
     <> [].
Proof.
  split; [vm_compute; discriminate|].
  destruct (feedback_follows_dimensions ascii_lower ascii_word false
              (lit "instagram") (lit "Join us today") None)
    as [c [l [h [q [hr [_ [H _]]]]]]].
  - vm_compute; discriminate.
  - exact H.
Defined.

(** ** The kept hashtags *)

Lemma startswith_nil (s : str) : startswith s [] = true.
Proof. destruct s; reflexivity. Qed.

Lemma startswith_hash_nonempty (t : str) :
  startswith t [HASH] = true -> exists r, t = HASH :: r.
Proof.
  destruct t as [|c r]; [discriminate|].
  intros H; cbn [startswith] in H.
  apply andb_true_iff in H as [H _]; apply N.eqb_eq in H; subst c; eauto.
Qed.

Lemma strip_fixed_cons (c : char) (t : str) :
  is_space c = false -> t <> [] -> strip t = t -> strip (c :: t) = c :: t.
Proof.
  intros Hc Hne Ht.
  rewrite <- (app_nil_r (c :: t)) at 1.
  change (strip ((c :: t) ++ [])) with (strip ([] ++ (c :: t) ++ [])).
  apply strip_padded; try reflexivity.
  right; split; [exists c, t; auto|].
  destruct (nonempty_last t Hne) as [y [d Ed]].
  exists (c :: y), d; split; [rewrite Ed; reflexivity|].
  apply (strip_last t y d). rewrite Ht; exact Ed.
Qed.

(** A tag is well formed when it starts with [#] and has no whitespace at
    either end. *)
Lemma cleaned_tags_wellformed (hashtags : list str) :
  Forall (fun t => startswith t [HASH] = true /\ strip t = t)
         (cleaned_tags hashtags).
Proof.
  induction hashtags as [|tag rest IH]; simpl; [constructor|].
  destruct (is_empty (strip tag)) eqn:He; [exact IH|].
  constructor; [|exact IH].
  assert (Hne : strip tag <> []) by (intros E; rewrite E in He; discriminate).
  destruct (startswith (strip tag) [HASH]) eqn:Hs.
  - split; [exact Hs | apply strip_idempotent].
  - split.
    { change (startswith (HASH :: strip tag) [HASH])
        with ((HASH =? HASH)%N && startswith (strip tag) []).
      rewrite startswith_nil; reflexivity. }
    apply strip_fixed_cons; [reflexivity | exact Hne | apply strip_idempotent].
Qed.

Lemma cleaned_tags_fixed (tags : list str) :
  Forall (fun t => startswith t [HASH] = true /\ strip t = t) tags ->
  cleaned_tags tags = tags.
Proof.
  induction 1 as [|t tags [Hs Ht] Hall IH]; simpl; [reflexivity|].
  rewrite Ht, Hs, IH.
  destruct (startswith_hash_nonempty t Hs) as [r ->]; reflexivity.
Qed.

Lemma cleaned_tags_length (hashtags : list str) :
  (length (cleaned_tags hashtags) <= length hashtags)%nat.
Proof.
  induction hashtags as [|tag rest IH]; simpl; [lia|].
  destruct (is_empty (strip tag)); simpl; lia.
Qed.

Lemma deduped_length (lower : str -> str) (seen tags : list str) :
  (length (deduped_tags lower seen tags) <= length tags)%nat.
Proof.
  revert seen; induction tags as [|t rest IH]; intros seen; simpl; [lia|].
  destruct (set_mem seen (lower t)); simpl;
    [specialize (IH seen) | specialize (IH (lower t :: seen))]; lia.
Qed.

Lemma deduped_fixed (lower : str -> str) (seen tags : list str) :
  NoDup (map lower tags) ->
  (forall t, In t tags -> ~ In (lower t) seen) ->
  deduped_tags lower seen tags = tags.
Proof.
  revert seen; induction tags as [|t rest IH]; intros seen Hnd Hfresh;
    simpl; [reflexivity|].
  inversion Hnd as [|x l Hx Hl]; subst.
  destruct (set_mem seen (lower t)) eqn:Hs.
  - apply set_mem_In in Hs. exfalso; apply (Hfresh t); [left; reflexivity|].
    exact Hs.
  - f_equal. apply IH; [exact Hl|].
    intros u Hu [E | Hin].
    + apply Hx. rewrite E. apply in_map; exact Hu.
    + apply (Hfresh u); [right; exact Hu | exact Hin].
Qed.

(** X10: every tag the Instagram branch keeps starts with [#] and has no
    whitespace at either end; there are no more kept tags than given tags;
    giving the kept tags back as the hashtag list yields the same hashtag
    block; no list and the empty list both give the empty block. *)
Theorem kept_hashtags :
  forall (lower : str -> str) (hashtags : list str),
    let kept := deduped_tags lower [] (cleaned_tags hashtags) in
    Forall (fun t => startswith t [HASH] = true /\ strip t = t) kept
    /\ (length kept <= length hashtags)%nat
    /\ deduped_tags lower [] (cleaned_tags kept) = kept
    /\ hashtag_block lower (Some kept) = hashtag_block lower (Some hashtags)
    /\ hashtag_block lower None = []
    /\ hashtag_block lower (Some []) = [].
Proof.
  intros lower hashtags kept.
  assert (Hwf : Forall (fun t => startswith t [HASH] = true /\ strip t = t)
                       kept).
  { pose proof (cleaned_tags_wellformed hashtags) as Hc.
    rewrite Forall_forall in *. intros t Ht.
    apply Hc, (deduped_incl lower [] (cleaned_tags hashtags)); exact Ht. }
  assert (Hfix : deduped_tags lower [] (cleaned_tags kept) = kept).
  { rewrite (cleaned_tags_fixed kept Hwf).
    destruct (deduped_fresh lower [] (cleaned_tags hashtags)) as [Hnd _].
    apply deduped_fixed; [exact Hnd | intros t _ []]. }
  split; [exact Hwf|].
  split.
  { pose proof (deduped_length lower [] (cleaned_tags hashtags)).
    pose proof (cleaned_tags_length hashtags). unfold kept; lia. }
  split; [exact Hfix|].
  split; [unfold hashtag_block; rewrite Hfix; reflexivity|].
  split; reflexivity.
Qed.

(** ** [run_agent] *)

Lemma fallback_prefix (last_error : option str) :
  startswith (fallback_output last_error) (lit "[FALLBACK") = true.
Proof. reflexivity. Qed.

(** X11: [run_agent] returns the trimmed content of the first attempt that
    completes among the three it makes, whatever the later attempts would
    give; its result depends on the first three attempts only; and when all
    three raise, the result starts with "[FALLBACK" and ends with the text
    of the third error. *)
Theorem run_agent_retries :
  forall (call call' : nat -> api_outcome),
    (forall (k : nat) (content : str),
       (1 <= k <= 3)%nat ->
       (forall j, (1 <= j < k)%nat -> exists e, call j = Raised e) ->
       call k = Completed content ->
       run_agent call = strip content)
    /\ ((forall j, (1 <= j <= 3)%nat -> call j = call' j) ->
        run_agent call = run_agent call')
    /\ ((forall j, (1 <= j <= 3)%nat -> exists e, call j = Raised e) ->
        startswith (run_agent call) (lit "[FALLBACK") = true
        /\ exists e, call 3%nat = Raised e
                     /\ run_agent call = fallback_output (Some e)).
Proof.
  intros call call'. unfold run_agent, MAX_RETRIES; simpl.
  split; [|split].
  - intros k content Hk Hprev Hc.
    assert (Hcases : k = 1%nat \/ k = 2%nat \/ k = 3%nat) by lia.
    destruct Hcases as [-> | [-> | ->]].
    + rewrite Hc; reflexivity.
    + destruct (Hprev 1%nat) as [e1 ->]; [lia|]. rewrite Hc; reflexivity.
    + destruct (Hprev 1%nat) as [e1 ->]; [lia|].
      destruct (Hprev 2%nat) as [e2 ->]; [lia|]. rewrite Hc; reflexivity.
  - intros H. rewrite <- (H 1%nat), <- (H 2%nat), <- (H 3%nat) by lia.
    reflexivity.
  - intros H.
    destruct (H 1%nat) as [e1 E1]; [lia|].
    destruct (H 2%nat) as [e2 E2]; [lia|].
    destruct (H 3%nat) as [e3 E3]; [lia|].
    rewrite E1, E2, E3. split; [reflexivity|].
    exists e3; split; reflexivity.
Qed.

Lemma run_agent_retries_witness :
  (1 <= 2 <= 3)%nat
  /\ run_agent (fun n => if (n =? 2)%nat then Completed spaced_text
                         else Raised (lit "timeout"))
     = [0x61; SP; SP; LF; 0x62; 0x09; 0x63]%N.
Proof.
  split; [lia|].
  refine (eq_trans
            (proj1 (run_agent_retries
                      (fun n => if (n =? 2)%nat then Completed spaced_text
                                else Raised (lit "timeout"))
                      (fun _ => Raised []))
               2%nat spaced_text _ _ eq_refl) _).
  - lia.
  - intros j Hj. assert (j = 1%nat) by lia. subst j.
    exists (lit "timeout"); reflexivity.
  - vm_compute; reflexivity.
Defined.

(** ** The refinement step *)

(** X12: [maybe_refine] raises exactly when the platform has no entry in
    [refinements] or in [scores].  Otherwise it returns, and the rewrite is
    accepted exactly when the stored score is present and below 0.90 and
    the stylist's answer to the improvement prompt is neither empty nor a
    fallback text.  An accepted rewrite is the returned text; [scores] then
    holds the scorer's result for it, the record holds the stored score as
    old score, the new score and the float difference of the two, and the
    platform is appended to [refinements_made].  Without an accepted
    rewrite the original text and the unchanged state are returned.  The
    entries of every other platform are untouched in both cases. *)
Theorem maybe_refine_outcome :
  forall (lower : str -> str) (is_word : char -> bool) (compensated : bool)
         (ask : str -> str) (strategy : option str)
         (st : RefineState) (p original_text : str),
    (maybe_refine lower is_word compensated ask strategy st p original_text
     = None
     <-> dict_get (refinements st) p = None
         \/ dict_get (scores st) p = None)
    /\ forall (record : Refinement) (entry : ScoreEntry),
         dict_get (refinements st) p = Some record ->
         dict_get (scores st) p = Some entry ->
         let answer :=
           ask (improvement_prompt p original_text (entry_feedback entry)) in
         let accepted :=
           needs_refinement (entry_score entry)
           && negb (is_empty answer
                    || startswith answer (lit "[FALLBACK")) in
         let rescored :=
           quality_and_reach_scorer lower is_word compensated p answer
             strategy in
         exists st',
           maybe_refine lower is_word compensated ask strategy st p
             original_text
           = Some (if accepted then answer else original_text, st')
           /\ (forall q, q <> p ->
                 dict_get (scores st') q = dict_get (scores st) q
                 /\ dict_get (refinements st') q
                    = dict_get (refinements st) q)
           /\ (accepted = false -> st' = st)
           /\ (accepted = true ->
               exists old_score,
                 entry_score entry = Some old_score
                 /\ old_score < REFINEMENT_THRESHOLD
                 /\ dict_get (scores st') p = Some (Scored rescored)
                 /\ dict_get (refinements st') p
                    = Some {| old := Some old_score;
                              new := Some (score rescored);
                              delta := fsub (float_lit (score rescored))
                                            (float_lit old_score) |}
                 /\ refinements_made st' = refinements_made st ++ [p]).
Proof.
  intros lower is_word compensated ask strategy st p original_text.
  split; [apply maybe_refine_raises|].
  intros record entry Hr He answer accepted rescored.
  destruct (needs_refinement (entry_score entry)) eqn:Hn.
  - destruct (proj1 (needs_refinement_iff _) Hn) as [old_score [Eo Hlt]].
    pose proof (maybe_refine_request lower is_word compensated ask strategy
                  st p original_text record entry old_score Hr He Eo Hlt)
      as H.
    cbv zeta in H. fold answer in H. fold rescored in H.
    subst accepted; cbn [andb].
    destruct (is_empty answer || startswith answer (lit "[FALLBACK"));
      cbn [negb].
    + exists st. split; [exact H|].
      split; [intros q _; split; reflexivity|].
      split; [reflexivity | discriminate].
    + eexists. split; [exact H|].
      cbn [scores refinements refinements_made].
      split; [intros q Hq; split; apply dict_get_set_other; exact Hq|].
      split; [discriminate|].
      intros _. exists old_score.
      split; [exact Eo|]. split; [exact Hlt|].
      split; [apply dict_get_set_same|].
      split; [apply dict_get_set_same | reflexivity].
  - subst accepted; cbn [andb].
    exists st.
    split; [exact (maybe_refine_no_request lower is_word compensated ask
                     strategy st p original_text record entry Hr He Hn)|].
    split; [intros q _; split; reflexivity|].
    split; [reflexivity | discriminate].
Qed.

Lemma maybe_refine_outcome_witness :
  dict_get (refinements low_score_state) (lit "email")
  = Some {| old := None; new := None; delta := fzero |}
  /\ exists st',
       maybe_refine ascii_lower ascii_word false
         (fun _ => lit "Join us today") None low_score_state (lit "email")
         (lit "original blurb")
       = Some (lit "Join us today", st')
       /\ dict_get (refinements st') (lit "email")
          = Some {| old := Some 0.6; new := Some 0.70;
                    delta := fsub (float_lit 0.70) (float_lit 0.6) |}
       /\ refinements_made st' = [lit "email"].
Proof.
  split; [reflexivity|].
  destruct (proj2 (maybe_refine_outcome ascii_lower ascii_word false
                     (fun _ => lit "Join us today") None low_score_state
                     (lit "email") (lit "original blurb"))
              {| old := None; new := None; delta := fzero |}
              (Scored {| platform := lit "email"; score := 0.6;
                         dimensions := []; summary_feedback := [] |})
              eq_refl eq_refl)
    as (st' & H & _ & _ & Hacc).
  exists st'. split; [exact H|].
  destruct (Hacc eq_refl) as (old_score & Eo & _ & _ & Hrec & Hmade).
  injection Eo as <-.
  split; [exact Hrec | exact Hmade].
Defined.

(** A rewrite request answered by nothing or by a fallback text changes
    nothing. *)
Lemma maybe_refine_bad_answer (lower : str -> str) (is_word : char -> bool)
    (compensated : bool) (ask : str -> str) (strategy : option str)
    (st : RefineState) (p original_text : str)
    (record : Refinement) (entry : ScoreEntry) :
  dict_get (refinements st) p = Some record ->
  dict_get (scores st) p = Some entry ->
  (forall prompt,
     is_empty (ask prompt) || startswith (ask prompt) (lit "[FALLBACK")
     = true) ->
  maybe_refine lower is_word compensated ask strategy st p original_text
  = Some (original_text, st).
Proof.
  intros Hr He Hbad.
  rewrite (maybe_refine_decision lower is_word compensated _ strategy st p
             original_text record entry Hr He).
  destruct (needs_refinement (entry_score entry)); [|reflexivity].
  unfold rewrite_and_rescore; cbv zeta. rewrite Hbad; reflexivity.
Qed.

(** X13: when the rewrite request fails (all three attempts raise, or the
    first answer is blank), [maybe_refine] returns the original text and
    leaves the state as it was. *)
Theorem failed_rewrite_keeps_original :
  forall (lower : str -> str) (is_word : char -> bool) (compensated : bool)
         (call : str -> nat -> api_outcome) (strategy : option str)
         (st : RefineState) (p original_text : str)
         (record : Refinement) (entry : ScoreEntry),
    dict_get (refinements st) p = Some record ->
    dict_get (scores st) p = Some entry ->
    (forall prompt,
       (forall j, (1 <= j <= 3)%nat -> exists e, call prompt j = Raised e)
       \/ exists content,
            call prompt 1%nat = Completed content /\ strip content = []) ->
    maybe_refine lower is_word compensated (fun prompt => run_agent (call prompt))
      strategy st p original_text
    = Some (original_text, st).
Proof.
  intros lower is_word compensated call strategy st p original_text record entry
         Hr He Hfail.
  apply (maybe_refine_bad_answer lower is_word compensated _ strategy st p
           original_text record entry Hr He).
  intros prompt.
  destruct (Hfail prompt) as [Hall | [content [Hc Hs]]].
  - destruct (Hall 1%nat) as [e1 E1]; [lia|].
    destruct (Hall 2%nat) as [e2 E2]; [lia|].
    destruct (Hall 3%nat) as [e3 E3]; [lia|].
    rewrite (run_agent_exhausted (call prompt) e1 e2 e3 E1 E2 E3).
    rewrite fallback_prefix; apply orb_true_r.
  - unfold run_agent, MAX_RETRIES; simpl; rewrite Hc, Hs; reflexivity.
Qed.

Lemma failed_rewrite_keeps_original_witness :
  dict_get (refinements low_score_state) (lit "email")
  = Some {| old := None; new := None; delta := fzero |}
  /\ needs_refinement (Some 0.6) = true
  /\ maybe_refine ascii_lower ascii_word false
       (fun prompt => run_agent (fun _ => Raised (lit "rate limit")))
       None low_score_state (lit "email") (lit "original blurb")
     = Some (lit "original blurb", low_score_state).
Proof.
  split; [reflexivity | split; [reflexivity|]].
  apply (failed_rewrite_keeps_original ascii_lower ascii_word false
           (fun _ _ => Raised (lit "rate limit")) None low_score_state
           (lit "email") (lit "original blurb")
           {| old := None; new := None; delta := fzero |}
           (Scored {| platform := lit "email"; score := 0.6;
                      dimensions := []; summary_feedback := [] |}));
    try reflexivity.
  intros prompt; left; intros j _; exists (lit "rate limit"); reflexivity.
Defined.

(** ** The pipeline *)

Lemma brief_based_draft_usable (user_brief : str) :
  brief_based_draft user_brief <> []
  /\ startswith (brief_based_draft user_brief) (lit "[FALLBACK") = false.
Proof. split; [discriminate | reflexivity]. Qed.


Lemma run_agent_outage (call : nat -> api_outcome) :
  (forall j, exists e, call j = Raised e) ->
  exists e, run_agent call = fallback_output (Some e).
Proof.
  intros H. destruct (H 1%nat) as [e1 E1], (H 2%nat) as [e2 E2],
    (H 3%nat) as [e3 E3].
  exists e3; apply run_agent_exhausted with (e1 := e1) (e2 := e2); assumption.
Qed.

(** After the two refinement steps every entry of [scores] is the
    scorer's result for the text kept for its platform. *)
Lemma refined_scores_match (lower : str -> str) (is_word : char -> bool)
    (compensated : bool) (ask1 ask2 : str -> str) (strategy : option str)
    (l0 i0 e0 l1 e1 : str) (st1 st2 : RefineState) :
  let scorer := quality_and_reach_scorer lower is_word compensated in
  let st0 :=
    {| scores :=
         [ (lit "linkedin", Scored (scorer (lit "linkedin") l0 strategy));
           (lit "instagram", Scored (scorer (lit "instagram") i0 strategy));
           (lit "email", Scored (scorer (lit "email") e0 strategy)) ];
       refinements := initial_refinements;
       refinements_made := [] |} in
  maybe_refine lower is_word compensated ask1 strategy st0 (lit "linkedin") l0
  = Some (l1, st1) ->
  maybe_refine lower is_word compensated ask2 strategy st1 (lit "email") e0
  = Some (e1, st2) ->
  dict_get (scores st2) (lit "linkedin")
  = Some (Scored (scorer (lit "linkedin") l1 strategy))
  /\ dict_get (scores st2) (lit "instagram")
     = Some (Scored (scorer (lit "instagram") i0 strategy))
  /\ dict_get (scores st2) (lit "email")
     = Some (Scored (scorer (lit "email") e1 strategy)).
Proof.
  intros scorer st0 H1 H2.
  destruct (maybe_refine_effect _ _ _ _ _ _ _ _ _ _ H1) as [F1 C1].
  destruct (maybe_refine_effect _ _ _ _ _ _ _ _ _ _ H2) as [F2 C2].
  assert (N1 : lit "linkedin" <> lit "email") by discriminate.
  assert (N2 : lit "instagram" <> lit "email") by discriminate.
  assert (N3 : lit "instagram" <> lit "linkedin") by discriminate.
  assert (N4 : lit "email" <> lit "linkedin") by discriminate.
  split; [|split].
  - rewrite (proj1 (F2 _ N1)).
    destruct C1 as [[-> ->] | [entry [o [_ [_ [_ [_ [_ [_ [Hs _]]]]]]]]]];
      [reflexivity | exact Hs].
  - rewrite (proj1 (F2 _ N2)), (proj1 (F1 _ N3)); reflexivity.
  - destruct C2 as [[-> ->] | [entry [o [_ [_ [_ [_ [_ [_ [Hs _]]]]]]]]]];
      [|exact Hs].
    rewrite (proj1 (F1 _ N4)); reflexivity.
Qed.

(** X14: a run of the pipeline always returns, and in the state it returns
    the entry of [scores] for each of the three platforms is the scorer's
    result for the text the state holds for that platform, rewritten or
    not. *)
Theorem pipeline_scores_match_texts :
  forall (lower : str -> str) (is_word : char -> bool) (compensated : bool)
         (client : call_site -> Agent -> str -> nat -> api_outcome)
         (user_brief : str),
    exists rs,
      run_content_repurposer lower is_word compensated client user_brief = Some rs
      /\ brief rs = user_brief
      /\ let strategy := Some (raw (strategy_notes rs)) in
         let scorer := quality_and_reach_scorer lower is_word compensated in
         dict_get (scores (refine_state rs)) (lit "linkedin")
         = Some (Scored (scorer (lit "linkedin") (linkedin rs) strategy))
         /\ dict_get (scores (refine_state rs)) (lit "instagram")
            = Some (Scored (scorer (lit "instagram") (instagram rs) strategy))
         /\ dict_get (scores (refine_state rs)) (lit "email")
            = Some (Scored (scorer (lit "email") (email rs) strategy)).
Proof.
  intros lower is_word compensated client user_brief.
  destruct (run_structure lower is_word compensated client user_brief)
    as [l1 [st1 [e1 [st2 [H1 [H2 Hrun]]]]]].
  eexists; split; [exact Hrun|]. split; [reflexivity|].
  cbn [strategy_notes refine_state linkedin instagram email raw
       parse_strategy]; cbv zeta.
  exact (refined_scores_match lower is_word compensated _ _ _ _ _ _ _ _ _ _
           H1 H2).
Qed.

(** X15: the base draft of a run is the draft writer's answer whenever
    that answer is neither empty nor a text that starts with "[FALLBACK",
    and the text built from the brief otherwise; so it is never empty and
    never a fallback text.  The writer is asked with the brief and the
    strategist's notes. *)
Theorem base_draft_never_fallback :
  forall (lower : str -> str) (is_word : char -> bool) (compensated : bool)
         (client : call_site -> Agent -> str -> nat -> api_outcome)
         (user_brief : str),
    exists rs,
      run_content_repurposer lower is_word compensated client user_brief
      = Some rs
      /\ raw (strategy_notes rs)
         = run_agent (client StrategyNotes create_brief_and_strategy_agent
                        (strategist_prompt user_brief))
      /\ (let answer :=
            run_agent (client BaseDraft create_master_draft_writer_agent
                         (draft_prompt user_brief
                            (raw (strategy_notes rs)))) in
          base_draft rs
          = if is_empty answer || startswith answer (lit "[FALLBACK")
            then lit "This draft is based on the user brief:" ++ [LF; LF]
                 ++ user_brief
            else answer)
      /\ base_draft rs <> []
      /\ startswith (base_draft rs) (lit "[FALLBACK") = false.
Proof.
  intros lower is_word compensated client user_brief.
  destruct (run_structure lower is_word compensated client user_brief)
    as [l1 [st1 [e1 [st2 [_ [_ Hrun]]]]]].
  eexists; split; [exact Hrun|].
  cbn [base_draft strategy_notes raw parse_strategy].
  split; [reflexivity|].
  unfold chosen_base_draft; cbv zeta.
  fold (strategist_reply client user_brief).
  set (d := run_agent _).
  split; [reflexivity|].
  destruct (is_empty d || startswith d (lit "[FALLBACK")) eqn:E.
  - destruct (brief_based_draft_usable user_brief) as [Hne Hfb].
    split; [exact Hne | exact Hfb].
  - apply orb_false_iff in E as [He Hf].
    split; [intros E; rewrite E in He; discriminate | exact Hf].
Qed.

(** X16: a run never rewrites the Instagram caption: the state holds the
    stylist's first answer, the Instagram refinement record keeps its
    initial value, and [refinements_made] lists linkedin and email at most
    once each, in that order. *)
Theorem instagram_never_refined :
  forall (lower : str -> str) (is_word : char -> bool) (compensated : bool)
         (client : call_site -> Agent -> str -> nat -> api_outcome)
         (user_brief : str),
    exists rs,
      run_content_repurposer lower is_word compensated client user_brief = Some rs
      /\ instagram rs
         = run_agent (client InstagramCaption create_platform_stylist_agent
                        (instagram_prompt (base_draft rs)))
      /\ dict_get (refinements (refine_state rs)) (lit "instagram")
         = Some {| old := None; new := None; delta := fzero |}
      /\ In (refinements_made (refine_state rs))
            [ []; [lit "linkedin"]; [lit "email"];
              [lit "linkedin"; lit "email"] ].
Proof.
  intros lower is_word compensated client user_brief.
  destruct (run_structure lower is_word compensated client user_brief)
    as [l1 [st1 [e1 [st2 [H1 [H2 Hrun]]]]]].
  eexists; split; [exact Hrun|].
  cbn [instagram base_draft refine_state].
  destruct (maybe_refine_effect _ _ _ _ _ _ _ _ _ _ H1) as [F1 C1].
  destruct (maybe_refine_effect _ _ _ _ _ _ _ _ _ _ H2) as [F2 C2].
  assert (N2 : lit "instagram" <> lit "email") by discriminate.
  assert (N3 : lit "instagram" <> lit "linkedin") by discriminate.
  split; [reflexivity|].
  split; [rewrite (proj2 (F2 _ N2)), (proj2 (F1 _ N3)); reflexivity|].
  assert (M1 : refinements_made st1 = [] \/
               refinements_made st1 = [lit "linkedin"]).
  { destruct C1 as [[_ ->] | [entry [o [_ [_ [_ [_ [_ [_ [_ [_ Hm]]]]]]]]]]];
      [left; reflexivity | right; rewrite Hm; reflexivity]. }
  destruct C2 as [[_ ->] | [entry [o [_ [_ [_ [_ [_ [_ [_ [_ Hm]]]]]]]]]]].
  - destruct M1 as [-> | ->]; simpl; auto.
  - rewrite Hm. destruct M1 as [-> | ->]; simpl; auto.
Qed.

(** X17: when every request to the model raises, the run still returns:
    the base draft is the text built from the brief, the controller plan
    and the three platform texts are fallback texts, nothing is refined,
    and each platform gets a stored score between 0.55 and 0.86. *)
Theorem outage_run :
  forall (lower : str -> str) (is_word : char -> bool) (compensated : bool)
         (client : call_site -> Agent -> str -> nat -> api_outcome)
         (user_brief : str),
    (forall site agent prompt j, exists e,
        client site agent prompt j = Raised e) ->
    exists rs,
      run_content_repurposer lower is_word compensated client user_brief = Some rs
      /\ base_draft rs = brief_based_draft user_brief
      /\ startswith (controller_plan rs) (lit "[FALLBACK") = true
      /\ startswith (linkedin rs) (lit "[FALLBACK") = true
      /\ startswith (instagram rs) (lit "[FALLBACK") = true
      /\ startswith (email rs) (lit "[FALLBACK") = true
      /\ refinements (refine_state rs) = initial_refinements
      /\ refinements_made (refine_state rs) = []
      /\ forall p, In p [lit "linkedin"; lit "instagram"; lit "email"] ->
           exists s, stored_score rs p = Some s
                     /\ 0.55 <= s /\ s <= 0.86.
Proof.
  intros lower is_word compensated client user_brief Hdown.
  destruct (run_structure lower is_word compensated client user_brief)
    as [l1 [st1 [e1 [st2 [H1 [H2 Hrun]]]]]].
  assert (Hfb : forall site agent prompt,
             exists e, run_agent (client site agent prompt)
                       = fallback_output (Some e)).
  { intros site agent prompt; apply run_agent_outage; apply Hdown. }
  assert (Hbad : forall platform prompt,
             is_empty (rewrite_reply client platform prompt)
             || startswith (rewrite_reply client platform prompt)
                  (lit "[FALLBACK") = true).
  { intros platform prompt; unfold rewrite_reply.
    destruct (Hfb (Rewrite platform) create_platform_stylist_agent prompt)
      as [e ->].
    rewrite fallback_prefix; apply orb_true_r. }
  match type of H1 with
  | maybe_refine _ _ _ _ ?strat ?st ?p ?orig = _ =>
      rewrite (maybe_refine_bad_answer lower is_word compensated
                 (rewrite_reply client p) strat st p orig
                 {| old := None; new := None; delta := fzero |} _
                 eq_refl eq_refl (Hbad p)) in H1
  end.
  injection H1 as <- <-.
  match type of H2 with
  | maybe_refine _ _ _ _ ?strat ?st ?p ?orig = _ =>
      rewrite (maybe_refine_bad_answer lower is_word compensated
                 (rewrite_reply client p) strat st p orig
                 {| old := None; new := None; delta := fzero |} _
                 eq_refl eq_refl (Hbad p)) in H2
  end.
  injection H2 as <- <-.
  eexists; split; [exact Hrun|].
  cbn [base_draft controller_plan linkedin instagram email refine_state
       refinements refinements_made].
  assert (Hdraft : chosen_base_draft client user_brief
                   = brief_based_draft user_brief).
  { unfold chosen_base_draft; cbv zeta.
    destruct (Hfb BaseDraft create_master_draft_writer_agent
                (draft_prompt user_brief (strategist_reply client user_brief)))
      as [e ->].
    rewrite fallback_prefix, orb_true_r; reflexivity. }
  split; [exact Hdraft|].
  split; [destruct (Hfb ControllerPlan create_controller_agent
                      (controller_prompt user_brief)) as [e ->];
          apply fallback_prefix|].
  unfold stylist_reply.
  destruct (Hfb LinkedinPost create_platform_stylist_agent
              (linkedin_prompt (chosen_base_draft client user_brief)))
    as [el El].
  destruct (Hfb InstagramCaption create_platform_stylist_agent
              (instagram_prompt (chosen_base_draft client user_brief)))
    as [ei Ei].
  destruct (Hfb EmailBlurb create_platform_stylist_agent
              (email_prompt (chosen_base_draft client user_brief)))
    as [ee Ee].
  rewrite El, Ei, Ee.
  split; [apply fallback_prefix|]. split; [apply fallback_prefix|].
  split; [apply fallback_prefix|].
  split; [reflexivity|]. split; [reflexivity|].
  intros p Hp. unfold stored_score; cbn [refine_state scores].
  destruct Hp as [<- | [<- | [<- | []]]];
    (eexists; split; [reflexivity|]); cbn [entry_score];
    match goal with
    | |- context [quality_and_reach_scorer ?lo ?w ?t ?p ?x ?s] =>
        destruct (score_nonempty_bounds lo w t p x s) as [Hlo Hhi];
          [apply fallback_nonempty | split; [exact Hlo | exact Hhi]]
    end.
Qed.

Lemma outage_run_witness :
  (forall (site : call_site) (agent : Agent) (prompt : str) (j : nat),
      exists e, (fun _ _ _ _ => Raised (lit "connection refused"))
                  site agent prompt j = Raised e)
  /\ exists rs,
       run_content_repurposer ascii_lower ascii_word false
         (fun _ _ _ _ => Raised (lit "connection refused")) (lit "My brief")
       = Some rs
       /\ base_draft rs = brief_based_draft (lit "My brief")
       /\ refinements_made (refine_state rs) = [].
Proof.
  assert (H : forall (site : call_site) (agent : Agent) (prompt : str)
                     (j : nat),
             exists e, (fun _ _ _ _ => Raised (lit "connection refused"))
                         site agent prompt j = Raised e)
    by (intros; exists (lit "connection refused"); reflexivity).
  split; [exact H|].
  destruct (outage_run ascii_lower ascii_word false
              (fun _ _ _ _ => Raised (lit "connection refused"))
              (lit "My brief") H)
    as [rs [Hrun [Hd [_ [_ [_ [_ [_ [Hm _]]]]]]]]].
  exists rs; split; [exact Hrun | split; [exact Hd | exact Hm]].
Defined.

(** ** The results file *)





(** X19: [get_next_test_case_id] falls back to 1 when the results file is
    missing, has at most one row, ends in an empty row, or ends in a row
    whose first field [int] rejects; and a results file that exists but is
    empty never gets a header, so after the first [append_test_result] the
    next id is 1 whatever id was written. *)
Theorem next_id_fallbacks :
  forall (py_int : str -> option Z),
    get_next_test_case_id py_int None = 1%Z
    /\ (forall rows, (length rows <= 1)%nat ->
          get_next_test_case_id py_int (Some rows) = 1%Z)
    /\ (forall rows, last rows [] = [] ->
          get_next_test_case_id py_int (Some rows) = 1%Z)
    /\ (forall rows id rest,
          last rows [] = id :: rest -> py_int id = None ->
          get_next_test_case_id py_int (Some rows) = 1%Z)
    /\ (forall (format_2f : Q -> str) (n : Z)
               (linkedin_score instagram_score email_score : option Q)
               (timestamp : str),
          get_next_test_case_id py_int
            (append_test_result format_2f (Some []) n linkedin_score
               instagram_score email_score timestamp)
          = 1%Z).
Proof.
  intros py_int. unfold get_next_test_case_id.
  split; [reflexivity|].
  split; [intros rows H; apply Nat.leb_le in H; rewrite H; reflexivity|].
  split; [intros rows H; rewrite H;
          destruct (length rows <=? 1)%nat; reflexivity|].
  split; [intros rows id rest H Hid; rewrite H, Hid;
          destruct (length rows <=? 1)%nat; reflexivity|].
  intros; reflexivity.
Qed.


(** ** Length thresholds *)

(** X21: for a text that is not empty after trimming,
    [length_appropriateness] depends on the lower-cased platform and on the
    number [n] of words of the text only: on linkedin 0.5 below 80 words,
    0.6 above 220 and 0.9 from 80 to 220; on email the same with 40 and
    160; on instagram with 10 and 120; on any other platform 0.8. *)
Theorem length_appropriateness_thresholds :
  forall (lower : str -> str) (is_word : char -> bool) (compensated : bool)
         (platform text : str) (strategy : option str),
    strip text <> [] ->
    let n := N.of_nat (length (split text)) in
    let band (lo hi : N) : Q :=
      if (n <? lo)%N then 0.5 else if (hi <? n)%N then 0.6 else 0.9 in
    dict_get
      (dimensions
         (quality_and_reach_scorer lower is_word compensated platform text
            strategy))
      (lit "length_appropriateness")
    = Some (Some (if str_eqb (lower platform) (lit "linkedin")
                  then band 80%N 220%N
                  else if str_eqb (lower platform) (lit "email")
                  then band 40%N 160%N
                  else if str_eqb (lower platform) (lit "instagram")
                  then band 10%N 120%N
                  else 0.8)).
Proof.
  intros lower is_word compensated platform text strategy Hne n band.
  rewrite (scorer_dimensions lower is_word compensated platform text strategy Hne).
  unfold dimension_table; cbn [dict_get].
  replace (str_eqb (lit "length_appropriateness") (lit "clarity"))
    with false by reflexivity.
  replace (str_eqb (lit "length_appropriateness") (lit "tone_match"))
    with false by reflexivity.
  replace (str_eqb (lit "length_appropriateness")
             (lit "length_appropriateness")) with true by reflexivity.
  rewrite split_normalize, split_strip. fold n.
  do 2 f_equal. subst band. remember (lower platform) as p eqn:Ep. clear Ep.
  destruct (str_eqb p (lit "linkedin")) eqn:E1.
  { apply str_eqb_eq in E1; subst p; reflexivity. }
  destruct (str_eqb p (lit "email")) eqn:E2.
  { apply str_eqb_eq in E2; subst p; reflexivity. }
  destruct (str_eqb p (lit "instagram")) eqn:E3.
  { apply str_eqb_eq in E3; subst p; reflexivity. }
  unfold length_appropriateness; rewrite E1, E2, E3; reflexivity.
Qed.

Lemma length_appropriateness_thresholds_witness :
  strip two_hundred_words <> []
  /\ dict_get
       (dimensions
          (quality_and_reach_scorer ascii_lower ascii_word false
             (lit "Email") two_hundred_words None))
       (lit "length_appropriateness")
     = Some (Some 0.6).
Proof.
  split; [vm_compute; discriminate|].
  refine (eq_trans
            (length_appropriateness_thresholds ascii_lower ascii_word false
               (lit "Email") two_hundred_words None _) _).
  - vm_compute; discriminate.
  - vm_compute; reflexivity.
Defined.
